(** * Iowa liquor sales fact loader (import.py): model and verified properties

    The development embeds the parts of [import.py] that decide how rows of
    the source file become fact records: the natural-key parser
    [safe_convert_to_int], the product pass [process_all_products], the cache
    validators, the invoice tracker with its seeding and checkpoints, and the
    chunk transformer [process_chunk].

    Conventions of the embedding:
    - a Python [dict] is a [gmap]; [GLOBAL_INVOICE_TRACKER], a dict whose
      values are all [True] and which is only queried with [in] and [len],
      is a [gset] of invoice keys;
    - a global that a function mutates is passed in and returned;
    - an exception that the function catches becomes the branch of its
      handler; one that escapes the function is a [Raised] result;
    - a character of a string is a code point below U+0100, and [Py]
      follows Python's [str] methods and [int] on these; text with other
      code points is outside the model;
    - a numeric cell of a data frame is a [num] (missing, finite or
      infinite), the finite ones as exact rationals, on which the sign tests
      and the truncation [int(...)] of the code are exact;
    - a row has all the columns the code reads, so that the [KeyError]
      handler of [process_chunk] has nothing to catch. *)

From Stdlib Require Import QArith Ascii String Sorted.
From stdpp Require Import base gmap sets list strings pretty.

#[local] Set Warnings "-clear-no-such-hyp".

Local Open Scope char_scope.
Local Open Scope string_scope.
Local Open Scope list_scope.
Local Open Scope Z_scope.

(** ** Python string primitives used by the loader *)

Module Py.

(** [str.isspace], which [str.strip] goes by: TAB..CR, FS..US, the space,
    NEL (U+0085) and the no-break space (U+00A0). *)
Definition is_space (c : ascii) : bool :=
  let n := N_of_ascii c in
  ((9 <=? n) && (n <=? 13) || (28 <=? n) && (n <=? 32)
   || (n =? 133) || (n =? 160))%N.

(** The white space that [int] skips around a numeral: as [is_space],
    without FS..US. *)
Definition is_int_space (c : ascii) : bool :=
  let n := N_of_ascii c in
  ((9 <=? n) && (n <=? 13) || (n =? 32) || (n =? 133) || (n =? 160))%N.

(** The decimal digits; below U+0100 these are [0] to [9]. *)
Definition digit_val (c : ascii) : option Z :=
  let n := N_of_ascii c in
  if ((48 <=? n) && (n <=? 57))%N then Some (Z.of_N n - 48) else None.

Definition is_digit (c : ascii) : bool :=
  match digit_val c with Some _ => true | None => false end.

(** Removal of the characters of the class [space] at the left and at the
    right end. *)
Fixpoint lstrip_by (space : ascii → bool) (s : string) : string :=
  match s with
  | String c s' => if space c then lstrip_by space s' else s
  | EmptyString => EmptyString
  end.

Fixpoint rstrip_by (space : ascii → bool) (s : string) : string :=
  match s with
  | String c s' =>
      match rstrip_by space s' with
      | EmptyString => if space c then EmptyString else String c EmptyString
      | r => String c r
      end
  | EmptyString => EmptyString
  end.

Definition lstrip (s : string) : string := lstrip_by is_space s.

Definition rstrip (s : string) : string := rstrip_by is_space s.

(** [s.strip()] *)
Definition strip (s : string) : string := lstrip (rstrip s).

(** The letters with a lower case below U+0100: [A] to [Z] and U+00C0 to
    U+00DE without the multiplication sign U+00D7. *)
Definition lower_char (c : ascii) : ascii :=
  let n := N_of_ascii c in
  if ((65 <=? n) && (n <=? 90)
      || (192 <=? n) && (n <=? 222) && negb (n =? 215))%N
  then ascii_of_N (n + 32) else c.

(** [s.lower()] *)
Fixpoint lower (s : string) : string :=
  match s with
  | String c s' => String (lower_char c) (lower s')
  | EmptyString => EmptyString
  end.

(** [s.startswith(p)] and [s.endswith(p)] *)
Definition startswith (p s : string) : bool := String.prefix p s.

Fixpoint endswith (p s : string) : bool :=
  String.eqb s p ||
  match s with
  | String _ s' => endswith p s'
  | EmptyString => false
  end.

(** [s.split(sep)] for a one-character separator: every occurrence
    splits, empty parts are kept. *)
Fixpoint split (sep : ascii) (s : string) : list string :=
  match s with
  | EmptyString => [EmptyString]
  | String c s' =>
      if Ascii.eqb c sep then EmptyString :: split sep s'
      else match split sep s' with
           | p :: ps => String c p :: ps
           | [] => [String c EmptyString]
           end
  end.

Fixpoint all_chars (P : ascii → bool) (s : string) : bool :=
  match s with
  | String c s' => P c && all_chars P s'
  | EmptyString => true
  end.

(** CPython refuses to convert a numeral of more than
    [sys.get_int_max_str_digits()] digits (4300 unless reconfigured) with a
    [ValueError]. *)
Definition int_max_str_digits : nat := 4300.

(** The digit loop of [int(s)] in base 10: digits, with single underscores
    allowed between two digits. [acc] is the value read so far, [cnt] the
    number of digits read, [prev] whether the previous character was a
    digit. [None] is [ValueError]. *)
Fixpoint int_digits (s : string) (acc : Z) (cnt : nat) (prev : bool)
  : option (Z * nat) :=
  match s with
  | EmptyString => if prev then Some (acc, cnt) else None
  | String c s' =>
      match digit_val c with
      | Some d => int_digits s' (10 * acc + d) (S cnt) true
      | None =>
          if Ascii.eqb c "_" && prev then int_digits s' acc cnt false
          else None
      end
  end.

Definition int_unsigned (s : string) : option Z :=
  match int_digits s 0 0 false with
  | Some (v, cnt) => if (cnt <=? int_max_str_digits)%nat then Some v else None
  | None => None
  end.

(** What [int] leaves of [s] before it reads the sign and the digits. *)
Definition int_strip (s : string) : string :=
  lstrip_by is_int_space (rstrip_by is_int_space s).

(** [int(s)] for a string [s]: surrounding white space is ignored, then an
    optional sign, then the digits. [None] is [ValueError]. *)
Definition int_of_str (s : string) : option Z :=
  match int_strip s with
  | String "+" r => int_unsigned r
  | String "-" r => Z.opp <$> int_unsigned r
  | r => int_unsigned r
  end.

End Py.

(** ** [safe_convert_to_int] (import.py, lines 67-78)

    The columns it is applied to are read with [dtype=str], so a cell is a
    string or missing ([pd.isna]); [str(val)] is then the string itself. The
    [ValueError] of [int] is caught and mapped to [None]. *)

Definition safe_convert_to_int (val : option string) : option Z :=
  match val with
  | None => None
  | Some v =>
      let cleaned := Py.lower (Py.strip v) in
      let cleaned :=
        if Py.startswith "x" cleaned
        then match cleaned with String _ t => t | EmptyString => EmptyString end
        else cleaned in
      Py.int_of_str cleaned
  end.

(** *** The texts that are converted

    A decimal numeral as [int] reads it: digits, with single underscores
    allowed between two digits; [ds] are its digits, first to last. *)
Inductive numeral : string → list Z → Prop :=
  | numeral_last c d :
      Py.digit_val c = Some d → numeral (String c EmptyString) [d]
  | numeral_digit c d s ds :
      Py.digit_val c = Some d → numeral s ds → numeral (String c s) (d :: ds)
  | numeral_underscore c d s ds :
      Py.digit_val c = Some d → numeral s ds →
      numeral (String c (String "_" s)) (d :: ds).

Definition digits_value (ds : list Z) : Z :=
  foldl (λ acc d, 10 * acc + d) 0 ds.

(** [v] is a text with the integer value [n]: white space, at most one
    [x] or [X], white space of the kind [int] skips, at most one sign, a
    numeral of at most 4300 digits, white space. Leading zeros count as
    digits. *)
Definition integer_text (v : string) (n : Z) : Prop :=
  ∃ ws1 px ws2 sg body ws3 ds,
    v = ws1 +:+ px +:+ ws2 +:+ sg +:+ body +:+ ws3 ∧
    Py.all_chars Py.is_space ws1 = true ∧
    Py.all_chars Py.is_space ws3 = true ∧
    (px = "" ∧ ws2 = "" ∨
     (px = "x" ∨ px = "X") ∧ Py.all_chars Py.is_int_space ws2 = true) ∧
    numeral body ds ∧ (length ds ≤ Py.int_max_str_digits)%nat ∧
    (sg = "" ∧ n = digits_value ds ∨
     sg = "+" ∧ n = digits_value ds ∨
     sg = "-" ∧ n = - digits_value ds).

(** The characters such a text is made of, the prefix apart. *)
Definition is_key_char (c : ascii) : bool :=
  Py.is_space c || Py.is_digit c || Ascii.eqb c "_" || Ascii.eqb c "+"
  || Ascii.eqb c "-".


(** ** Values held by the data frames *)

(** The exceptions that occur in the modelled code. *)
Inductive exn := ValueError | TypeError | KeyError | IndexError | OverflowError.

(** Code that may raise: [inl e] is the exception [e] leaving it. *)
#[global] Instance exn_bind : MBind (sum exn) := λ A B f m,
  match m with
  | inr a => f a
  | inl e => inl e
  end.

#[global] Instance exn_fmap : FMap (sum exn) := λ A B f m,
  match m with
  | inr a => inr (f a)
  | inl e => inl e
  end.

(** The handlers of the loader are all [except (ValueError, TypeError)]. *)
Definition caught_by_row_handler (e : exn) : bool :=
  match e with
  | ValueError | TypeError => true
  | _ => false
  end.

(** A cell of a numeric column ([float64], or [int64] when nothing is
    missing). *)
Inductive num := NaN | Fin (q : Q) | PosInf | NegInf.

(** [pd.isna(val)] and [pd.notna(val)] on a numeric cell *)
Definition isna (v : num) : bool :=
  match v with NaN => true | _ => false end.

Definition notna (v : num) : bool := negb (isna v).

(** [float(val) <= 0]; a comparison with NaN is false. *)
Definition le_zero (v : num) : bool :=
  match v with
  | Fin q => Qle_bool q 0
  | NegInf => true
  | PosInf | NaN => false
  end.

(** [int(val)] on a float: truncation towards zero; [int(nan)] is a
    [ValueError], [int(inf)] an [OverflowError]. *)
Definition int_of_num (v : num) : exn + Z :=
  match v with
  | Fin q => inr (Z.quot (Qnum q) (Z.pos (Qden q)))
  | NaN => inl ValueError
  | PosInf | NegInf => inl OverflowError
  end.

(** Strictly positive, as a property of a stored float. *)
Definition positive_num (v : num) : Prop :=
  match v with
  | Fin q => (0 < q)%Q
  | PosInf => True
  | NaN | NegInf => False
  end.

(** A calendar date, [datetime.date]. *)
Record date := mkDate { d_year : Z; d_month : Z; d_day : Z }.

#[global] Instance date_eq_dec : EqDecision date.
Proof. solve_decision. Defined.

#[global] Instance date_countable : Countable date :=
  inj_countable' (λ d, (d_year d, d_month d, d_day d))
                 (λ t, mkDate t.1.1 t.1.2 t.2)
                 (λ d, match d with mkDate _ _ _ => eq_refl end).

(** A cell of the [Date] column, which [read_csv] parses
    ([parse_dates=['Date']]): a timestamp, that is a date and the nanoseconds
    since midnight, or [NaT] where the file has no date. *)
Inductive timestamp := Stamp (d : date) (ns : Z) | NaT.

(** [pd.to_datetime(cell).date()]: [NaT.date()] is [NaT] again. *)
Definition to_date (t : timestamp) : option date :=
  match t with Stamp d _ => Some d | NaT => None end.

(** [pd.to_datetime(cell).year]: [NaT.year] is [nan], here [None]. It is
    the one object [np.nan] every time, so that within a run two keys with
    this year and the same identifier are the same key of the dict. *)
Definition to_year (t : timestamp) : option Z :=
  match t with Stamp d _ => Some (d_year d) | NaT => None end.

(** The order of the [Date] column, with [NaT] last
    ([na_position='last']). *)
Definition stamp_leb (a b : timestamp) : bool :=
  match a, b with
  | _, NaT => true
  | NaT, Stamp _ _ => false
  | Stamp d1 n1, Stamp d2 n2 =>
      if (d_year d1 =? d_year d2)%Z then
        if (d_month d1 =? d_month d2)%Z then
          if (d_day d1 =? d_day d2)%Z then (n1 <=? n2)%Z
          else (d_day d1 <? d_day d2)%Z
        else (d_month d1 <? d_month d2)%Z
      else (d_year d1 <? d_year d2)%Z
  end.

(** One row of a chunk of the source file, as [read_csv] of [main] yields
    it: the invoice identifier is text, the three natural-key columns are
    read as strings ([dtype=str]), the measures are numeric columns. [None]
    is a missing cell. *)
Record Row := mkRow {
  Date : timestamp;
  Invoice_Item_Number : option string;
  Store_Number : option string;
  Vendor_Number : option string;
  Item_Number : option string;
  State_Bottle_Cost : num;
  State_Bottle_Retail : num;
  Bottles_Sold : num;
  Sale_Dollars : num;
  Volume_Sold_Liters : num;
  Volume_Sold_Gallons : num
}.

(** The dict that [process_chunk] appends to [fact_records]. *)
Record FactRecord := mkFact {
  date_key : Z;
  year : Z;
  store_key : Z;
  product_key : Z;
  vendor_key : Z;
  invoice_item_number : string;
  state_bottle_cost : num;
  state_bottle_retail : num;
  bottles_sold : Z;
  sale_dollars : num;
  volume_sold_liters : num;
  volume_sold_gallons : num
}.

(** [invoice_key = (invoice_item_number, year)]; the year is [None] for the
    [nan] of a row without date. *)
Abbreviation InvoiceKey := (string * option Z)%type.

Definition fact_key (f : FactRecord) : InvoiceKey :=
  (invoice_item_number f, Some (year f)).

(** [class DimensionCache]. [date_cache] is keyed by [str(date)], the ISO
    text of the date; that text determines the date, so the model keys the
    map by the date itself (and [str(NaT)] is no key). *)
Record DimensionCache := mkCache {
  date_cache : gmap date Z;
  store_cache : gmap Z Z;
  product_cache : gmap Z Z;
  vendor_cache : gmap Z Z
}.

(** Truth value of the result of [dict.get]: [None] and [0] are false. *)
Definition truthy (o : option Z) : bool :=
  match o with
  | Some v => negb (v =? 0)%Z
  | None => false
  end.

(** ** [check_existing_invoices] (lines 453-472)

    [fact_sales] is given by its [(invoice_item_number, year)] columns. *)

Definition check_existing_invoices (fact_sales : list (string * Z))
    (GLOBAL_INVOICE_TRACKER : gset InvoiceKey) : gset InvoiceKey :=
  foldl (λ tracker '(invoice_item_number, year),
           {[ (invoice_item_number, Some year) ]} ∪ tracker)
        GLOBAL_INVOICE_TRACKER fact_sales.

(** ** [process_chunk] (lines 474-590) *)

(** The variables of the loop, the global tracker among them. *)
Record loop_state := mkState {
  tracker : gset InvoiceKey;
  chunk_seen_invoices : gset InvoiceKey;
  fact_records : list FactRecord;
  missing_products : gset Z;
  missing_vendors : gset Z;
  missing_stores : gset Z;
  duplicate_count : nat
}.

Definition initial_state (GLOBAL_INVOICE_TRACKER : gset InvoiceKey) : loop_state :=
  mkState GLOBAL_INVOICE_TRACKER ∅ [] ∅ ∅ ∅ 0.

(** Lines 514-521. *)
Definition required_numeric_fields (row : Row) : list num :=
  [ State_Bottle_Cost row; State_Bottle_Retail row; Bottles_Sold row;
    Sale_Dollars row; Volume_Sold_Liters row; Volume_Sold_Gallons row ].

(** What lines 513-570 decide for a row whose key has just been claimed. *)
Inductive verdict :=
  | Accept (f : FactRecord)
  | MissingStore (store_number : Z)
  | MissingVendor (vendor_number : Z)
  | MissingProduct (item_number : Z)
  | Rejected
  | Escapes (e : exn).

Definition build_record (cache : DimensionCache) (row : Row)
    (invoice_item_number : string) : verdict :=
  if existsb (λ val, isna val || le_zero val) (required_numeric_fields row)
  then Rejected
  else
    match safe_convert_to_int (Store_Number row),
          safe_convert_to_int (Vendor_Number row),
          safe_convert_to_int (Item_Number row) with
    | Some store_number, Some vendor_number, Some item_number =>
        let store_key := store_cache cache !! store_number in
        let vendor_key := vendor_cache cache !! vendor_number in
        let product_key := product_cache cache !! item_number in
        let date_key := to_date (Date row) ≫= λ d, date_cache cache !! d in
        if negb (truthy store_key) then MissingStore store_number
        else if negb (truthy vendor_key) then MissingVendor vendor_number
        else if negb (truthy product_key) then MissingProduct item_number
        else if negb (truthy date_key) then Rejected
        else
          match store_key, vendor_key, product_key, date_key,
                to_year (Date row) with
          | Some sk, Some vk, Some pk, Some dk, Some y =>
              match int_of_num (Bottles_Sold row) with
              | inr bottles =>
                  Accept {| date_key := dk; year := y; store_key := sk;
                            product_key := pk; vendor_key := vk;
                            invoice_item_number := invoice_item_number;
                            state_bottle_cost := State_Bottle_Cost row;
                            state_bottle_retail := State_Bottle_Retail row;
                            bottles_sold := bottles;
                            sale_dollars := Sale_Dollars row;
                            volume_sold_liters := Volume_Sold_Liters row;
                            volume_sold_gallons := Volume_Sold_Gallons row |}
              | inl e => if caught_by_row_handler e then Rejected else Escapes e
              end
          | _, _, _, _, _ => Rejected
          end
    | _, _, _ => Rejected
    end.

(** The key a row is filed under (lines 490-498), when it has an invoice
    identifier that is neither missing nor empty. *)
Definition row_key (row : Row) : option InvoiceKey :=
  match Invoice_Item_Number row with
  | Some inv => if String.eqb inv "" then None else Some (inv, to_year (Date row))
  | None => None
  end.

(** The result of running part of the loop: it goes on, or an exception
    leaves [process_chunk]. The state is kept in both cases, as the tracker
    is a global. *)
Inductive step := Next (st : loop_state) | Raised (e : exn) (st : loop_state).

Definition state_of (s : step) : loop_state :=
  match s with Next st | Raised _ st => st end.

(** The updates of the loop variables. *)
Definition count_duplicate (st : loop_state) : loop_state :=
  mkState (tracker st) (chunk_seen_invoices st) (fact_records st)
          (missing_products st) (missing_vendors st) (missing_stores st)
          (S (duplicate_count st)).

(** Lines 510-511: [chunk_seen_invoices.add(invoice_key)] and
    [GLOBAL_INVOICE_TRACKER[invoice_key] = True]. *)
Definition claimed (invoice_key : InvoiceKey) (st : loop_state) : loop_state :=
  mkState ({[ invoice_key ]} ∪ tracker st)
          ({[ invoice_key ]} ∪ chunk_seen_invoices st)
          (fact_records st) (missing_products st) (missing_vendors st)
          (missing_stores st) (duplicate_count st).

Definition append_record (f : FactRecord) (st : loop_state) : loop_state :=
  mkState (tracker st) (chunk_seen_invoices st) (fact_records st ++ [f])
          (missing_products st) (missing_vendors st) (missing_stores st)
          (duplicate_count st).

Definition add_missing_store (n : Z) (st : loop_state) : loop_state :=
  mkState (tracker st) (chunk_seen_invoices st) (fact_records st)
          (missing_products st) (missing_vendors st)
          ({[ n ]} ∪ missing_stores st) (duplicate_count st).

Definition add_missing_vendor (n : Z) (st : loop_state) : loop_state :=
  mkState (tracker st) (chunk_seen_invoices st) (fact_records st)
          (missing_products st) ({[ n ]} ∪ missing_vendors st)
          (missing_stores st) (duplicate_count st).

Definition add_missing_product (n : Z) (st : loop_state) : loop_state :=
  mkState (tracker st) (chunk_seen_invoices st) (fact_records st)
          ({[ n ]} ∪ missing_products st) (missing_vendors st)
          (missing_stores st) (duplicate_count st).

(** The body of [for _, row in chunk.iterrows()] (lines 488-577). *)
Definition process_row (cache : DimensionCache) (st : loop_state) (row : Row) : step :=
  match Invoice_Item_Number row with
  | None => Next st
  | Some invoice_item_number =>
      if String.eqb invoice_item_number "" then Next st
      else
        let invoice_key := (invoice_item_number, to_year (Date row)) in
        if decide (invoice_key ∈ chunk_seen_invoices st) then Next st
        else if decide (invoice_key ∈ tracker st) then Next (count_duplicate st)
        else
          let st := claimed invoice_key st in
          match build_record cache row invoice_item_number with
          | Accept f => Next (append_record f st)
          | MissingStore store_number => Next (add_missing_store store_number st)
          | MissingVendor vendor_number => Next (add_missing_vendor vendor_number st)
          | MissingProduct item_number => Next (add_missing_product item_number st)
          | Rejected => Next st
          | Escapes e => Raised e st
          end
  end.

Fixpoint process_rows (cache : DimensionCache) (rows : list Row) (st : loop_state) : step :=
  match rows with
  | [] => Next st
  | row :: rows' =>
      match process_row cache st row with
      | Next st' => process_rows cache rows' st'
      | Raised e st' => Raised e st'
      end
  end.

(** A stable sort on the [Date] column, by insertion. *)
Fixpoint insert_by_date (row : Row) (sorted : list Row) : list Row :=
  match sorted with
  | [] => [row]
  | r :: rest =>
      if stamp_leb (Date r) (Date row) then r :: insert_by_date row rest
      else row :: sorted
  end.

Definition sort_by_date (chunk : list Row) : list Row :=
  foldr insert_by_date [] chunk.

Section ProcessChunk.

(** [chunk.sort_values('Date')]. pandas sorts with an unstable algorithm by
    default, so the order it leaves between rows of equal timestamp is not
    fixed by the source: the sort is a parameter, and [sort_by_date] is one
    instance. *)
Variable sort_values : list Row → list Row.

(** [process_chunk(chunk, cache)], with the global tracker as an argument.
    [Next st] is [return fact_records] with the final values of the loop
    variables. *)
Definition process_chunk (chunk : list Row) (cache : DimensionCache)
    (GLOBAL_INVOICE_TRACKER : gset InvoiceKey) : step :=
  process_rows cache (sort_values chunk) (initial_state GLOBAL_INVOICE_TRACKER).

(** The fact loop of [main] (lines 819-831): the chunks are transformed one
    after the other on the main thread, each against the tracker the
    previous one left; [loaded] collects the records handed to the batch
    loader. *)
Fixpoint process_chunks (chunks : list (list Row)) (cache : DimensionCache)
    (GLOBAL_INVOICE_TRACKER : gset InvoiceKey) (loaded : list FactRecord)
  : (exn + unit) * gset InvoiceKey * list FactRecord :=
  match chunks with
  | [] => (inr (), GLOBAL_INVOICE_TRACKER, loaded)
  | chunk :: chunks' =>
      match process_chunk chunk cache GLOBAL_INVOICE_TRACKER with
      | Next st =>
          process_chunks chunks' cache (tracker st) (loaded ++ fact_records st)
      | Raised e st => (inl e, tracker st, loaded)
      end
  end.

End ProcessChunk.

(** ** The claim of a key, step by step (lines 505-511)

    The membership test of line 505 and the insertion of line 511 are two
    statements, with no lock around them, and the interpreter may switch
    threads between them. A caller is at the test, between the test and the
    insertion, or done with the answer it got. The tracker is the shared
    object; [chunk_seen_invoices] belongs to one call of [process_chunk] and
    plays no part between callers. *)

Inductive claim_pc := AtTest | AtInsert | Done (claimed : bool).

#[global] Instance claim_pc_eq_dec : EqDecision claim_pc.
Proof. solve_decision. Defined.

Definition claim_step (key : InvoiceKey) (tr : gset InvoiceKey) (pc : claim_pc)
  : gset InvoiceKey * claim_pc :=
  match pc with
  | AtTest => if decide (key ∈ tr) then (tr, Done false) else (tr, AtInsert)
  | AtInsert => ({[ key ]} ∪ tr, Done true)
  | Done b => (tr, Done b)
  end.

(** One step of caller [i]; the others stay where they are. *)
Definition sched_step (key : InvoiceKey)
    (s : gset InvoiceKey * list claim_pc) (i : nat)
  : gset InvoiceKey * list claim_pc :=
  match s.2 !! i with
  | Some pc => let '(tr', pc') := claim_step key s.1 pc in (tr', <[i := pc']> s.2)
  | None => s
  end.

(** A schedule names the caller that moves at each step. *)
Definition run_schedule (key : InvoiceKey) (schedule : list nat)
    (s : gset InvoiceKey * list claim_pc) : gset InvoiceKey * list claim_pc :=
  foldl (sched_step key) s schedule.

(** The callers run one after the other: each does its test and its
    insertion with no step of another caller in between. *)
Definition serial_schedule (order : list nat) : list nat :=
  order ≫= λ i, [i; i].

(** ** The product pass (lines 294-334) *)

(** A cell of the [Item Number] column, which this pass reads without a
    [dtype]: a number or a string. *)
Inductive cell := Number (v : num) | Text (s : string).

Record ProductRow := mkProductRow {
  P_Item_Number : cell;
  P_Item_Description : string;
  P_Category : num;
  P_Category_Name : option string;
  P_Pack : num;
  P_Bottle_Volume_ml : num
}.

(** The tuple appended to [product_records]. *)
Record ProductRecord := mkProduct {
  item_number : Z;
  item_description : string;
  category_number : Z;
  category_name : string;
  pack : Z;
  bottle_volume_ml : Z
}.

(** [df[col].fillna(d)] on one cell *)
Definition fillna (d : num) (v : num) : num := if isna v then d else v.

(** Lines 305-306 on one cell: missing, then zero or negative, become 750. *)
Definition fix_bottle_volume (v : num) : num :=
  let v := fillna (Fin 750) v in
  if le_zero v then Fin 750 else v.

Section ProductPass.

(** [float(s)] for a string [s], which the code applies to an item number
    that is a string without the prefix; [None] is its [ValueError]. *)
Variable float_of_str : string → option num.

Definition int_float_cell (c : cell) : exn + Z :=
  match c with
  | Number v => int_of_num v
  | Text s =>
      match float_of_str s with
      | Some v => int_of_num v
      | None => inl ValueError
      end
  end.

(** Lines 312-330: the body of the [try]. *)
Definition product_record (row : ProductRow) : exn + ProductRecord :=
  item_number ←
    match P_Item_Number row with
    | Text (String c t as s) =>
        if Ascii.eqb c "x" then
          match Py.int_of_str t with Some n => inr n | None => inl ValueError end
        else int_float_cell (Text s)
    | c => int_float_cell c
    end;
  category ←
    (let v := fillna (Fin 0) (P_Category row) in
     if notna v then int_of_num v else inr 0);
  pack ←
    (let v := fillna (Fin 1) (P_Pack row) in
     if notna v then int_of_num v else inr 1);
  bottle_volume ← int_of_num (fix_bottle_volume (P_Bottle_Volume_ml row));
  inr {| item_number := item_number;
         item_description := P_Item_Description row;
         category_number := category;
         category_name := default "Uncategorized" (P_Category_Name row);
         pack := pack;
         bottle_volume_ml := bottle_volume |}.

(** [process_all_products(df, conn)] up to the records it hands to the
    upsert: a row whose conversion raises [ValueError] or [TypeError] is
    skipped, another exception leaves the function. *)
Fixpoint process_all_products (df : list ProductRow) : exn + list ProductRecord :=
  match df with
  | [] => inr []
  | row :: df' =>
      match product_record row with
      | inr rec => cons rec <$> process_all_products df'
      | inl e =>
          if caught_by_row_handler e then process_all_products df' else inl e
      end
  end.

End ProductPass.

(** ** Cache validation (lines 166-186 and 369-390) *)

(** [dict(pairs)]: a later pair replaces an earlier one with the same key. *)
Definition py_dict `{Countable K} {V} (pairs : list (K * V)) : gmap K V :=
  foldl (λ m kv, <[kv.1 := kv.2]> m) ∅ pairs.

(** [SELECT MIN(date)]: [None] (NULL) on an empty table. *)
Definition sql_min (dates : list date) : option date :=
  foldr (λ d acc,
           match acc with
           | None => Some d
           | Some m => Some (if stamp_leb (Stamp d 0) (Stamp m 0) then d else m)
           end) None dates.

Definition sql_max (dates : list date) : option date :=
  foldr (λ d acc,
           match acc with
           | None => Some d
           | Some m => Some (if stamp_leb (Stamp d 0) (Stamp m 0) then m else d)
           end) None dates.

(** [dim_date] is given by its rows [(date_key, date)]. A [datetime.date] is
    always true, so [if min_date and max_date] tests that both exist. *)
Definition validate_date_keys (dim_date : list (Z * date)) (cache : DimensionCache)
  : exn + unit :=
  match sql_min (dim_date.*2), sql_max (dim_date.*2) with
  | Some min_date, Some max_date =>
      let db_dates := py_dict dim_date in
      if decide (size db_dates ≠ size (date_cache cache)) then inl ValueError
      else inr ()
  | _, _ => inr ()
  end.

(** [dim_product] is given by its rows [(product_key, item_number)];
    [db_count] is [COUNT( * )]. *)
Definition validate_product_cache (dim_product : list (Z * Z)) (cache : DimensionCache)
  : exn + unit :=
  let db_count := length dim_product in
  if decide (size (product_cache cache) ≠ db_count) then inl ValueError
  else inr ().

(** Lines 789-790 of [main]. *)
Definition validate_caches (dim_date : list (Z * date)) (dim_product : list (Z * Z))
    (cache : DimensionCache) : exn + unit :=
  _ ← validate_date_keys dim_date cache;
  validate_product_cache dim_product cache.

(** ** Checkpoints (lines 662-702) *)

(** What a file of the checkpoint directory holds: the pickle of the
    tracker that was dumped, or something that [pickle.load] refuses. *)
Inductive file := Pickle (tracker : gset InvoiceKey) | Unreadable.

(** [pickle.load] of the pickle of [saved], as a membership set. A key with a
    year comes back equal to itself. A key without year holds the object
    [np.nan], which is dumped by value and comes back as a new [nan]: the
    loaded dict has an entry for it, but a [nan] equals nothing, not even
    another [nan], and Python finds a key by identity or equality, so no key
    that the program forms afterwards, with [np.nan] for the year, is found
    in that entry. For every test [key in GLOBAL_INVOICE_TRACKER] the loaded
    dict is the set of the saved keys that have a year. *)
Definition pickle_load (saved : gset InvoiceKey) : gset InvoiceKey :=
  filter (λ k, is_Some k.2) saved.

(** A directory in the order [os.listdir] gives its entries; [None] is a
    directory that does not exist. *)
Abbreviation directory := (list (string * file)).

Fixpoint write_file (name : string) (f : file) (dir : directory) : directory :=
  match dir with
  | [] => [(name, f)]
  | (n, g) :: dir' =>
      if String.eqb n name then (n, f) :: dir' else (n, g) :: write_file name f dir'
  end.

Fixpoint read_file (name : string) (dir : directory) : option file :=
  match dir with
  | [] => None
  | (n, g) :: dir' => if String.eqb n name then Some g else read_file name dir'
  end.

(** [f'invoice_tracker_{int(time.time())}.pkl'] *)
Definition checkpoint_name (now : Z) : string :=
  "invoice_tracker_" +:+ pretty now +:+ ".pkl".

(** [save_tracker_checkpoint()], for a write that succeeds; [now] is
    [int(time.time())]. *)
Definition save_tracker_checkpoint (now : Z) (GLOBAL_INVOICE_TRACKER : gset InvoiceKey)
    (checkpoint_dir : option directory) : option directory :=
  Some (write_file (checkpoint_name now) (Pickle GLOBAL_INVOICE_TRACKER)
          (default [] checkpoint_dir)).

(** [int(f.split('_')[2].split('.')[0])] *)
Definition checkpoint_id (f : string) : exn + Z :=
  match Py.split "_" f !! 2%nat with
  | Some part =>
      match Py.split "." part !! 0%nat with
      | Some digits =>
          match Py.int_of_str digits with
          | Some n => inr n
          | None => inl ValueError
          end
      | None => inl IndexError
      end
  | None => inl IndexError
  end.

(** [max(items, key=key)] after its first item: a later item replaces the
    best one only when its key is strictly greater. *)
Fixpoint max_by_key (key : string → exn + Z) (best : string) (best_key : Z)
    (items : list string) : exn + string :=
  match items with
  | [] => inr best
  | f :: items' =>
      match key f with
      | inr k =>
          if (best_key <? k)%Z then max_by_key key f k items'
          else max_by_key key best best_key items'
      | inl e => inl e
      end
  end.

Definition is_checkpoint_file (f : string) : bool :=
  Py.startswith "invoice_tracker_" f && Py.endswith ".pkl" f.

(** [load_tracker_checkpoint()]: the flag it returns and the tracker it
    leaves. The [int] of line 691 is outside the [try]. *)
Definition load_tracker_checkpoint (checkpoint_dir : option directory)
    (GLOBAL_INVOICE_TRACKER : gset InvoiceKey) : exn + bool * gset InvoiceKey :=
  match checkpoint_dir with
  | None => inr (false, GLOBAL_INVOICE_TRACKER)
  | Some dir =>
      match filter (λ f, is_checkpoint_file f = true) (dir.*1) with
      | [] => inr (false, GLOBAL_INVOICE_TRACKER)
      | f :: files =>
          first_key ← checkpoint_id f;
          latest_checkpoint ← max_by_key checkpoint_id f first_key files;
          match read_file latest_checkpoint dir with
          | Some (Pickle saved) => inr (true, pickle_load saved)
          | _ => inr (false, GLOBAL_INVOICE_TRACKER)
          end
      end
  end.

(** Lines 721-726 of [main]: the checkpoint if there is one, the fact table
    otherwise. *)
Definition seed_tracker (checkpoint_dir : option directory)
    (fact_sales : list (string * Z)) (GLOBAL_INVOICE_TRACKER : gset InvoiceKey)
  : exn + gset InvoiceKey :=
  '(checkpoint_loaded, tracker) ←
    load_tracker_checkpoint checkpoint_dir GLOBAL_INVOICE_TRACKER;
  if checkpoint_loaded : bool then inr tracker
  else inr (check_existing_invoices fact_sales tracker).

(** ** Predicates of the statements *)

(** [st'] is reached from [st] by running part of the loop: nothing is
    removed from the tracker or from the other accumulators, and the records
    appended have new, pairwise distinct keys, which are in the tracker
    afterwards. *)
Definition grows (st st' : loop_state) : Prop :=
  tracker st ⊆ tracker st' ∧
  chunk_seen_invoices st ⊆ chunk_seen_invoices st' ∧
  missing_stores st ⊆ missing_stores st' ∧
  missing_vendors st ⊆ missing_vendors st' ∧
  missing_products st ⊆ missing_products st' ∧
  (chunk_seen_invoices st ⊆ tracker st →
   chunk_seen_invoices st' ⊆ tracker st') ∧
  ∃ new, fact_records st' = fact_records st ++ new ∧
         NoDup (fact_key <$> new) ∧
         (∀ f, f ∈ new → (fact_key f ∉ tracker st) ∧ (fact_key f ∈ tracker st')).

(** The first row, in the order of processing, that is filed under [k]. *)
Definition first_with_key (k : InvoiceKey) (rows : list Row) : option Row :=
  find (λ r, bool_decide (row_key r = Some k)) rows.

(** The records with key [k] that a run over [rows] appends, starting from a
    tracker [tr]: the one of the first row filed under [k], if [k] is not
    tracked yet and that row passes the checks. *)
Definition expected_for_key (cache : DimensionCache) (tr : gset InvoiceKey)
    (k : InvoiceKey) (rows : list Row) : list FactRecord :=
  match first_with_key k rows with
  | Some r =>
      if decide (k ∈ tr) then []
      else match build_record cache r k.1 with
           | Accept f => [f]
           | _ => []
           end
  | None => []
  end.

(** Every checkpoint file of the directory was written by
    [save_tracker_checkpoint], no later than [now]. *)
Definition written_before (now : Z) (dir : directory) : Prop :=
  ∀ name, name ∈ dir.*1 → is_checkpoint_file name = true →
          ∃ t, 0 ≤ t ≤ now ∧ name = checkpoint_name t.

(** ** Sample data *)

Definition jan2 : date := mkDate 2020 1 2.
Definition jan3 : date := mkDate 2020 1 3.

Definition sample_cache : DimensionCache :=
  mkCache {[ jan2 := 11; jan3 := 12 ]} {[ 2633 := 1; 5000 := 0 ]}
          {[ 100 := 7 ]} {[ 260 := 3 ]}.

(** A row of store 2633, vendor 260 and item x100 with the given date,
    invoice identifier and number of bottles sold. *)
Definition sample_row (d : date) (inv : string) (bottles : Q) : Row :=
  mkRow (Stamp d 0) (Some inv) (Some "2633") (Some "260") (Some "x100")
        (Fin 5) (Fin 7) (Fin bottles) (Fin 21) (Fin 2) (Fin 1).

Definition sample_fact (dk : Z) (inv : string) (bottles : Z) : FactRecord :=
  mkFact dk 2020 1 7 3 inv (Fin 5) (Fin 7) bottles (Fin 21) (Fin 2) (Fin 1).


Definition sample_product (volume : num) : ProductRow :=
  mkProductRow (Number (Fin 101)) "Vodka" (Fin 1031100) (Some "VODKA") (Fin 12) volume.

(** ** [parse_point] (lines 51-61) *)

(** The class [[-\d.]] of the pattern; below U+0100 the decimal digits are
    [0] to [9]. *)
Definition is_coord_char (c : ascii) : bool :=
  Ascii.eqb c "-" || Py.is_digit c || Ascii.eqb c ".".

(** The longest run of coordinate characters at the head of [s], and what
    follows it. The two groups of the pattern are greedy, and the character
    that must follow each of them is not in the class, so a match takes the
    longest run or fails. *)
Fixpoint span_coord (s : string) : string * string :=
  match s with
  | String c s' =>
      if is_coord_char c
      then let '(run, rest) := span_coord s' in (String c run, rest)
      else (EmptyString, s)
  | EmptyString => (EmptyString, EmptyString)
  end.

(** [s] without the prefix [p], if it starts with [p]. *)
Fixpoint strip_prefix (p s : string) : option string :=
  match p, s with
  | EmptyString, _ => Some s
  | String a p', String b s' =>
      if Ascii.eqb a b then strip_prefix p' s' else None
  | String _ _, EmptyString => None
  end.

(** A match of [POINT \(([-\d.]+) ([-\d.]+)\)] that starts at the head of
    [s]: the two groups. *)
Definition match_point_at (s : string) : option (string * string) :=
  match strip_prefix "POINT (" s with
  | Some after =>
      match span_coord after with
      | (String c lon', String " " after_lon) =>
          match span_coord after_lon with
          | (String d lat', String ")" _) =>
              Some (String c lon', String d lat')
          | _ => None
          end
      | _ => None
      end
  | None => None
  end.

(** [re.search]: the match at the leftmost position that has one. *)
Fixpoint search_point (s : string) : option (string * string) :=
  match match_point_at s with
  | Some groups => Some groups
  | None =>
      match s with
      | String _ s' => search_point s'
      | EmptyString => None
      end
  end.

(** The cell is a string or missing. *)
Definition parse_point (point_str : option string) : option string :=
  match point_str with
  | None => None
  | Some s =>
      match search_point s with
      | Some (lon, lat) => Some ("SRID=4326;POINT(" +:+ lon +:+ " " +:+ lat +:+ ")")
      | None => None
      end
  end.

(** ** Frames *)

(** [df.drop_duplicates(subset)], which keeps the first row of each value of
    the subset; [seen] holds the values met so far. *)
Fixpoint drop_duplicates_from `{Countable K} {A} (key : A → K) (seen : gset K)
    (rows : list A) : list A :=
  match rows with
  | [] => []
  | row :: rows' =>
      if decide (key row ∈ seen) then drop_duplicates_from key seen rows'
      else row :: drop_duplicates_from key ({[ key row ]} ∪ seen) rows'
  end.

Definition drop_duplicates `{Countable K} {A} (key : A → K) (rows : list A) : list A :=
  drop_duplicates_from key ∅ rows.

(** [d[k] = v] on a dict that keeps the order in which its keys were first
    inserted. *)
Fixpoint dict_set {K V} `{EqDecision K} (k : K) (v : V) (d : list (K * V))
  : list (K * V) :=
  match d with
  | [] => [(k, v)]
  | (k', v') :: d' =>
      if decide (k' = k) then (k', v) :: d' else (k', v') :: dict_set k v d'
  end.

(** ** [load_fact_records_batch] (lines 592-648) and the batches of [main] *)

(** The columns of [numeric_cols] that can hold NaN; [bottles_sold] is the
    result of [int(...)]. [pd.to_numeric] leaves numeric columns as they
    are. *)
Definition numeric_cols (f : FactRecord) : list num :=
  [ state_bottle_cost f; state_bottle_retail f; sale_dollars f;
    volume_sold_liters f; volume_sold_gallons f ].

(** The rows that [load_fact_records_batch] hands to [COPY] (lines 601-618):
    [dropna] on the numeric columns, then [drop_duplicates] on
    [invoice_item_number] and [year]. An empty result copies nothing. *)
Definition load_fact_records_batch (records : list FactRecord) : list FactRecord :=
  drop_duplicates fact_key
    (filter (λ f, existsb isna (numeric_cols f) = false) records).

(** [[l[i:i + n] for i in range(0, len(l), n)]], for a positive [n]; there
    are at most [len(l)] slices. *)
Fixpoint slices_go {A} (fuel n : nat) (l : list A) : list (list A) :=
  match fuel with
  | O => []
  | S fuel' =>
      match l with
      | [] => []
      | _ :: _ => take n l :: slices_go fuel' n (drop n l)
      end
  end.

Definition slices {A} (n : nat) (l : list A) : list (list A) :=
  slices_go (length l) n l.

(** Line 826. *)
Definition batch_size : nat := Z.to_nat 50000.

(** Lines 824-831 of [main]: the batches submitted for one chunk. *)
Definition fact_batches (fact_records : list FactRecord) : list (list FactRecord) :=
  slices batch_size fact_records.

(** ** The dimension caches of [main] (lines 765-786)

    A dimension table is given by its rows (surrogate key, natural key), in
    the order [fetchall] returns them; each row sets
    [cache[natural_key] = surrogate_key]. *)

Definition cache_of `{Countable K} (rows : list (Z * K)) : gmap K Z :=
  foldl (λ cache row, <[row.2 := row.1]> cache) ∅ rows.

Definition load_caches (dim_date : list (Z * date))
    (dim_product dim_store dim_vendor : list (Z * Z)) : DimensionCache :=
  {| date_cache := cache_of dim_date;
     product_cache := cache_of dim_product;
     store_cache := cache_of dim_store;
     vendor_cache := cache_of dim_vendor |}.

(** ** [collect_all_products] (lines 261-292) and [process_stores]
    (lines 188-228) *)

(** [str(cell)] of a text cell: a missing cell is the float [nan]. *)
Definition str_cell (c : option string) : string := default "nan" c.

Record StoreRow := mkStoreRow {
  S_Store_Number : option string;
  S_Store_Name : option string;
  S_Address : option string;
  S_City : option string;
  S_Zip_Code : option string;
  S_County : option string;
  S_County_Number : option string;
  S_Store_Location : option string
}.

(** The tuple appended to [store_records]. *)
Record StoreRecord := mkStore {
  store_number : Z;
  store_name : string;
  address : string;
  city : string;
  zip_code : option string;
  county : string;
  county_number : option Z;
  location_geom : option string
}.

Section DimensionPasses.

(** [float(s)] for a string [s]; [None] is its [ValueError]. *)
Variable float_of_str : string → option num.

(** [int(float(s))] *)
Definition int_float_str (s : string) : exn + Z :=
  match float_of_str s with
  | Some v => int_of_num v
  | None => inl ValueError
  end.

(** Lines 279-285: the key a row is stored under. [None] is a missing item
    number, which is passed over. *)
Definition collected_key (row : ProductRow) : option (exn + Z) :=
  match P_Item_Number row with
  | Number v => if notna v then Some (int_of_num v) else None
  | Text s =>
      Some (int_float_str
              (match s with
               | String c t => if Ascii.eqb c "x" then t else s
               | EmptyString => s
               end))
  end.

(** [row] is the last of [rows] that is stored under [k]. *)
Definition last_collected (rows : list ProductRow) (k : Z) (row : ProductRow) : Prop :=
  ∃ before after,
    rows = before ++ row :: after ∧ collected_key row = Some (inr k) ∧
    ∀ r, r ∈ after → collected_key r ≠ Some (inr k).

(** The loop of lines 277-289 over the rows of all chunks, in order. *)
Fixpoint collect_rows (rows : list ProductRow) (products_dict : list (Z * ProductRow))
  : exn + list (Z * ProductRow) :=
  match rows with
  | [] => inr products_dict
  | row :: rows' =>
      match collected_key row with
      | None => collect_rows rows' products_dict
      | Some (inr item_number) =>
          collect_rows rows' (dict_set item_number row products_dict)
      | Some (inl e) =>
          if caught_by_row_handler e then collect_rows rows' products_dict
          else inl e
      end
  end.

(** [collect_all_products]: the rows of [products_dict.values()]. *)
Definition collect_all_products (chunks : list (list ProductRow))
  : exn + list ProductRow :=
  (λ d, d.*2) <$> collect_rows (concat chunks) [].

(** Lines 198-228: what the body of the loop does with one store. *)
Definition store_record (row : StoreRow) : exn + option StoreRecord :=
  let location_geom := parse_point (S_Store_Location row) in
  let zip_code := Py.strip <$> S_Zip_Code row in
  county_number ←
    match S_County_Number row with
    | None => inr None
    | Some s =>
        match int_float_str s with
        | inr n => inr (Some n)
        | inl e => if caught_by_row_handler e then inr None else inl e
        end
    end;
  match int_float_str (Py.strip (str_cell (S_Store_Number row))) with
  | inr store_number =>
      if 0 <? store_number then
        inr (Some {| store_number := store_number;
                     store_name := Py.strip (str_cell (S_Store_Name row));
                     address := Py.strip (str_cell (S_Address row));
                     city := Py.strip (str_cell (S_City row));
                     zip_code := zip_code;
                     county := Py.strip (str_cell (S_County row));
                     county_number := county_number;
                     location_geom := location_geom |})
      else inr None
  | inl e => if caught_by_row_handler e then inr None else inl e
  end.

Fixpoint store_records (rows : list StoreRow) : exn + list StoreRecord :=
  match rows with
  | [] => inr []
  | row :: rows' =>
      r ← store_record row;
      records ← store_records rows';
      inr (match r with Some rec => rec :: records | None => records end)
  end.

(** [process_stores(df, conn)] up to the records it hands to the upsert. *)
Definition process_stores (df : list StoreRow) : exn + list StoreRecord :=
  store_records (drop_duplicates S_Store_Number df).

End DimensionPasses.

(** ** More sample data *)

Definition sample_store (number name : string) : StoreRow :=
  mkStoreRow (Some number) (Some name) (Some "1 Main St") (Some "Ames")
             (Some "50010") (Some "Story") (Some "85")
             (Some "POINT (-93.6 42.0)").

(** A reader of the decimal numerals without sign or fraction, enough to run
    the dimension passes on the sample rows. *)
Definition sample_float (s : string) : option num :=
  (λ n, Fin (inject_Z n)) <$> Py.int_unsigned s.

(** A row like [sample_row] whose [Bottles Sold] cell is [inf]. *)
Definition infinite_row (d : date) (inv : string) : Row :=
  mkRow (Stamp d 0) (Some inv) (Some "2633") (Some "260") (Some "x100")
        (Fin 5) (Fin 7) PosInf (Fin 21) (Fin 2) (Fin 1).

(** * Properties *)

(** ** Strings and [safe_convert_to_int] *)

Example safe_convert_plain : safe_convert_to_int (Some " 2633 ") = Some 2633.
Proof. reflexivity. Qed.

Example safe_convert_signed : safe_convert_to_int (Some "x-5") = Some (-5).
Proof. reflexivity. Qed.

Example safe_convert_underscore : safe_convert_to_int (Some "1_000") = Some 1000.
Proof. reflexivity. Qed.

Example safe_convert_decimal_point : safe_convert_to_int (Some "2633.0") = None.
Proof. reflexivity. Qed.

Example safe_convert_two_prefixes : safe_convert_to_int (Some "xx12") = None.
Proof. reflexivity. Qed.

Ltac each_char c := destruct c as [[] [] [] [] [] [] [] []].

Lemma digit_not_space c : Py.is_digit c = true → Py.is_space c = false.
Proof. each_char c; done. Qed.

Lemma digit_not_int_space c : Py.is_digit c = true → Py.is_int_space c = false.
Proof. each_char c; done. Qed.

Lemma int_space_is_space c : Py.is_int_space c = true → Py.is_space c = true.
Proof. each_char c; done. Qed.

Lemma digit_lower c : Py.is_digit c = true → Py.lower_char c = c.
Proof. each_char c; done. Qed.

Lemma pretty_char_digit d :
  (d < 10)%N → Py.digit_val (pretty_N_char d) = Some (Z.of_N d).
Proof.
  intros Hd.
  assert (d = 0 ∨ d = 1 ∨ d = 2 ∨ d = 3 ∨ d = 4 ∨ d = 5 ∨ d = 6 ∨ d = 7
          ∨ d = 8 ∨ d = 9)%N as Hcases by lia.
  repeat destruct Hcases as [->|Hcases]; try reflexivity. by subst.
Qed.

Lemma append_assoc (a b c : string) : (a +:+ b) +:+ c = a +:+ (b +:+ c).
Proof.
  induction a as [|x a IH]; [done|].
  change ((String x a +:+ b) +:+ c) with (String x ((a +:+ b) +:+ c)).
  by rewrite IH.
Qed.

Lemma append_empty_r (a : string) : a +:+ "" = a.
Proof.
  induction a as [|x a IH]; [done|].
  change (String x a +:+ "") with (String x (a +:+ "")). by rewrite IH.
Qed.

Lemma all_chars_app P a b :
  Py.all_chars P (a +:+ b) = Py.all_chars P a && Py.all_chars P b.
Proof.
  induction a as [|x a IH]; [done|]. simpl. by rewrite IH, andb_assoc.
Qed.

Lemma all_chars_impl (P Q : ascii → bool) s :
  (∀ c, P c = true → Q c = true) →
  Py.all_chars P s = true → Py.all_chars Q s = true.
Proof.
  intros HPQ. induction s as [|c s IH]; [done|]. simpl.
  intros [Hc Hs]%andb_true_iff. by rewrite (HPQ c Hc), IH.
Qed.

(** *** Stripping a class of characters *)

Section StripBy.

Variable space : ascii → bool.

Lemma lstrip_by_head c s :
  space c = false → Py.lstrip_by space (String c s) = String c s.
Proof. intros H. simpl. by rewrite H. Qed.

Lemma rstrip_by_head c s :
  space c = false →
  Py.rstrip_by space (String c s) = String c (Py.rstrip_by space s).
Proof. intros H. simpl. rewrite H. by destruct (Py.rstrip_by space s). Qed.

Lemma rstrip_by_spaces ws :
  Py.all_chars space ws = true → Py.rstrip_by space ws = "".
Proof.
  induction ws as [|c ws IH]; simpl; [done|].
  intros [Hc Hs]%andb_true_iff. by rewrite IH, Hc.
Qed.

Lemma rstrip_by_app_spaces s ws :
  Py.all_chars space ws = true →
  Py.rstrip_by space (s +:+ ws) = Py.rstrip_by space s.
Proof.
  intros Hws. induction s as [|c s IH]; simpl; [by apply rstrip_by_spaces|].
  by rewrite IH.
Qed.

Lemma strip_by_spaces_app ws t :
  Py.all_chars space ws = true →
  Py.lstrip_by space (Py.rstrip_by space (ws +:+ t))
  = Py.lstrip_by space (Py.rstrip_by space t).
Proof.
  induction ws as [|c ws IH]; [done|].
  intros Hall. simpl in Hall. apply andb_true_iff in Hall as [Hc Hs].
  specialize (IH Hs). simpl.
  destruct (Py.rstrip_by space (ws +:+ t)) as [|a r]; rewrite ?Hc; simpl;
    rewrite ?Hc; exact IH.
Qed.

Lemma rstrip_by_clean s :
  Py.all_chars (λ c, negb (space c)) s = true → Py.rstrip_by space s = s.
Proof.
  induction s as [|c s IH]; [done|]. simpl Py.all_chars.
  intros [Hc Hs]%andb_true_iff. apply negb_true_iff in Hc.
  rewrite rstrip_by_head by done. by rewrite IH.
Qed.

Lemma rstrip_by_app_keep a b :
  Py.rstrip_by space b ≠ "" →
  Py.rstrip_by space (a +:+ b) = a +:+ Py.rstrip_by space b.
Proof.
  intros Hb. induction a as [|c a IH]; [done|].
  change (String c a +:+ b) with (String c (a +:+ b)).
  change (Py.rstrip_by space (String c (a +:+ b)))
    with (match Py.rstrip_by space (a +:+ b) with
          | EmptyString => if space c then EmptyString else String c EmptyString
          | r => String c r
          end).
  change (String c a +:+ Py.rstrip_by space b)
    with (String c (a +:+ Py.rstrip_by space b)).
  rewrite IH.
  destruct (a +:+ Py.rstrip_by space b) as [|x r] eqn:Hab; [|done].
  destruct a; [done|discriminate].
Qed.

Lemma lstrip_by_split s :
  ∃ ws, Py.all_chars space ws = true ∧ s = ws +:+ Py.lstrip_by space s.
Proof.
  induction s as [|c s (ws & Hws & IH)]; [by exists ""|]. simpl.
  destruct (space c) eqn:Hc; [|by exists ""].
  exists (String c ws). split; [simpl; by rewrite Hc|].
  change (String c ws +:+ Py.lstrip_by space s)
    with (String c (ws +:+ Py.lstrip_by space s)).
  by rewrite <- IH.
Qed.

Lemma rstrip_by_split s :
  ∃ ws, Py.all_chars space ws = true ∧ s = Py.rstrip_by space s +:+ ws.
Proof.
  induction s as [|c s (ws & Hws & IH)]; [by exists ""|]. simpl.
  destruct (Py.rstrip_by space s) as [|a r] eqn:Hr.
  - simpl in IH. subst s. destruct (space c) eqn:Hc.
    + exists (String c ws). split; [simpl; by rewrite Hc|done].
    + by exists ws.
  - exists ws. split; [done|].
    change (String c (String a r) +:+ ws) with (String c (String a r +:+ ws)).
    by rewrite <- IH.
Qed.

Lemma strip_by_split s :
  ∃ ws1 ws2,
    Py.all_chars space ws1 = true ∧ Py.all_chars space ws2 = true ∧
    s = ws1 +:+ Py.lstrip_by space (Py.rstrip_by space s) +:+ ws2.
Proof.
  destruct (rstrip_by_split s) as (ws2 & Hws2 & Hs).
  destruct (lstrip_by_split (Py.rstrip_by space s)) as (ws1 & Hws1 & Hr).
  exists ws1, ws2. split_and!; [done..|].
  rewrite <- append_assoc, <- Hr. exact Hs.
Qed.

(** A text without a character of the class at either end is what is left
    of it with such characters around. *)
Lemma strip_by_exact ws1 t ws2 :
  Py.all_chars space ws1 = true → Py.all_chars space ws2 = true →
  Py.lstrip_by space t = t → Py.rstrip_by space t = t →
  Py.lstrip_by space (Py.rstrip_by space (ws1 +:+ t +:+ ws2)) = t.
Proof.
  intros H1 H2 Hl Hr.
  rewrite strip_by_spaces_app, rstrip_by_app_spaces by done.
  by rewrite Hr.
Qed.

End StripBy.

Lemma lstrip_head c s : Py.is_space c = false → Py.lstrip (String c s) = String c s.
Proof. apply lstrip_by_head. Qed.

Lemma rstrip_head c s :
  Py.is_space c = false → Py.rstrip (String c s) = String c (Py.rstrip s).
Proof. apply rstrip_by_head. Qed.

Lemma strip_head c s :
  Py.is_space c = false → Py.strip (String c s) = String c (Py.rstrip s).
Proof.
  intros H. unfold Py.strip. rewrite rstrip_head by done. by apply lstrip_head.
Qed.

Lemma rstrip_digits s : Py.all_chars Py.is_digit s = true → Py.rstrip s = s.
Proof.
  intros H. apply rstrip_by_clean.
  eapply all_chars_impl; [|exact H]. intros c Hc.
  by rewrite digit_not_space.
Qed.

Lemma strip_digits s : Py.all_chars Py.is_digit s = true → Py.strip s = s.
Proof.
  intros H. unfold Py.strip. rewrite rstrip_digits by done.
  destruct s as [|c s]; [done|]. simpl in H.
  apply andb_true_iff in H as [Hc _]. apply lstrip_head. by apply digit_not_space.
Qed.

Lemma int_strip_digits s :
  Py.all_chars Py.is_digit s = true → Py.int_strip s = s.
Proof.
  intros H. unfold Py.int_strip. rewrite rstrip_by_clean.
  - destruct s as [|c s]; [done|]. simpl in H.
    apply andb_true_iff in H as [Hc _]. apply lstrip_by_head.
    by apply digit_not_int_space.
  - eapply all_chars_impl; [|exact H]. intros c Hc.
    by rewrite digit_not_int_space.
Qed.

Lemma rstrip_spaces ws :
  Py.all_chars Py.is_space ws = true → Py.rstrip ws = "".
Proof. apply rstrip_by_spaces. Qed.

Lemma rstrip_app_spaces s ws :
  Py.all_chars Py.is_space ws = true → Py.rstrip (s +:+ ws) = Py.rstrip s.
Proof. apply rstrip_by_app_spaces. Qed.

Lemma strip_spaces_app ws t :
  Py.all_chars Py.is_space ws = true → Py.strip (ws +:+ t) = Py.strip t.
Proof. apply strip_by_spaces_app. Qed.

Lemma lower_digits s : Py.all_chars Py.is_digit s = true → Py.lower s = s.
Proof.
  induction s as [|c s IH]; [done|]. simpl.
  intros [Hc Hs]%andb_true_iff. by rewrite digit_lower, IH.
Qed.

Lemma pretty_go_digits x s :
  Py.all_chars Py.is_digit s = true →
  Py.all_chars Py.is_digit (pretty_N_go x s) = true.
Proof.
  revert s. induction (N.lt_wf_0 x) as [x _ IH]; intros s Hs.
  destruct (decide (x = 0)%N) as [->|Hx]; [by rewrite pretty_N_go_0|].
  rewrite pretty_N_go_step by lia. apply IH.
  - apply N.div_lt; lia.
  - simpl. rewrite Hs, andb_true_r. unfold Py.is_digit.
    rewrite pretty_char_digit; [done|]. apply N.mod_lt. lia.
Qed.

Lemma pretty_digits (n : N) : Py.all_chars Py.is_digit (pretty n) = true.
Proof.
  unfold pretty, pretty_N. case_decide; [done|]. by apply pretty_go_digits.
Qed.

(** Reading back the digits that [pretty_N_go] writes in front of [s]. *)
Lemma int_digits_pretty_go x s :
  (0 < x)%N →
  ∃ k : nat, (0 < k)%nat ∧ 10 ^ (Z.of_nat k - 1) ≤ Z.of_N x ∧
    ∀ acc cnt prev,
      Py.int_digits (pretty_N_go x s) acc cnt prev
      = Py.int_digits s (acc * 10 ^ Z.of_nat k + Z.of_N x) (cnt + k) true.
Proof.
  revert s. induction (N.lt_wf_0 x) as [x _ IH]; intros s Hx.
  rewrite pretty_N_go_step by done.
  destruct (decide (x < 10)%N) as [Hsmall|Hbig].
  - rewrite N.div_small, pretty_N_go_0, N.mod_small by done.
    exists 1%nat. split; [lia|]. split; [simpl; lia|].
    intros acc cnt prev. simpl Py.int_digits.
    rewrite pretty_char_digit by done.
    replace (cnt + 1)%nat with (S cnt) by lia. f_equal. lia.
  - assert (0 < x `div` 10)%N as Hq by (apply N.div_str_pos; lia).
    destruct (IH (x `div` 10)%N (N.div_lt x 10 Hx eq_refl)
                (String (pretty_N_char (x `mod` 10)) s) Hq)
      as (k & Hk & Hlow & Hread).
    exists (S k). split; [lia|]. split.
    + replace (Z.of_nat (S k) - 1) with (Z.succ (Z.of_nat k - 1)) by lia.
      rewrite Z.pow_succ_r by lia.
      pose proof (N.div_mod x 10). rewrite N2Z.inj_div in Hlow.
      pose proof (Z.mul_div_le (Z.of_N x) 10). simpl in *. lia.
    + intros acc cnt prev. rewrite Hread. simpl Py.int_digits.
      rewrite pretty_char_digit by (apply N.mod_lt; lia).
      replace (cnt + S k)%nat with (S (cnt + k)) by lia. f_equal.
      rewrite Nat2Z.inj_succ, Z.pow_succ_r by lia.
      rewrite N2Z.inj_div, N2Z.inj_mod.
      pose proof (Z.div_mod (Z.of_N x) 10). simpl in *. lia.
Qed.

Lemma int_unsigned_pretty (n : N) :
  Z.of_N n < 10 ^ Z.of_nat Py.int_max_str_digits →
  Py.int_unsigned (pretty n) = Some (Z.of_N n).
Proof.
  intros Hn. unfold pretty, pretty_N. case_decide as H0; [by subst|].
  destruct (int_digits_pretty_go n "") as (k & Hk & Hlow & Hread); [lia|].
  unfold Py.int_unsigned. rewrite Hread. simpl Py.int_digits.
  assert (k ≤ Py.int_max_str_digits)%nat as Hle.
  { destruct (decide (k ≤ Py.int_max_str_digits)%nat) as [|Hgt]; [done|].
    exfalso.
    assert (10 ^ Z.of_nat Py.int_max_str_digits ≤ 10 ^ (Z.of_nat k - 1)); [|lia].
    apply Z.pow_le_mono_r; lia. }
  apply Nat.leb_le in Hle. cbv beta iota. rewrite Hle. f_equal; lia.
Qed.

(** [int] by the first character of what is left of the text. *)
Lemma int_of_str_cases s :
  Py.int_of_str s
  = match Py.int_strip s with
    | String c r =>
        if Ascii.eqb c "+" then Py.int_unsigned r
        else if Ascii.eqb c "-" then Z.opp <$> Py.int_unsigned r
        else Py.int_unsigned (String c r)
    | EmptyString => Py.int_unsigned EmptyString
    end.
Proof.
  unfold Py.int_of_str. destruct (Py.int_strip s) as [|c r]; [done|].
  each_char c; reflexivity.
Qed.

Lemma int_of_str_digit_head c s :
  Py.is_digit c = true → Py.int_strip (String c s) = String c s →
  Py.int_of_str (String c s) = Py.int_unsigned (String c s).
Proof.
  intros Hc Hs. rewrite int_of_str_cases, Hs. clear Hs. each_char c; done.
Qed.

(** [int(str(n))] is [n], for a numeral within the digit limit. *)
Lemma int_of_str_pretty (n : N) :
  Z.of_N n < 10 ^ Z.of_nat Py.int_max_str_digits →
  Py.int_of_str (pretty n) = Some (Z.of_N n).
Proof.
  intros Hn. pose proof (pretty_digits n) as Hd.
  pose proof (int_strip_digits _ Hd) as Hs.
  rewrite <- (int_unsigned_pretty n Hn).
  destruct (pretty n) as [|c s] eqn:Hp.
  { unfold pretty, pretty_N in Hp. case_decide; [done|].
    destruct (int_digits_pretty_go n "") as (k & _ & _ & Hread); [lia|].
    specialize (Hread 0 0%nat false). rewrite Hp in Hread. done. }
  simpl in Hd. apply andb_true_iff in Hd as [Hc _].
  by apply int_of_str_digit_head.
Qed.

Lemma int_of_str_signed (n : N) c :
  c = "-"%char ∨ c = "+"%char →
  Z.of_N n < 10 ^ Z.of_nat Py.int_max_str_digits →
  Py.int_of_str (String c (pretty n))
  = Some (if Ascii.eqb c "-" then - Z.of_N n else Z.of_N n).
Proof.
  intros Hc Hn. pose proof (pretty_digits n) as Hd.
  rewrite int_of_str_cases. unfold Py.int_strip.
  rewrite rstrip_by_head by (by destruct Hc as [->| ->]).
  rewrite lstrip_by_head by (by destruct Hc as [->| ->]).
  rewrite rstrip_by_clean.
  2:{ eapply all_chars_impl; [|exact Hd]. intros a Ha.
      by rewrite digit_not_int_space. }
  destruct Hc as [->| ->]; cbv beta iota; simpl Ascii.eqb; cbv beta iota;
    by rewrite int_unsigned_pretty.
Qed.

Lemma startswith_x s : Py.startswith "x" (String "x" s) = true.
Proof.
  unfold Py.startswith.
  change (String.prefix "x" (String "x" s)) with (String.prefix "" s).
  by destruct s.
Qed.

Lemma startswith_other c s :
  Ascii.eqb c "x" = false → Py.startswith "x" (String c s) = false.
Proof.
  intros Hc. unfold Py.startswith.
  change (String.prefix "x" (String c s))
    with (if ascii_dec "x" c then String.prefix "" s else false).
  destruct (ascii_dec "x" c) as [<-|]; [by rewrite Ascii.eqb_refl in Hc|done].
Qed.

Lemma startswith_digits s :
  Py.all_chars Py.is_digit s = true → Py.startswith "x" s = false.
Proof.
  destruct s as [|c s]; [done|]. simpl.
  intros [Hc _]%andb_true_iff. apply startswith_other.
  clear -Hc. each_char c; done.
Qed.

Lemma lowered_prefix_char c :
  Py.is_space c = false → Py.is_digit c = false →
  c ≠ "x"%char → c ≠ "X"%char → c ≠ "+"%char → c ≠ "-"%char →
  Py.is_space (Py.lower_char c) = false ∧
  Py.digit_val (Py.lower_char c) = None ∧
  Ascii.eqb (Py.lower_char c) "x" = false ∧
  Ascii.eqb (Py.lower_char c) "+" = false ∧
  Ascii.eqb (Py.lower_char c) "-" = false.
Proof. intros. each_char c; done. Qed.

Lemma int_of_str_bad_head c s :
  Py.is_space c = false → Py.digit_val c = None →
  Ascii.eqb c "+" = false → Ascii.eqb c "-" = false →
  Py.int_of_str (String c s) = None.
Proof.
  intros Hsp Hd Hplus Hminus. rewrite int_of_str_cases. unfold Py.int_strip.
  assert (Py.is_int_space c = false) as Hisp.
  { destruct (Py.is_int_space c) eqn:E; [|done].
    apply int_space_is_space in E. congruence. }
  rewrite rstrip_by_head, lstrip_by_head by done.
  rewrite Hplus, Hminus. unfold Py.int_unsigned. simpl Py.int_digits.
  rewrite Hd. by destruct (Ascii.eqb c "_").
Qed.

(** *** Numerals and what [int] reads *)

Lemma numeral_head s ds :
  numeral s ds → ∃ c r, s = String c r ∧ Py.is_digit c = true.
Proof.
  intros [c d Hd|c d s' ds' Hd _|c d s' ds' Hd _]; eexists _, _;
    (split; [done|]); unfold Py.is_digit; by rewrite Hd.
Qed.

Lemma numeral_chars s ds :
  numeral s ds →
  Py.all_chars (λ c, Py.is_digit c || Ascii.eqb c "_") s = true.
Proof.
  induction 1 as [c d Hd|c d s ds Hd _ IH|c d s ds Hd _ IH]; simpl;
    unfold Py.is_digit; rewrite Hd; simpl; done.
Qed.

Lemma int_digits_numeral s ds :
  numeral s ds →
  ∀ acc cnt prev,
    Py.int_digits s acc cnt prev
    = Some (foldl (λ a d, 10 * a + d) acc ds, (cnt + length ds)%nat).
Proof.
  induction 1 as [c d Hd|c d s ds Hd _ IH|c d s ds Hd _ IH];
    intros acc cnt prev; simpl Py.int_digits; rewrite Hd.
  - simpl. do 2 f_equal. lia.
  - rewrite IH. simpl. do 2 f_equal. lia.
  - change (Py.digit_val "_") with (@None Z). cbv beta iota.
    change (Ascii.eqb "_" "_" && true) with true. cbv beta iota.
    rewrite IH. simpl. do 2 f_equal. lia.
Qed.

Lemma int_digits_inv s :
  ∀ acc cnt v n,
    (Py.int_digits s acc cnt false = Some (v, n) →
     ∃ ds, numeral s ds ∧ v = foldl (λ a d, 10 * a + d) acc ds ∧
           n = (cnt + length ds)%nat) ∧
    (Py.int_digits s acc cnt true = Some (v, n) →
     (s = "" ∧ v = acc ∧ n = cnt) ∨
     (∃ ds, numeral s ds ∧ v = foldl (λ a d, 10 * a + d) acc ds ∧
            n = (cnt + length ds)%nat) ∨
     (∃ s' ds, s = String "_" s' ∧ numeral s' ds ∧
               v = foldl (λ a d, 10 * a + d) acc ds ∧
               n = (cnt + length ds)%nat)).
Proof.
  induction s as [|a s IH]; intros acc cnt v n.
  { split; simpl; [done|]. intros [= <- <-]. by left. }
  simpl Py.int_digits. destruct (Py.digit_val a) as [d|] eqn:Hd.
  - assert (Py.int_digits s (10 * acc + d) (S cnt) true = Some (v, n) →
            ∃ ds, numeral (String a s) ds ∧
                  v = foldl (λ a d, 10 * a + d) acc ds ∧
                  n = (cnt + length ds)%nat) as Hgo.
    { intros Hrun.
      apply (proj2 (IH _ _ _ _)) in Hrun
        as [(-> & -> & ->)|[(ds & Hn & -> & ->)|(s' & ds & -> & Hn & -> & ->)]].
      - exists [d]. split; [by constructor|]. simpl. split; [done|lia].
      - exists (d :: ds). split; [by apply numeral_digit|].
        simpl. split; [done|lia].
      - exists (d :: ds). split; [by apply numeral_underscore|].
        simpl. split; [done|lia]. }
    split; [done|]. intros Hrun. right. left. by apply Hgo.
  - split; [by rewrite andb_false_r|].
    rewrite andb_true_r. destruct (Ascii.eqb a "_") eqn:Ha; [|done].
    apply Ascii.eqb_eq in Ha as ->. intros Hrun.
    apply (proj1 (IH _ _ _ _)) in Hrun as (ds & Hn & -> & ->).
    right. right. by exists s, ds.
Qed.

Lemma int_unsigned_spec s v :
  Py.int_unsigned s = Some v ↔
  ∃ ds, numeral s ds ∧ (length ds ≤ Py.int_max_str_digits)%nat ∧
        v = digits_value ds.
Proof.
  unfold Py.int_unsigned, digits_value. split.
  - destruct (Py.int_digits s 0 0 false) as [[v' n]|] eqn:Hrun; [|done].
    destruct (n <=? Py.int_max_str_digits)%nat eqn:Hle; [|done].
    intros [= <-].
    apply (proj1 (int_digits_inv _ _ _ _ _)) in Hrun as (ds & Hn & -> & ->).
    exists ds. apply Nat.leb_le in Hle. done.
  - intros (ds & Hn & Hle & ->). rewrite (int_digits_numeral s ds Hn).
    change (0 + length ds)%nat with (length ds).
    apply Nat.leb_le in Hle. cbv beta iota. by rewrite Hle.
Qed.

Lemma numeral_not_int_space s ds :
  numeral s ds →
  Py.all_chars (λ c, negb (Py.is_int_space c)) s = true.
Proof.
  intros Hn. eapply all_chars_impl; [|exact (numeral_chars s ds Hn)].
  intros c Hc. clear -Hc. each_char c; done.
Qed.

Lemma numeral_not_space s ds :
  numeral s ds → Py.all_chars (λ c, negb (Py.is_space c)) s = true.
Proof.
  intros Hn. eapply all_chars_impl; [|exact (numeral_chars s ds Hn)].
  intros c Hc. clear -Hc. each_char c; done.
Qed.

Lemma numeral_key_chars s ds :
  numeral s ds → Py.all_chars is_key_char s = true.
Proof.
  intros Hn. eapply all_chars_impl; [|exact (numeral_chars s ds Hn)].
  intros c Hc. clear -Hc. each_char c; done.
Qed.

(** A sign and a numeral: nothing to strip at either end, for both kinds of
    white space. *)
Lemma signed_numeral_clean (space : ascii → bool) sg body ds :
  (∀ c, Py.is_digit c || Ascii.eqb c "_" = true → space c = false) →
  space "+"%char = false → space "-"%char = false →
  sg = "" ∨ sg = "+" ∨ sg = "-" →
  numeral body ds →
  Py.lstrip_by space (sg +:+ body) = sg +:+ body ∧
  Py.rstrip_by space (sg +:+ body) = sg +:+ body ∧
  sg +:+ body ≠ "".
Proof.
  intros Hsp Hplus Hminus Hsg Hn.
  assert (Py.all_chars (λ c, negb (space c)) body = true) as Hbody.
  { eapply all_chars_impl; [|exact (numeral_chars body ds Hn)].
    intros c Hc. by rewrite (Hsp c Hc). }
  destruct (numeral_head body ds Hn) as (c & r & -> & Hc).
  assert (space c = false) as Hcs by (apply Hsp; by rewrite Hc).
  destruct Hsg as [->|[->| ->]].
  - change ("" +:+ String c r) with (String c r).
    split_and!; [by apply lstrip_by_head|by apply rstrip_by_clean|done].
  - change ("+" +:+ String c r) with (String "+" (String c r)).
    split_and!; [by apply lstrip_by_head| |done].
    rewrite rstrip_by_head by done. f_equal. by apply rstrip_by_clean.
  - change ("-" +:+ String c r) with (String "-" (String c r)).
    split_and!; [by apply lstrip_by_head| |done].
    rewrite rstrip_by_head by done. f_equal. by apply rstrip_by_clean.
Qed.

(** [int] accepts exactly a numeral of at most 4300 digits behind at most
    one sign, with white space around. *)
Lemma int_of_str_spec s n :
  Py.int_of_str s = Some n ↔
  ∃ ws1 sg body ws3 ds,
    s = ws1 +:+ sg +:+ body +:+ ws3 ∧
    Py.all_chars Py.is_int_space ws1 = true ∧
    Py.all_chars Py.is_int_space ws3 = true ∧
    numeral body ds ∧ (length ds ≤ Py.int_max_str_digits)%nat ∧
    (sg = "" ∧ n = digits_value ds ∨
     sg = "+" ∧ n = digits_value ds ∨
     sg = "-" ∧ n = - digits_value ds).
Proof.
  rewrite int_of_str_cases. split.
  - destruct (strip_by_split Py.is_int_space s) as (ws1 & ws3 & H1 & H3 & Hs).
    fold (Py.int_strip s) in Hs.
    destruct (Py.int_strip s) as [|c r].
    { intros (ds & Hn & _)%int_unsigned_spec. inversion Hn. }
    destruct (Ascii.eqb c "+") eqn:Hp; [|destruct (Ascii.eqb c "-") eqn:Hm].
    + apply Ascii.eqb_eq in Hp as ->.
      intros (ds & Hn & Hle & ->)%int_unsigned_spec.
      exists ws1, "+", r, ws3, ds. split_and!; try done. right. by left.
    + apply Ascii.eqb_eq in Hm as ->. intros Hrun.
      destruct (Py.int_unsigned r) as [v|] eqn:Hu; [|done].
      injection Hrun as <-.
      apply int_unsigned_spec in Hu as (ds & Hn & Hle & ->).
      exists ws1, "-", r, ws3, ds. split_and!; try done. right. by right.
    + intros (ds & Hn & Hle & ->)%int_unsigned_spec.
      exists ws1, "", (String c r), ws3, ds. split_and!; try done. by left.
  - intros (ws1 & sg & body & ws3 & ds & -> & H1 & H3 & Hn & Hle & Hsg).
    assert (sg = "" ∨ sg = "+" ∨ sg = "-") as Hsg' by naive_solver.
    destruct (signed_numeral_clean Py.is_int_space sg body ds)
      as (Hl & Hr & _); [|reflexivity|reflexivity|exact Hsg'|exact Hn|].
    { intros c Hc. clear -Hc. each_char c; done. }
    rewrite <- (append_assoc sg body ws3). unfold Py.int_strip.
    rewrite (strip_by_exact Py.is_int_space ws1 (sg +:+ body) ws3 H1 H3 Hl Hr).
    destruct (numeral_head body ds Hn) as (c & r & -> & Hc).
    assert (Ascii.eqb c "+" = false ∧ Ascii.eqb c "-" = false) as [Hcp Hcm].
    { clear -Hc. each_char c; done. }
    destruct Hsg as [[-> ->]|[[-> ->]|[-> ->]]].
    + change ("" +:+ String c r) with (String c r). cbv beta iota.
      rewrite Hcp, Hcm. apply int_unsigned_spec. by exists ds.
    + change ("+" +:+ String c r) with (String "+" (String c r)).
      cbv beta iota. change (Ascii.eqb "+" "+") with true. cbv beta iota.
      apply int_unsigned_spec. by exists ds.
    + change ("-" +:+ String c r) with (String "-" (String c r)).
      cbv beta iota. change (Ascii.eqb "-" "+") with false.
      change (Ascii.eqb "-" "-") with true. cbv beta iota.
      rewrite (proj2 (int_unsigned_spec (String c r) (digits_value ds)));
        [done|by exists ds].
Qed.

Lemma key_char_lower c :
  is_key_char (Py.lower_char c) = true → Py.lower_char c = c.
Proof. each_char c; done. Qed.

Lemma key_char_fixed c : is_key_char c = true → Py.lower_char c = c.
Proof. each_char c; done. Qed.

Lemma lower_key_chars_inv s :
  Py.all_chars is_key_char (Py.lower s) = true → Py.lower s = s.
Proof.
  induction s as [|c s IH]; [done|]. simpl.
  intros [Hc Hs]%andb_true_iff. by rewrite key_char_lower, IH.
Qed.

Lemma lower_key_chars s :
  Py.all_chars is_key_char s = true → Py.lower s = s.
Proof.
  induction s as [|c s IH]; [done|]. simpl.
  intros [Hc Hs]%andb_true_iff. by rewrite key_char_fixed, IH.
Qed.

Lemma lower_char_x c : Py.lower_char c = "x"%char → c = "x"%char ∨ c = "X"%char.
Proof. each_char c; try done; auto. Qed.

Lemma startswith_x_inv c s : Py.startswith "x" (String c s) = true → c = "x"%char.
Proof.
  unfold Py.startswith.
  change (String.prefix "x" (String c s))
    with (if ascii_dec "x" c then String.prefix "" s else false).
  by destruct (ascii_dec "x" c) as [<-|].
Qed.

(** The characters of a text that [int] accepts. *)
Lemma int_text_key_chars ws1 sg body ws3 ds :
  Py.all_chars Py.is_int_space ws1 = true →
  Py.all_chars Py.is_int_space ws3 = true →
  sg = "" ∨ sg = "+" ∨ sg = "-" →
  numeral body ds →
  Py.all_chars is_key_char (ws1 +:+ sg +:+ body +:+ ws3) = true.
Proof.
  intros H1 H3 Hsg Hn. rewrite !all_chars_app.
  assert (∀ ws, Py.all_chars Py.is_int_space ws = true →
                Py.all_chars is_key_char ws = true) as Hws.
  { intros ws. apply all_chars_impl. intros c Hc. clear -Hc. each_char c; done. }
  rewrite (Hws ws1 H1), (Hws ws3 H3), (numeral_key_chars body ds Hn).
  by destruct Hsg as [->|[->| ->]].
Qed.

Lemma safe_convert_to_int_complete v n :
  safe_convert_to_int (Some v) = Some n → integer_text v n.
Proof.
  unfold safe_convert_to_int. cbv zeta.
  destruct (strip_by_split Py.is_space v) as (ws1 & ws3 & H1 & H3 & Hv).
  change (Py.lstrip_by Py.is_space (Py.rstrip_by Py.is_space v))
    with (Py.strip v) in Hv.
  assert (∀ ws, Py.all_chars Py.is_int_space ws = true →
                Py.all_chars Py.is_space ws = true) as Hint.
  { intros ws. apply all_chars_impl, int_space_is_space. }
  destruct (Py.startswith "x" (Py.lower (Py.strip v))) eqn:Hx.
  - destruct (Py.strip v) as [|c0 s0]; [done|].
    change (Py.lower (String c0 s0))
      with (String (Py.lower_char c0) (Py.lower s0)) in *.
    apply startswith_x_inv in Hx.
    intros (wsa & sg & body & wsb & ds & Hlow & Ha & Hb & Hn & Hle & Hsg)
      %int_of_str_spec.
    assert (Py.lower s0 = s0) as Hfix.
    { apply lower_key_chars_inv. rewrite Hlow.
      apply (int_text_key_chars wsa sg body wsb ds); [done|done| |done].
      naive_solver. }
    rewrite Hfix in Hlow. subst s0.
    exists ws1, (String c0 ""), wsa, sg, body, (wsb +:+ ws3), ds.
    split_and!; [|done| |right|done..].
    + rewrite Hv.
      change (String c0 (wsa +:+ sg +:+ body +:+ wsb))
        with (String c0 "" +:+ (wsa +:+ sg +:+ body +:+ wsb)).
      by rewrite !append_assoc.
    + rewrite all_chars_app, H3, (Hint wsb Hb). done.
    + split; [|done]. by apply lower_char_x in Hx as [->| ->]; [left|right].
  - intros (wsa & sg & body & wsb & ds & Hlow & Ha & Hb & Hn & Hle & Hsg)
      %int_of_str_spec.
    assert (Py.lower (Py.strip v) = Py.strip v) as Hfix.
    { apply lower_key_chars_inv. rewrite Hlow.
      apply (int_text_key_chars wsa sg body wsb ds); [done|done| |done].
      naive_solver. }
    rewrite Hfix in Hlow. rewrite Hlow in Hv.
    exists (ws1 +:+ wsa), "", "", sg, body, (wsb +:+ ws3), ds.
    split_and!; [| | |by left|done..].
    + rewrite Hv.
      change ("" +:+ "" +:+ sg +:+ body +:+ wsb +:+ ws3)
        with (sg +:+ body +:+ wsb +:+ ws3).
      by rewrite !append_assoc.
    + rewrite all_chars_app, H1, (Hint wsa Ha). done.
    + rewrite all_chars_app, H3, (Hint wsb Hb). done.
Qed.

Lemma safe_convert_to_int_sound v n :
  integer_text v n → safe_convert_to_int (Some v) = Some n.
Proof.
  intros (ws1 & px & ws2 & sg & body & ws3 & ds
          & -> & H1 & H3 & Hpx & Hn & Hle & Hsg).
  assert (sg = "" ∨ sg = "+" ∨ sg = "-") as Hsg' by naive_solver.
  destruct (signed_numeral_clean Py.is_space sg body ds)
    as (Hl & Hr & Hne); [|reflexivity|reflexivity|exact Hsg'|exact Hn|].
  { intros c Hc. clear -Hc. each_char c; done. }
  assert (Py.all_chars is_key_char (sg +:+ body) = true) as Hkey.
  { pose proof (int_text_key_chars "" sg body "" ds eq_refl eq_refl Hsg' Hn)
      as Hk.
    change ("" +:+ sg +:+ body +:+ "") with (sg +:+ body +:+ "") in Hk.
    by rewrite append_empty_r in Hk. }
  unfold safe_convert_to_int. cbv zeta.
  destruct Hpx as [[-> ->]|[Hpx H2]].
  - change (ws1 +:+ "" +:+ "" +:+ sg +:+ body +:+ ws3)
      with (ws1 +:+ sg +:+ body +:+ ws3).
    rewrite <- (append_assoc sg body ws3).
    unfold Py.strip, Py.lstrip, Py.rstrip.
    rewrite (strip_by_exact Py.is_space ws1 (sg +:+ body) ws3 H1 H3 Hl Hr).
    rewrite lower_key_chars by done.
    assert (Py.startswith "x" (sg +:+ body) = false) as ->.
    { destruct (numeral_head body ds Hn) as (c & r & -> & Hc).
      destruct Hsg' as [->|[->| ->]]; [|done..].
      apply startswith_other. clear -Hc. each_char c; done. }
    apply int_of_str_spec. exists "", sg, body, "", ds.
    split_and!; try done.
    change ("" +:+ sg +:+ body +:+ "") with (sg +:+ body +:+ "").
    by rewrite append_empty_r.
  - assert (∃ p, px = String p "" ∧ Py.is_space p = false ∧
                 Py.lower_char p = "x"%char) as (p & -> & Hp & Hlow).
    { destruct Hpx as [->| ->]; eexists; done. }
    change (ws1 +:+ String p "" +:+ ws2 +:+ sg +:+ body +:+ ws3)
      with (ws1 +:+ String p (ws2 +:+ sg +:+ body +:+ ws3)).
    replace (String p (ws2 +:+ sg +:+ body +:+ ws3))
      with (String p (ws2 +:+ sg +:+ body) +:+ ws3).
    2:{ change (String p (ws2 +:+ sg +:+ body) +:+ ws3)
          with (String p ((ws2 +:+ sg +:+ body) +:+ ws3)).
        by rewrite !append_assoc. }
    unfold Py.strip, Py.lstrip, Py.rstrip. rewrite strip_by_exact; [|done..| |].
    2:{ by apply lstrip_by_head. }
    2:{ rewrite rstrip_by_head by done. f_equal.
        rewrite rstrip_by_app_keep; by rewrite Hr. }
    change (Py.lower (String p (ws2 +:+ sg +:+ body)))
      with (String (Py.lower_char p) (Py.lower (ws2 +:+ sg +:+ body))).
    rewrite Hlow, startswith_x. rewrite lower_key_chars.
    2:{ rewrite all_chars_app, Hkey, andb_true_r.
        eapply all_chars_impl; [|exact H2]. intros c Hc. clear -Hc.
        each_char c; done. }
    apply int_of_str_spec. exists ws2, sg, body, "", ds.
    split_and!; try done. by rewrite append_empty_r.
Qed.

(** C9, as the code has it. [safe_convert_to_int] converts exactly the
    texts that consist of a numeral of at most 4300 digits (single
    underscores between digits allowed, leading zeros counted), behind at
    most one sign and at most one [x] or [X], the only prefix that is
    removed, with white space around: the result is the value of the numeral
    with its sign.  Every other text gives [None], as a missing value does
    ([12a], [2633.0], a lone [x], the empty text and a text that starts with
    another character that is neither a digit, a sign nor white space are
    such texts).  No value raises. *)
Theorem safe_convert_to_int_spec :
  (∀ v n, safe_convert_to_int (Some v) = Some n ↔ integer_text v n) ∧
  (∀ v, safe_convert_to_int (Some v) = None ↔ ¬ ∃ n, integer_text v n) ∧
  (∀ n : N,
     Z.of_N n < 10 ^ Z.of_nat Py.int_max_str_digits →
     safe_convert_to_int (Some (pretty n)) = Some (Z.of_N n) ∧
     safe_convert_to_int (Some ("x" +:+ pretty n)) = Some (Z.of_N n) ∧
     safe_convert_to_int (Some ("X" +:+ pretty n)) = Some (Z.of_N n)) ∧
  (∀ c rest,
     Py.is_space c = false → Py.is_digit c = false →
     c ≠ "x"%char → c ≠ "X"%char → c ≠ "+"%char → c ≠ "-"%char →
     safe_convert_to_int (Some (String c rest)) = None) ∧
  safe_convert_to_int None = None.
Proof.
  assert (∀ v n, safe_convert_to_int (Some v) = Some n ↔ integer_text v n)
    as Hiff.
  { intros v n. split;
      [apply safe_convert_to_int_complete|apply safe_convert_to_int_sound]. }
  split_and!; [exact Hiff| | | |done].
  - intros v. split.
    + intros Hnone [n Hn%Hiff]. congruence.
    + intros Hno. destruct (safe_convert_to_int (Some v)) as [n|] eqn:Hrun;
        [|done].
      destruct Hno. exists n. by apply Hiff.
  - intros n Hn. pose proof (pretty_digits n) as Hd.
    assert (∀ c, Py.is_digit c = false → Py.is_space c = false →
                 Py.lower_char c = "x"%char →
                 safe_convert_to_int (Some (String c (pretty n))) = Some (Z.of_N n))
      as Hprefix.
    { intros c Hc Hsp Hlow. unfold safe_convert_to_int.
      rewrite strip_head, rstrip_digits by done. simpl Py.lower.
      rewrite Hlow, lower_digits, startswith_x by done.
      by apply int_of_str_pretty. }
    split_and!; [|by apply Hprefix..].
    unfold safe_convert_to_int.
    rewrite strip_digits, lower_digits, startswith_digits by done.
    by apply int_of_str_pretty.
  - intros c rest Hsp Hd Hx HX Hplus Hminus.
    destruct (lowered_prefix_char c Hsp Hd Hx HX Hplus Hminus)
      as (Hsp' & Hd' & Hx' & Hplus' & Hminus').
    unfold safe_convert_to_int. rewrite strip_head by done. simpl Py.lower.
    rewrite startswith_other by done.
    by apply int_of_str_bad_head.
Qed.

Lemma safe_convert_to_int_spec_witness :
  safe_convert_to_int (Some "x904631") = Some 904631 ∧
  safe_convert_to_int (Some "#904631") = None ∧
  integer_text " X007 " 7 ∧
  ¬ (∃ n, integer_text "12a" n) ∧
  ¬ (∃ n, integer_text "2633.0" n) ∧
  ¬ (∃ n, integer_text "x" n) ∧
  ¬ (∃ n, integer_text "" n).
Proof.
  destruct safe_convert_to_int_spec as (Hiff & Hnone & Hnum & Hbad & _).
  split_and!.
  - refine (proj1 (proj2 (Hnum 904631%N _))). vm_compute. reflexivity.
  - refine (Hbad "#"%char "904631" _ _ _ _ _ _); try reflexivity; discriminate.
  - apply Hiff. reflexivity.
  - apply Hnone. reflexivity.
  - apply Hnone. reflexivity.
  - apply Hnone. reflexivity.
  - apply Hnone. reflexivity.
Defined.

(** C9, as stated, fails: the letter [A] is a non-numeric prefix character,
    the remainder [123] is an integer, and the result is [None]. *)
Lemma other_prefix_is_not_stripped :
  Py.int_of_str "123" = Some 123 ∧
  safe_convert_to_int (Some "A123") = None.
Proof. split; reflexivity. Qed.

(** ** The loop of [process_chunk] *)

Lemma build_record_key cache row inv f :
  build_record cache row inv = Accept f →
  fact_key f = (inv, to_year (Date row)).
Proof.
  unfold build_record, fact_key. intros H.
  repeat case_match; simplify_eq; simpl; congruence.
Qed.

Lemma grows_refl st : grows st st.
Proof.
  unfold grows. repeat split; try done.
  exists []. rewrite app_nil_r. split; [done|]. split; [constructor|].
  intros f Hf. inversion Hf.
Qed.

Lemma grows_trans st1 st2 st3 : grows st1 st2 → grows st2 st3 → grows st1 st3.
Proof.
  intros (T1 & S1 & A1 & B1 & P1 & I1 & new1 & E1 & N1 & K1)
         (T2 & S2 & A2 & B2 & P2 & I2 & new2 & E2 & N2 & K2).
  unfold grows. split_and!; try (etrans; eassumption); [tauto|].
  exists (new1 ++ new2). split; [by rewrite E2, E1, app_assoc|]. split.
  - rewrite fmap_app. apply NoDup_app. split; [done|]. split; [|done].
    intros k Hk1 Hk2.
    apply list_elem_of_fmap in Hk1 as (f1 & -> & Hf1).
    apply list_elem_of_fmap in Hk2 as (f2 & Heq & Hf2).
    destruct (K1 f1 Hf1) as [_ Hin]. destruct (K2 f2 Hf2) as [Hnot _].
    rewrite <- Heq in Hnot. done.
  - intros f [Hf|Hf]%elem_of_app.
    + destruct (K1 f Hf). split; [done|]. set_solver.
    + destruct (K2 f Hf). split; [set_solver|done].
Qed.

Lemma grows_same_records st st' :
  tracker st ⊆ tracker st' →
  chunk_seen_invoices st ⊆ chunk_seen_invoices st' →
  missing_stores st ⊆ missing_stores st' →
  missing_vendors st ⊆ missing_vendors st' →
  missing_products st ⊆ missing_products st' →
  (chunk_seen_invoices st ⊆ tracker st →
   chunk_seen_invoices st' ⊆ tracker st') →
  fact_records st' = fact_records st →
  grows st st'.
Proof.
  intros. unfold grows. split_and!; try done.
  exists []. rewrite app_nil_r. split; [done|]. split; [constructor|].
  intros f Hf. inversion Hf.
Qed.

Lemma process_row_grows cache st row :
  grows st (state_of (process_row cache st row)).
Proof.
  unfold process_row.
  destruct (Invoice_Item_Number row) as [inv|]; [|apply grows_refl].
  destruct (String.eqb inv ""); [apply grows_refl|].
  destruct (decide _); [apply grows_refl|].
  destruct (decide _) as [Hin|Hnot].
  { by apply grows_same_records. }
  destruct (build_record cache row inv) eqn:Hb; simpl;
    try (apply grows_same_records; simpl; set_solver).
  unfold grows; simpl. split_and!; try set_solver.
  exists [f]. split; [done|]. split.
  { simpl. apply NoDup_singleton. }
  intros f' ->%list_elem_of_singleton.
  rewrite (build_record_key _ _ _ _ Hb). split; [done|set_solver].
Qed.

Lemma process_rows_grows cache rows st :
  grows st (state_of (process_rows cache rows st)).
Proof.
  revert st. induction rows as [|row rows IH]; intros st; simpl.
  - apply grows_refl.
  - pose proof (process_row_grows cache st row) as H.
    destruct (process_row cache st row) as [st'|e st']; simpl in *.
    + eapply grows_trans; [exact H|apply IH].
    + exact H.
Qed.

(** Every record that the loop appends is the record accepted for one of
    the rows it went through. *)
Lemma process_rows_origin cache rows st f :
  f ∈ fact_records (state_of (process_rows cache rows st)) →
  f ∈ fact_records st ∨
  ∃ row, row ∈ rows ∧ build_record cache row (invoice_item_number f) = Accept f.
Proof.
  revert st. induction rows as [|r rows IH]; intros st; simpl; [by left|].
  destruct (process_row cache st r) as [st1|e st1] eqn:Hrow; simpl.
  - intros [Hf|(row & Hin & Hb)]%IH; [|right; exists row; split; [by right|done]].
    unfold process_row in Hrow.
    repeat case_match; simplify_eq; simpl in *; try by left.
    apply elem_of_app in Hf as [Hf| ->%list_elem_of_singleton]; [by left|].
    right. exists r. split; [left|].
    match goal with H : build_record _ _ _ = Accept _ |- _ =>
      pose proof (build_record_key _ _ _ _ H) as Hk; injection Hk as Hinv _;
      rewrite Hinv; exact H end.
  - intros Hf. left. unfold process_row in Hrow.
    repeat case_match; simplify_eq; simpl in *; done.
Qed.

Lemma process_row_seen cache st row :
  chunk_seen_invoices st ⊆ tracker st →
  chunk_seen_invoices (state_of (process_row cache st row))
    ⊆ tracker (state_of (process_row cache st row)).
Proof. intros H. by apply (process_row_grows cache st row). Qed.

(** Every row with an invoice identifier that the loop gets to leaves its
    key in the tracker, whatever becomes of the row. *)
Lemma process_row_claims cache st row k :
  chunk_seen_invoices st ⊆ tracker st →
  row_key row = Some k → k ∈ tracker (state_of (process_row cache st row)).
Proof.
  unfold row_key, process_row. intros Hseen.
  destruct (Invoice_Item_Number row) as [inv|]; [|done].
  destruct (String.eqb inv ""); [done|]. intros [= <-].
  destruct (decide _); [set_solver|].
  destruct (decide _); [done|].
  destruct (build_record cache row inv); simpl; set_solver.
Qed.

Lemma process_rows_claims cache rows st st' row k :
  chunk_seen_invoices st ⊆ tracker st →
  process_rows cache rows st = Next st' →
  row ∈ rows → row_key row = Some k → k ∈ tracker st'.
Proof.
  revert st. induction rows as [|r rows IH]; intros st Hseen Hrun Hin Hk.
  - inversion Hin.
  - simpl in Hrun.
    pose proof (process_row_seen cache st r Hseen) as Hseen'.
    pose proof (process_row_claims cache st r k Hseen) as Hclaim.
    destruct (process_row cache st r) as [st1|e st1]; [|done]. simpl in *.
    apply elem_of_cons in Hin as [->|Hin].
    + pose proof (process_rows_grows cache rows st1) as Hg.
      rewrite Hrun in Hg. destruct Hg as [Hsub _]. set_solver.
    + by eapply IH.
Qed.

(** What the test of line 523 leaves through. *)
Lemma measures_checked row :
  existsb (λ val, isna val || le_zero val) (required_numeric_fields row) = false →
  Forall (λ val, isna val = false ∧ le_zero val = false)
         (required_numeric_fields row).
Proof.
  intros H. apply Forall_forall. intros v Hv.
  apply orb_false_iff. destruct (isna v || le_zero v) eqn:E; [|done].
  assert (existsb (λ val, isna val || le_zero val)
            (required_numeric_fields row) = true) as Ht; [|congruence].
  apply existsb_exists. exists v. split; [by apply list_elem_of_In|done].
Qed.

(** Only [int(inf)] on [Bottles Sold] leaves the loop body, and so
    [process_chunk], with an exception. *)
Lemma build_record_escapes cache row inv e :
  build_record cache row inv = Escapes e →
  Bottles_Sold row = PosInf ∧ e = OverflowError.
Proof.
  unfold build_record.
  destruct (existsb _ _) eqn:Hm; [done|].
  apply measures_checked in Hm.
  assert (isna (Bottles_Sold row) = false ∧ le_zero (Bottles_Sold row) = false)
    as [Hna Hle].
  { rewrite Forall_forall in Hm. apply Hm. unfold required_numeric_fields.
    set_solver. }
  intros H. repeat case_match; simplify_eq; try done;
    destruct (Bottles_Sold row); simplify_eq/=; done.
Qed.

Lemma process_rows_returns cache rows st :
  (∀ row, row ∈ rows → Bottles_Sold row ≠ PosInf) →
  ∃ st', process_rows cache rows st = Next st'.
Proof.
  revert st. induction rows as [|r rows IH]; intros st Hfin; simpl.
  - by eexists.
  - assert (∃ st1, process_row cache st r = Next st1) as [st1 ->].
    { unfold process_row. repeat case_match; try by eexists.
      match goal with H : build_record _ _ _ = Escapes _ |- _ =>
        apply build_record_escapes in H as [Hinf _] end.
      destruct (Hfin r); [set_solver|done]. }
    apply IH. intros row Hrow. apply Hfin. set_solver.
Qed.

(** *** The records filed under one key *)

Lemma expected_tracked cache tr k rows :
  k ∈ tr → expected_for_key cache tr k rows = [].
Proof.
  intros Hk. unfold expected_for_key.
  destruct (first_with_key k rows); [|done]. by rewrite decide_True.
Qed.

Lemma filter_none {A} (P : A → Prop) `{∀ x, Decision (P x)} (l : list A) :
  (∀ x, x ∈ l → ¬ P x) → filter P l = [].
Proof.
  induction l as [|a l IH]; intros Hl; [done|].
  rewrite filter_cons_False by (apply Hl; set_solver).
  apply IH. intros x Hx. apply Hl. set_solver.
Qed.

Lemma filter_key_grows k st st' :
  grows st st' → k ∈ tracker st →
  filter (λ f, fact_key f = k) (fact_records st')
  = filter (λ f, fact_key f = k) (fact_records st).
Proof.
  intros (_ & _ & _ & _ & _ & _ & new & -> & _ & Hnew) Hk.
  rewrite filter_app.
  assert (filter (λ f, fact_key f = k) new = []) as ->; [|by rewrite app_nil_r].
  apply filter_none. intros f Hf Heq. subst k.
  by destruct (Hnew f Hf).
Qed.

Lemma process_rows_key cache rows st st' k :
  chunk_seen_invoices st ⊆ tracker st →
  process_rows cache rows st = Next st' →
  filter (λ f, fact_key f = k) (fact_records st')
  = filter (λ f, fact_key f = k) (fact_records st)
    ++ expected_for_key cache (tracker st) k rows.
Proof.
  revert st. induction rows as [|r rows IH]; intros st Hseen Hrun.
  - simpl in Hrun. injection Hrun as <-. unfold expected_for_key. simpl.
    by rewrite app_nil_r.
  - simpl in Hrun.
    pose proof (process_row_seen cache st r Hseen) as Hseen'.
    destruct (process_row cache st r) as [st1|e st1] eqn:Hrow; [|done].
    simpl in Hseen'. specialize (IH st1 Hseen' Hrun). rewrite IH. clear IH.
    unfold expected_for_key, first_with_key. simpl.
    unfold process_row in Hrow.
    destruct (Invoice_Item_Number r) as [inv|] eqn:Hinv.
    2:{ injection Hrow as <-.
        rewrite bool_decide_eq_false_2; [done|]. unfold row_key. by rewrite Hinv. }
    destruct (String.eqb inv "") eqn:Hempty.
    { injection Hrow as <-.
        rewrite bool_decide_eq_false_2; [done|].
        unfold row_key. by rewrite Hinv, Hempty. }
    assert (row_key r = Some (inv, to_year (Date r))) as Hkey.
    { unfold row_key. by rewrite Hinv, Hempty. }
    rewrite Hkey.
    set (kr := (inv, to_year (Date r))) in *.
    destruct (decide (kr = k)) as [<-|Hne].
    + rewrite bool_decide_eq_true_2 by done.
      fold (first_with_key kr rows).
      fold (expected_for_key cache (tracker st1) kr rows).
      destruct (decide (kr ∈ chunk_seen_invoices st)) as [Hs|Hs].
      { injection Hrow as <-. rewrite decide_True by set_solver.
        rewrite expected_tracked by set_solver. done. }
      destruct (decide (kr ∈ tracker st)) as [Ht|Ht].
      { injection Hrow as <-. simpl. by rewrite expected_tracked. }
      destruct (build_record cache r inv) eqn:Hb; simplify_eq; simpl;
        rewrite expected_tracked by set_solver; rewrite ?Hb, ?app_nil_r;
        try done.
      rewrite filter_app. f_equal.
      rewrite filter_cons_True; [done|]. by apply build_record_key in Hb.
    + rewrite bool_decide_eq_false_2 by congruence.
      fold (first_with_key k rows).
      assert (filter (λ f, fact_key f = k) (fact_records st1)
              = filter (λ f, fact_key f = k) (fact_records st)
              ∧ (k ∈ tracker st1 ↔ k ∈ tracker st)) as [-> Hiff].
      { repeat case_match; simplify_eq; simpl; try (split; [done|set_solver]).
        split; [|set_solver]. rewrite filter_app.
        rewrite filter_cons_False, filter_nil, app_nil_r; [done|].
        match goal with H : build_record _ _ _ = Accept _ |- _ =>
          apply build_record_key in H; rewrite H end. done. }
      f_equal. destruct (first_with_key k rows); [|done].
      destruct (decide (k ∈ tracker st1)), (decide (k ∈ tracker st));
        try done; tauto.
Qed.

(** *** Measures *)

Lemma checked_measure_positive v :
  isna v = false → le_zero v = false → positive_num v.
Proof.
  destruct v as [|q| |]; simpl; try done. intros _ Hq.
  apply Qnot_le_lt. intros Hle. apply Qle_bool_iff in Hle. congruence.
Qed.

(** The five measures stored as floats are strictly positive, and the
    number of bottles, stored as [int(...)], is not negative. *)
Lemma accepted_measures cache row inv f :
  build_record cache row inv = Accept f →
  positive_num (state_bottle_cost f) ∧
  positive_num (state_bottle_retail f) ∧
  positive_num (sale_dollars f) ∧
  positive_num (volume_sold_liters f) ∧
  positive_num (volume_sold_gallons f) ∧
  int_of_num (Bottles_Sold row) = inr (bottles_sold f) ∧
  0 ≤ bottles_sold f.
Proof.
  unfold build_record.
  destruct (existsb _ _) eqn:Hm; [done|].
  apply measures_checked in Hm. unfold required_numeric_fields in Hm.
  repeat match goal with
         | H : Forall _ (_ :: _) |- _ => apply Forall_cons in H as [[??] H]
         end.
  intros Hacc. repeat case_match; simplify_eq; simpl.
  split_and!; try by apply checked_measure_positive.
  - done.
  - destruct (Bottles_Sold row) as [|q| |]; simplify_eq/=.
    apply Z.quot_pos; [|done].
    match goal with H : Qle_bool q 0 = false |- _ => rename H into Hq end.
    destruct (decide (0 ≤ Qnum q)) as [|Hneg]; [done|].
    exfalso. assert (Qle_bool q 0 = true); [|congruence].
    apply Qle_bool_iff. unfold Qle. simpl. lia.
Qed.

(** The surrogate keys of an accepted record are those of the cache, and
    none of them is 0. *)
Lemma accepted_keys cache row inv f :
  build_record cache row inv = Accept f →
  store_key f ≠ 0 ∧ vendor_key f ≠ 0 ∧ product_key f ≠ 0 ∧ date_key f ≠ 0 ∧
  (∃ n, safe_convert_to_int (Store_Number row) = Some n ∧
        store_cache cache !! n = Some (store_key f)) ∧
  (∃ n, safe_convert_to_int (Vendor_Number row) = Some n ∧
        vendor_cache cache !! n = Some (vendor_key f)) ∧
  (∃ n, safe_convert_to_int (Item_Number row) = Some n ∧
        product_cache cache !! n = Some (product_key f)) ∧
  (∃ d, to_date (Date row) = Some d ∧
        date_cache cache !! d = Some (date_key f) ∧ year f = d_year d).
Proof.
  unfold build_record. intros Hacc.
  destruct (existsb _ _); [done|].
  destruct (safe_convert_to_int (Store_Number row)) as [sn|]; [|done].
  destruct (safe_convert_to_int (Vendor_Number row)) as [vn|]; [|done].
  destruct (safe_convert_to_int (Item_Number row)) as [item|]; [|done].
  destruct (store_cache cache !! sn) as [sk|] eqn:Hs; [|done].
  destruct (vendor_cache cache !! vn) as [vk|] eqn:Hv; simpl in Hacc;
    [|by destruct (sk =? 0)].
  destruct (product_cache cache !! item) as [pk|] eqn:Hp; simpl in Hacc;
    [|by destruct (sk =? 0), (vk =? 0)].
  destruct (Date row) as [d ns|]; simpl in Hacc;
    [|by destruct (sk =? 0), (vk =? 0), (pk =? 0)].
  destruct (date_cache cache !! d) as [dk|] eqn:Hd; simpl in Hacc;
    [|by destruct (sk =? 0), (vk =? 0), (pk =? 0)].
  destruct (sk =? 0) eqn:Hsk, (vk =? 0) eqn:Hvk, (pk =? 0) eqn:Hpk,
    (dk =? 0) eqn:Hdk; simpl in Hacc; try done.
  destruct (int_of_num (Bottles_Sold row)) as [e|b]; [by destruct e|].
  injection Hacc as <-. simpl.
  split_and!; try (by apply Z.eqb_neq); eauto.
Qed.

(** *** The sort *)

Lemma insert_by_date_perm row rows : insert_by_date row rows ≡ₚ row :: rows.
Proof.
  induction rows as [|r rows IH]; simpl; [done|].
  destruct (stamp_leb _ _); [|done].
  rewrite IH. apply Permutation_swap.
Qed.

Lemma sort_by_date_perm chunk : sort_by_date chunk ≡ₚ chunk.
Proof.
  induction chunk as [|r chunk IH]; simpl; [done|].
  rewrite insert_by_date_perm. by rewrite IH.
Qed.

Lemma stamp_leb_total a b : stamp_leb a b = true ∨ stamp_leb b a = true.
Proof.
  destruct a as [d1 n1|], b as [d2 n2|]; simpl; auto.
  repeat case_match; lia.
Qed.

Lemma stamp_leb_trans a b c :
  stamp_leb a b = true → stamp_leb b c = true → stamp_leb a c = true.
Proof.
  destruct a as [d1 n1|], b as [d2 n2|], c as [d3 n3|]; simpl; try done.
  repeat case_match; lia.
Qed.

Lemma insert_by_date_sorted row rows :
  StronglySorted (λ a b, stamp_leb (Date a) (Date b) = true) rows →
  StronglySorted (λ a b, stamp_leb (Date a) (Date b) = true)
                 (insert_by_date row rows).
Proof.
  induction rows as [|r rows IH]; intros Hs; simpl.
  - repeat constructor.
  - apply StronglySorted_inv in Hs as [Hs Hr].
    destruct (stamp_leb (Date r) (Date row)) eqn:Hle.
    + constructor; [by apply IH|].
      rewrite insert_by_date_perm. by constructor.
    + assert (stamp_leb (Date row) (Date r) = true) as Hrow.
      { destruct (stamp_leb_total (Date row) (Date r)); congruence. }
      constructor; [by constructor|]. constructor; [done|].
      eapply Forall_impl; [exact Hr|]. intros x Hx. by eapply stamp_leb_trans.
Qed.

(** [sort_by_date] is a sort on the [Date] column. *)
Lemma sort_by_date_sorted chunk :
  StronglySorted (λ a b, stamp_leb (Date a) (Date b) = true)
                 (sort_by_date chunk).
Proof.
  induction chunk as [|r chunk IH]; simpl; [constructor|].
  by apply insert_by_date_sorted.
Qed.

(** In a sorted frame, a row that is strictly earlier than every other row
    filed under its key is the first one filed under it. *)
Lemma earliest_row_is_first k rows r :
  StronglySorted (λ a b, stamp_leb (Date a) (Date b) = true) rows →
  r ∈ rows → row_key r = Some k →
  (∀ r', r' ∈ rows → row_key r' = Some k →
         r' = r ∨ stamp_leb (Date r') (Date r) = false) →
  first_with_key k rows = Some r.
Proof.
  unfold first_with_key.
  induction rows as [|a rows IH]; intros Hs Hr Hk Hearly; [inversion Hr|].
  apply StronglySorted_inv in Hs as [Hs Ha]. simpl.
  destruct (decide (row_key a = Some k)) as [Hak|Hak].
  - rewrite bool_decide_eq_true_2 by done.
    destruct (Hearly a) as [->|Hlt]; [left|done|done|].
    apply elem_of_cons in Hr as [->|Hr]; [done|].
    rewrite Forall_forall in Ha. rewrite (Ha r Hr) in Hlt. done.
  - rewrite bool_decide_eq_false_2 by done.
    apply elem_of_cons in Hr as [->|Hr]; [done|].
    apply IH; try done. intros r' Hr'. apply Hearly. by right.
Qed.

(** *** Seeding *)

Lemma check_existing_invoices_spec fact_sales tr k :
  k ∈ check_existing_invoices fact_sales tr ↔
  k ∈ tr ∨ ∃ inv y, (inv, y) ∈ fact_sales ∧ k = (inv, Some y).
Proof.
  unfold check_existing_invoices. revert tr.
  induction fact_sales as [|[inv y] rows IH]; intros tr; simpl.
  - split; [by left|]. intros [?|(? & ? & Hin & _)]; [done|inversion Hin].
  - rewrite IH. split.
    + intros [[->%elem_of_singleton|?]%elem_of_union|(i & z & Hin & ->)].
      * right. exists inv, y. split; [left|done].
      * by left.
      * right. exists i, z. split; [by right|done].
    + intros [?|(i & z & [[= -> ->]|Hin]%elem_of_cons & ->)].
      * left. set_solver.
      * left. set_solver.
      * right. by exists i, z.
Qed.

Section ChunkProperties.

Variable sort_values : list Row → list Row.

Lemma process_chunk_grows chunk cache tr :
  grows (initial_state tr) (state_of (process_chunk sort_values chunk cache tr)).
Proof. apply process_rows_grows. Qed.

Lemma process_chunk_new_keys chunk cache tr :
  tr ⊆ tracker (state_of (process_chunk sort_values chunk cache tr)) ∧
  NoDup (fact_key <$> fact_records (state_of (process_chunk sort_values chunk cache tr))) ∧
  ∀ f, f ∈ fact_records (state_of (process_chunk sort_values chunk cache tr)) →
       (fact_key f ∉ tr) ∧
       (fact_key f ∈ tracker (state_of (process_chunk sort_values chunk cache tr))).
Proof.
  destruct (process_chunk_grows chunk cache tr)
    as (Hsub & _ & _ & _ & _ & _ & new & -> & Hnd & Hnew).
  simpl. done.
Qed.

Lemma process_chunks_spec chunks cache tr loaded :
  tr ⊆ (process_chunks sort_values chunks cache tr loaded).1.2 ∧
  ∃ new, (process_chunks sort_values chunks cache tr loaded).2 = loaded ++ new ∧
         NoDup (fact_key <$> new) ∧
         ∀ f, f ∈ new →
              (fact_key f ∉ tr) ∧
              (fact_key f ∈ (process_chunks sort_values chunks cache tr loaded).1.2).
Proof.
  revert tr loaded. induction chunks as [|chunk chunks IH]; intros tr loaded; simpl.
  - split; [done|]. exists []. rewrite app_nil_r. split; [done|].
    split; [constructor|]. intros f Hf. inversion Hf.
  - destruct (process_chunk_new_keys chunk cache tr) as (Hsub & Hnd & Hnew).
    destruct (process_chunk sort_values chunk cache tr) as [st|e st]; simpl in *.
    + destruct (IH (tracker st) (loaded ++ fact_records st))
        as (Hsub' & new & Heq & Hnd' & Hnew').
      split; [set_solver|].
      exists (fact_records st ++ new). split; [by rewrite Heq, app_assoc|].
      split.
      * rewrite fmap_app. apply NoDup_app. split; [done|]. split; [|done].
        intros k (f1 & -> & Hf1)%list_elem_of_fmap (f2 & Heq2 & Hf2)%list_elem_of_fmap.
        destruct (Hnew f1 Hf1) as [_ Hin]. destruct (Hnew' f2 Hf2) as [Hnot _].
        rewrite <- Heq2 in Hnot. done.
      * intros f [Hf|Hf]%elem_of_app.
        -- destruct (Hnew f Hf). split; [done|set_solver].
        -- destruct (Hnew' f Hf). split; [set_solver|done].
    + split; [done|]. exists []. rewrite app_nil_r. split; [done|].
      split; [constructor|]. intros f Hf. inversion Hf.
Qed.

(** Every record that [process_chunk] produces was accepted by
    [build_record] for a row of the sorted chunk. *)
Lemma process_chunk_origin chunk cache tr f :
  f ∈ fact_records (state_of (process_chunk sort_values chunk cache tr)) →
  ∃ row, row ∈ sort_values chunk ∧
         build_record cache row (invoice_item_number f) = Accept f.
Proof.
  intros [Hf|Hrow]%process_rows_origin; [inversion Hf|done].
Qed.

(** The records of a chunk: float measures strictly positive, bottles not
    negative, surrogate keys not 0. *)
Lemma process_chunk_records chunk cache tr :
  Forall (λ f, positive_num (state_bottle_cost f) ∧
               positive_num (state_bottle_retail f) ∧
               positive_num (sale_dollars f) ∧
               positive_num (volume_sold_liters f) ∧
               positive_num (volume_sold_gallons f) ∧
               0 ≤ bottles_sold f ∧
               store_key f ≠ 0 ∧ vendor_key f ≠ 0 ∧ product_key f ≠ 0 ∧
               date_key f ≠ 0)
    (fact_records (state_of (process_chunk sort_values chunk cache tr))).
Proof.
  apply Forall_forall. intros f (row & _ & Hb)%process_chunk_origin.
  destruct (accepted_measures _ _ _ _ Hb) as (? & ? & ? & ? & ? & _ & ?).
  destruct (accepted_keys _ _ _ _ Hb) as (? & ? & ? & ? & _).
  done.
Qed.

(** C2. Whatever the tracker holds when a chunk is taken up, no record that
    [process_chunk] produces has a key of that tracker. In particular no
    record repeats a pair of the fact table the tracker was seeded from, nor
    a key of the tracker that [seed_tracker] restored, and over a whole run
    the records handed to the loader have pairwise distinct keys, none of
    them tracked before the run, so none of them a pair of the fact table
    the run was seeded from. *)
Theorem tracked_keys_are_rejected chunk cache tr :
  Forall (λ f, fact_key f ∉ tr)
    (fact_records (state_of (process_chunk sort_values chunk cache tr))) ∧
  (∀ fact_sales tr0,
     Forall (λ f, (invoice_item_number f, year f) ∉ fact_sales)
       (fact_records (state_of
          (process_chunk sort_values chunk cache
             (check_existing_invoices fact_sales tr0))))) ∧
  (∀ checkpoint_dir fact_sales tr0 seeded,
     seed_tracker checkpoint_dir fact_sales tr0 = inr seeded →
     Forall (λ f, fact_key f ∉ seeded)
       (fact_records (state_of (process_chunk sort_values chunk cache seeded)))) ∧
  (∀ chunks,
     NoDup (fact_key <$> (process_chunks sort_values chunks cache tr []).2) ∧
     Forall (λ f, fact_key f ∉ tr) (process_chunks sort_values chunks cache tr []).2) ∧
  (∀ chunks fact_sales tr0,
     Forall (λ f, (invoice_item_number f, year f) ∉ fact_sales)
       (process_chunks sort_values chunks cache
          (check_existing_invoices fact_sales tr0) []).2).
Proof.
  assert (∀ t, Forall (λ f, fact_key f ∉ t)
            (fact_records (state_of (process_chunk sort_values chunk cache t))))
    as Hany.
  { intros t. apply Forall_forall. intros f Hf.
    by apply (process_chunk_new_keys chunk cache t). }
  split_and!.
  - apply Hany.
  - intros fact_sales tr0. eapply Forall_impl; [apply Hany|].
    intros f Hf Hin. apply Hf. apply check_existing_invoices_spec.
    right. by exists (invoice_item_number f), (year f).
  - intros. apply Hany.
  - intros chunks.
    destruct (process_chunks_spec chunks cache tr []) as (_ & new & -> & Hnd & Hnew).
    simpl. split; [done|]. apply Forall_forall. intros f Hf. by apply Hnew.
  - intros chunks fact_sales tr0.
    destruct (process_chunks_spec chunks cache
                (check_existing_invoices fact_sales tr0) [])
      as (_ & new & -> & _ & Hnew).
    simpl. apply Forall_forall. intros f Hf Hin.
    destruct (Hnew f Hf) as [Hnot _]. apply Hnot.
    apply check_existing_invoices_spec.
    right. by exists (invoice_item_number f), (year f).
Qed.

(** Rows of a chunk are rows of the sorted chunk. *)
Hypothesis sort_values_perm : ∀ chunk, sort_values chunk ≡ₚ chunk.

(** C3. [process_chunk] leaves every key of the tracker in place, also when
    it raises; when it returns, the key of every row of the chunk that has
    an invoice identifier is tracked, whether or not a record was produced
    for the row; and the chunks that follow in the run remove nothing. *)
Theorem tracker_only_grows chunk cache tr :
  tr ⊆ tracker (state_of (process_chunk sort_values chunk cache tr)) ∧
  (∀ st row k,
     process_chunk sort_values chunk cache tr = Next st →
     row ∈ chunk → row_key row = Some k → k ∈ tracker st) ∧
  (∀ chunks loaded,
     tr ⊆ (process_chunks sort_values chunks cache tr loaded).1.2).
Proof.
  split_and!.
  - apply process_chunk_new_keys.
  - intros st row k Hrun Hin Hk. unfold process_chunk in Hrun.
    eapply process_rows_claims; [|exact Hrun| |exact Hk]; [done|].
    by rewrite sort_values_perm.
  - intros. apply process_chunks_spec.
Qed.

Lemma process_chunk_key chunk cache tr k :
  (∀ row, row ∈ chunk → Bottles_Sold row ≠ PosInf) →
  ∃ st, process_chunk sort_values chunk cache tr = Next st ∧
        filter (λ f, fact_key f = k) (fact_records st)
        = expected_for_key cache tr k (sort_values chunk).
Proof.
  intros Hfin.
  destruct (process_rows_returns cache (sort_values chunk) (initial_state tr))
    as [st Hrun].
  { intros row Hrow. apply Hfin. by rewrite <- (sort_values_perm chunk). }
  exists st. split; [exact Hrun|].
  assert (chunk_seen_invoices (initial_state tr) ⊆ tracker (initial_state tr))
    as Hseen by set_solver.
  apply (process_rows_key cache _ _ _ k Hseen Hrun).
Qed.

(** C4, as the code has it. When no row has an infinite [Bottles Sold],
    [process_chunk] returns, and of the rows filed under one key only the one
    processed first can yield a record: the records with that key are the
    record of that row if the key was not tracked before and the row passes
    the later checks, and none otherwise. There is never more than one. *)
Theorem first_row_decides_key chunk cache tr k :
  (∀ row, row ∈ chunk → Bottles_Sold row ≠ PosInf) →
  ∃ st, process_chunk sort_values chunk cache tr = Next st ∧
        filter (λ f, fact_key f = k) (fact_records st)
        = expected_for_key cache tr k (sort_values chunk) ∧
        (length (filter (λ f, fact_key f = k) (fact_records st)) ≤ 1)%nat.
Proof.
  intros Hfin. destruct (process_chunk_key chunk cache tr k Hfin) as (st & Hrun & Hk).
  exists st. split; [exact Hrun|]. split; [exact Hk|]. rewrite Hk.
  unfold expected_for_key. repeat case_match; simpl; lia.
Qed.

(** The rows come out of the sort in the order of the [Date] column. *)
Hypothesis sort_values_sorted : ∀ chunk,
  StronglySorted (λ a b, stamp_leb (Date a) (Date b) = true)
                 (sort_values chunk).

(** With dates that tell the rows of a key apart, the earliest row is the
    one that decides, however the sort breaks ties between other rows. *)
Lemma earliest_row_decides_key chunk cache tr k r :
  (∀ row, row ∈ chunk → Bottles_Sold row ≠ PosInf) →
  r ∈ chunk → row_key r = Some k →
  (∀ r', r' ∈ chunk → row_key r' = Some k →
         r' = r ∨ stamp_leb (Date r') (Date r) = false) →
  ∃ st, process_chunk sort_values chunk cache tr = Next st ∧
        filter (λ f, fact_key f = k) (fact_records st)
        = if decide (k ∈ tr) then []
          else match build_record cache r k.1 with
               | Accept f => [f]
               | _ => []
               end.
Proof.
  intros Hfin Hr Hk Hearly.
  destruct (process_chunk_key chunk cache tr k Hfin) as (st & Hrun & Hkey).
  exists st. split; [exact Hrun|]. rewrite Hkey. unfold expected_for_key.
  rewrite (earliest_row_is_first k (sort_values chunk) r); try done.
  - by rewrite sort_values_perm.
  - intros r' Hr'. apply Hearly. by rewrite <- (sort_values_perm chunk).
Qed.

End ChunkProperties.

Lemma tracked_keys_are_rejected_witness :
  let tr : gset InvoiceKey := {[ ("INV100", Some 2020) ]} in
  let chunk := [sample_row jan2 "INV100" 5; sample_row jan3 "INV200" 4] in
  fact_records (state_of (process_chunk sort_by_date chunk sample_cache tr))
  = [sample_fact 12 "INV200" 4] ∧
  Forall (λ f, fact_key f ∉ tr)
    (fact_records (state_of (process_chunk sort_by_date chunk sample_cache tr))).
Proof.
  split; [vm_compute; reflexivity|].
  apply (tracked_keys_are_rejected sort_by_date).
Defined.

Lemma tracker_only_grows_witness :
  let chunk := [sample_row jan2 "INV100" (-5)] in
  fact_records (state_of (process_chunk sort_by_date chunk sample_cache ∅)) = [] ∧
  ("INV100", Some 2020)
    ∈ tracker (state_of (process_chunk sort_by_date chunk sample_cache ∅)).
Proof.
  split; [vm_compute; reflexivity|].
  destruct (tracker_only_grows sort_by_date sort_by_date_perm
              [sample_row jan2 "INV100" (-5)] sample_cache ∅) as (_ & Hrows & _).
  apply (Hrows _ (sample_row jan2 "INV100" (-5))).
  - vm_compute; reflexivity.
  - apply list_elem_of_singleton. reflexivity.
  - reflexivity.
Defined.

Lemma first_row_decides_key_witness :
  let chunk := [sample_row jan3 "INV100" 3; sample_row jan2 "INV100" 5] in
  ∃ st, process_chunk sort_by_date chunk sample_cache ∅ = Next st ∧
        filter (λ f, fact_key f = ("INV100", Some 2020)) (fact_records st)
        = [sample_fact 11 "INV100" 5].
Proof.
  destruct (first_row_decides_key sort_by_date sort_by_date_perm
              [sample_row jan3 "INV100" 3; sample_row jan2 "INV100" 5]
              sample_cache ∅ ("INV100", Some 2020)) as (st & Hrun & Hk & _).
  - intros row Hrow.
    apply elem_of_cons in Hrow as [->|Hrow]; [discriminate|].
    apply list_elem_of_singleton in Hrow as ->. discriminate.
  - exists st. split; [exact Hrun|]. rewrite Hk. vm_compute; reflexivity.
Defined.

(** C4, as stated, fails: two rows with the same invoice identifier and
    year and different measures, the earlier one with [-5] bottles, yield no
    record at all. The earlier row claims the key and is rejected, the later
    one is then a duplicate. *)
Lemma duplicate_pair_without_record :
  let r1 := sample_row jan2 "INV100" (-5) in
  let r2 := sample_row jan3 "INV100" 3 in
  row_key r1 = Some ("INV100", Some 2020) ∧
  row_key r2 = Some ("INV100", Some 2020) ∧
  Bottles_Sold r1 ≠ Bottles_Sold r2 ∧
  process_chunk sort_by_date [r2; r1] sample_cache ∅
  = Next (claimed ("INV100", Some 2020) (initial_state ∅)) ∧
  fact_records (claimed ("INV100", Some 2020) (initial_state ∅)) = [].
Proof.
  split_and!;
    [reflexivity|reflexivity|intros [=]|vm_compute; reflexivity|reflexivity].
Qed.

(** *** Rows that are skipped *)

(** A row with a missing or non-positive measure is skipped: the loop goes
    on and no record is appended. *)
Lemma invalid_measure_skipped cache st row :
  existsb (λ val, isna val || le_zero val) (required_numeric_fields row) = true →
  ∃ st', process_row cache st row = Next st' ∧
         fact_records st' = fact_records st.
Proof.
  intros Hm. unfold process_row, build_record. rewrite Hm.
  repeat case_match; eexists; (split; [reflexivity|done]).
Qed.

(** C5, the failing input: a row that sells half a bottle passes the check
    [float(val) <= 0] and is stored with [int(0.5)], that is with
    [bottles_sold = 0]. *)
Theorem fractional_bottles_sold_stored_as_zero :
  let row := sample_row jan3 "INV100" (1 # 2) in
  positive_num (Bottles_Sold row) ∧
  process_chunk sort_by_date [row] sample_cache ∅
  = Next (append_record (sample_fact 12 "INV100" 0)
            (claimed ("INV100", Some 2020) (initial_state ∅))) ∧
  bottles_sold (sample_fact 12 "INV100" 0) = 0.
Proof.
  split_and!; [reflexivity| |reflexivity].
  vm_compute; reflexivity.
Qed.

(** *** Surrogate keys *)

(** C10. A row that claims its key and whose measures and natural keys
    are in order is skipped when the cache maps its store, vendor or product
    number to the surrogate key 0, exactly as when the number is not in the
    cache: the number is in the matching set of missing keys afterwards, the
    other two sets and the records are as they were, and the key of the row
    is tracked. A date that maps to 0 skips the row and records nothing: the
    records and the three sets are as they were. The checks are made in this
    order. *)
Theorem zero_surrogate_key_is_unresolved cache st row inv sn vn item :
  Invoice_Item_Number row = Some inv →
  String.eqb inv "" = false →
  (inv, to_year (Date row)) ∉ chunk_seen_invoices st →
  (inv, to_year (Date row)) ∉ tracker st →
  existsb (λ val, isna val || le_zero val) (required_numeric_fields row) = false →
  safe_convert_to_int (Store_Number row) = Some sn →
  safe_convert_to_int (Vendor_Number row) = Some vn →
  safe_convert_to_int (Item_Number row) = Some item →
  let st1 := claimed (inv, to_year (Date row)) st in
  (store_cache cache !! sn = Some 0 ∨ store_cache cache !! sn = None →
   ∃ st', process_row cache st row = Next st' ∧
          st' = add_missing_store sn st1 ∧
          sn ∈ missing_stores st' ∧
          missing_vendors st' = missing_vendors st ∧
          missing_products st' = missing_products st ∧
          fact_records st' = fact_records st ∧
          (inv, to_year (Date row)) ∈ tracker st') ∧
  (truthy (store_cache cache !! sn) = true →
   vendor_cache cache !! vn = Some 0 ∨ vendor_cache cache !! vn = None →
   ∃ st', process_row cache st row = Next st' ∧
          st' = add_missing_vendor vn st1 ∧
          vn ∈ missing_vendors st' ∧
          missing_stores st' = missing_stores st ∧
          missing_products st' = missing_products st ∧
          fact_records st' = fact_records st ∧
          (inv, to_year (Date row)) ∈ tracker st') ∧
  (truthy (store_cache cache !! sn) = true →
   truthy (vendor_cache cache !! vn) = true →
   product_cache cache !! item = Some 0 ∨ product_cache cache !! item = None →
   ∃ st', process_row cache st row = Next st' ∧
          st' = add_missing_product item st1 ∧
          item ∈ missing_products st' ∧
          missing_stores st' = missing_stores st ∧
          missing_vendors st' = missing_vendors st ∧
          fact_records st' = fact_records st ∧
          (inv, to_year (Date row)) ∈ tracker st') ∧
  (truthy (store_cache cache !! sn) = true →
   truthy (vendor_cache cache !! vn) = true →
   truthy (product_cache cache !! item) = true →
   (to_date (Date row) ≫= λ d, date_cache cache !! d) = Some 0 →
   ∃ st', process_row cache st row = Next st' ∧
          st' = st1 ∧
          missing_stores st' = missing_stores st ∧
          missing_vendors st' = missing_vendors st ∧
          missing_products st' = missing_products st ∧
          fact_records st' = fact_records st ∧
          (inv, to_year (Date row)) ∈ tracker st').
Proof.
  intros Hinv Hne Hseen Htr Hm Hs Hv Hi st1.
  unfold process_row. rewrite Hinv, Hne.
  rewrite decide_False by done. rewrite decide_False by done.
  unfold build_record. rewrite Hm, Hs, Hv, Hi. fold st1.
  assert ((inv, to_year (Date row)) ∈ tracker st1) as Hclaimed.
  { unfold st1. simpl. set_solver. }
  split_and!.
  - intros Hstore. exists (add_missing_store sn st1).
    split_and!; [by destruct Hstore as [->| ->]|done| |done..].
    simpl. set_solver.
  - intros -> Hvendor. exists (add_missing_vendor vn st1).
    split_and!; [by destruct Hvendor as [->| ->]|done| |done..].
    simpl. set_solver.
  - intros -> -> Hproduct. exists (add_missing_product item st1).
    split_and!; [by destruct Hproduct as [->| ->]|done| |done..].
    simpl. set_solver.
  - intros -> -> -> ->. by exists st1.
Qed.

Lemma zero_surrogate_key_is_unresolved_witness :
  let row := mkRow (Stamp jan2 0) (Some "INV300") (Some "5000") (Some "260")
                   (Some "x100") (Fin 5) (Fin 7) (Fin 2) (Fin 21) (Fin 2) (Fin 1) in
  store_cache sample_cache !! 5000 = Some 0 ∧
  ∃ st', process_row sample_cache (initial_state ∅) row = Next st' ∧
         5000 ∈ missing_stores st' ∧ fact_records st' = [].
Proof.
  split; [vm_compute; reflexivity|].
  destruct (proj1 (zero_surrogate_key_is_unresolved sample_cache (initial_state ∅)
                   (mkRow (Stamp jan2 0) (Some "INV300") (Some "5000") (Some "260")
                      (Some "x100") (Fin 5) (Fin 7) (Fin 2) (Fin 21) (Fin 2) (Fin 1))
                   "INV300" 5000 260 100
                   eq_refl eq_refl (not_elem_of_empty _) (not_elem_of_empty _)
                   eq_refl eq_refl eq_refl eq_refl)
              (or_introl eq_refl))
    as (st' & Hrun & _ & Hin & _ & _ & Hrec & _).
  exists st'. split_and!; [exact Hrun|exact Hin|exact Hrec].
Defined.

(** ** Cache validation *)

Lemma py_dict_fold_size `{Countable K} {V} (pairs : list (K * V)) (m : gmap K V) :
  NoDup (pairs.*1) → (∀ k, k ∈ pairs.*1 → m !! k = None) →
  size (foldl (λ m kv, <[kv.1 := kv.2]> m) m pairs) = (size m + length pairs)%nat.
Proof.
  revert m. induction pairs as [|[k v] pairs IH]; intros m Hnd Hfresh; simpl.
  - lia.
  - apply NoDup_cons in Hnd as [Hk Hnd]. rewrite IH; [|done|].
    + rewrite map_size_insert_None by (apply Hfresh; set_solver). lia.
    + intros k' Hk'. rewrite lookup_insert_ne by set_solver.
      apply Hfresh. set_solver.
Qed.

(** With distinct keys, [len(dict(rows))] is the number of rows. *)
Lemma py_dict_size `{Countable K} {V} (pairs : list (K * V)) :
  NoDup (pairs.*1) → size (py_dict pairs) = length pairs.
Proof.
  intros Hnd. unfold py_dict. rewrite py_dict_fold_size; [|done|].
  - by rewrite map_size_empty.
  - intros. apply lookup_empty.
Qed.

Lemma sql_min_max_some d dates :
  is_Some (sql_min (d :: dates)) ∧ is_Some (sql_max (d :: dates)).
Proof. simpl. split; case_match; by eexists. Qed.

(** What the two validations decide. With [date_key] a key of [dim_date],
    they pass exactly when [dim_product] has as many rows as the product
    cache has entries and [dim_date] is empty or has as many rows as the date
    cache has entries; in every other case [ValueError] is raised. *)
Lemma validate_caches_spec dim_date dim_product cache :
  NoDup (dim_date.*1) →
  (validate_caches dim_date dim_product cache = inr () ↔
     (dim_date = [] ∨ length dim_date = size (date_cache cache)) ∧
     length dim_product = size (product_cache cache)) ∧
  (validate_caches dim_date dim_product cache ≠ inr () →
   validate_caches dim_date dim_product cache = inl ValueError).
Proof.
  intros Hnd.
  assert (validate_date_keys dim_date cache
          = if decide (dim_date = [] ∨ length dim_date = size (date_cache cache))
            then inr () else inl ValueError) as Hdates.
  { unfold validate_date_keys. destruct dim_date as [|[dk d] rows].
    - destruct (decide (_ ∨ _)) as [_|Hn]; [reflexivity|destruct Hn; by left].
    - destruct (sql_min_max_some d (rows.*2)) as [[mn Hmin] [mx Hmax]].
      rewrite fmap_cons. simpl snd. rewrite Hmin, Hmax.
      rewrite py_dict_size by done.
      repeat case_decide; try done; exfalso; naive_solver. }
  unfold validate_caches. rewrite Hdates. unfold validate_product_cache.
  repeat case_decide; simpl; split; try done; split; try done; naive_solver.
Qed.

(** C6. After the caches are loaded from the dimension tables, as [main]
    does before it validates them, and with [date_key] a key of [dim_date]:
    if the date cache or the product cache has another number of entries
    than its table has rows, validation raises [ValueError], which [main]
    does not catch; if both numbers agree, validation returns. *)
Theorem cache_validation dim_date dim_product dim_store dim_vendor :
  NoDup (dim_date.*1) →
  let cache := load_caches dim_date dim_product dim_store dim_vendor in
  (size (date_cache cache) ≠ length dim_date ∨
   size (product_cache cache) ≠ length dim_product →
   validate_caches dim_date dim_product cache = inl ValueError) ∧
  (size (date_cache cache) = length dim_date →
   size (product_cache cache) = length dim_product →
   validate_caches dim_date dim_product cache = inr ()).
Proof.
  intros Hnd cache.
  destruct (validate_caches_spec dim_date dim_product cache Hnd) as [Hiff Herr].
  split.
  - intros Hdiff. apply Herr. intros [Hdates Hproducts]%Hiff.
    destruct Hdiff as [Hd|Hp]; [|by rewrite Hproducts in Hp].
    destruct Hdates as [->|Hlen]; [|by rewrite Hlen in Hd].
    by destruct Hd.
  - intros Hdates Hproducts. apply Hiff. split; [by right|done].
Qed.

Lemma cache_validation_witness :
  validate_caches [(11, jan2); (12, jan3)] [(7, 100)]
    (load_caches [(11, jan2); (12, jan3)] [(7, 100)] [] []) = inr () ∧
  validate_caches [(11, jan2)] [(7, 100); (8, 100)]
    (load_caches [(11, jan2)] [(7, 100); (8, 100)] [] []) = inl ValueError.
Proof.
  split.
  - apply (cache_validation [(11, jan2); (12, jan3)] [(7, 100)] [] []).
    + apply (bool_decide_unpack _). vm_compute. exact I.
    + vm_compute. reflexivity.
    + vm_compute. reflexivity.
  - apply (cache_validation [(11, jan2)] [(7, 100); (8, 100)] [] []).
    + apply (bool_decide_unpack _). vm_compute. exact I.
    + right. vm_compute. lia.
Defined.

(** ** The product pass *)

Lemma fix_bottle_volume_positive v : positive_num (fix_bottle_volume v).
Proof.
  unfold fix_bottle_volume, fillna.
  destruct v as [|q| |]; simpl; try done.
  destruct (Qle_bool q 0) eqn:Hq; simpl; [done|].
  apply Qnot_le_lt. intros Hle. apply Qle_bool_iff in Hle. congruence.
Qed.

(** The volume is positive before [int(float(...))] and not negative after
    it; a missing, zero or negative volume is loaded as 750. *)
Lemma product_record_volume float_of_str row rec :
  product_record float_of_str row = inr rec →
  0 ≤ bottle_volume_ml rec ∧
  (isna (P_Bottle_Volume_ml row) || le_zero (P_Bottle_Volume_ml row) = true →
   bottle_volume_ml rec = 750).
Proof.
  unfold product_record. intros Hrec.
  destruct (match P_Item_Number row with
            | Number _ => _ | Text _ => _ end) as [|n]; [done|].
  simpl in Hrec.
  destruct (if notna (fillna (Fin 0) (P_Category row)) then _ else _) as [|c];
    [done|]. simpl in Hrec.
  destruct (if notna (fillna (Fin 1) (P_Pack row)) then _ else _) as [|p];
    [done|]. simpl in Hrec.
  pose proof (fix_bottle_volume_positive (P_Bottle_Volume_ml row)) as Hpos.
  destruct (int_of_num (fix_bottle_volume (P_Bottle_Volume_ml row)))
    as [|b] eqn:Hb; [done|].
  simpl in Hrec. injection Hrec as <-. simpl. split.
  - destruct (fix_bottle_volume (P_Bottle_Volume_ml row)) as [|q| |];
      simplify_eq/=.
    apply Z.quot_pos; [|done]. unfold Qlt in Hpos. simpl in Hpos. lia.
  - intros Hbad. unfold fix_bottle_volume, fillna in Hb.
    destruct (P_Bottle_Volume_ml row) as [|q| |]; simpl in *;
      try done; try (by injection Hb as <-).
    rewrite Hbad in Hb. by injection Hb as <-.
Qed.

(** C8, the failing input: a product whose bottle volume is half a
    millilitre passes the replacement of lines 305-306 and is loaded with
    [int(float(0.5))], that is with bottle volume 0. *)
Theorem fractional_bottle_volume_loaded_as_zero float_of_str :
  positive_num (P_Bottle_Volume_ml (sample_product (Fin (1 # 2)))) ∧
  process_all_products float_of_str [sample_product (Fin (1 # 2))]
  = inr [mkProduct 101 "Vodka" 1031100 "VODKA" 12 0].
Proof. split; reflexivity. Qed.

(** ** Checkpoints *)

Lemma split_no_sep sep s :
  Py.all_chars (λ c, negb (Ascii.eqb c sep)) s = true → Py.split sep s = [s].
Proof.
  induction s as [|c s IH]; [done|]. simpl.
  intros [Hc Hs]%andb_true_iff. apply negb_true_iff in Hc.
  by rewrite Hc, IH.
Qed.

Lemma split_until_sep sep d r :
  Py.all_chars (λ c, negb (Ascii.eqb c sep)) d = true →
  Py.split sep (d +:+ String sep r) = d :: Py.split sep r.
Proof.
  induction d as [|c d IH]; simpl.
  - intros _. by rewrite Ascii.eqb_refl.
  - intros [Hc Hd]%andb_true_iff. apply negb_true_iff in Hc.
    by rewrite Hc, IH.
Qed.

Lemma startswith_app p s : Py.startswith p (p +:+ s) = true.
Proof.
  unfold Py.startswith. induction p as [|c p IH]; simpl; [by destruct s|].
  by destruct (ascii_dec c c).
Qed.

Lemma endswith_app p s : Py.endswith p (s +:+ p) = true.
Proof.
  induction s as [|c s IH].
  - change ("" +:+ p) with p. destruct p as [|a p]; [reflexivity|].
    change (Py.endswith (String a p) (String a p))
      with (String.eqb (String a p) (String a p) || Py.endswith (String a p) p).
    by rewrite String.eqb_refl.
  - change (String c s +:+ p) with (String c (s +:+ p)).
    change (Py.endswith p (String c (s +:+ p)))
      with (String.eqb (String c (s +:+ p)) p || Py.endswith p (s +:+ p)).
    rewrite IH. apply orb_true_r.
Qed.

Lemma endswith_prepend a p s :
  Py.endswith p s = true → Py.endswith p (a +:+ s) = true.
Proof.
  intros Hs. induction a as [|c a IH]; [done|].
  change (String c a +:+ s) with (String c (a +:+ s)).
  change (Py.endswith p (String c (a +:+ s)))
    with (String.eqb (String c (a +:+ s)) p || Py.endswith p (a +:+ s)).
  rewrite IH. apply orb_true_r.
Qed.

Lemma pretty_nonneg (now : Z) : 0 ≤ now → pretty now = pretty (Z.to_N now).
Proof. by destruct now. Qed.

Lemma is_checkpoint_file_name now : is_checkpoint_file (checkpoint_name now) = true.
Proof.
  unfold is_checkpoint_file, checkpoint_name.
  rewrite startswith_app. simpl andb.
  apply endswith_prepend, endswith_app.
Qed.

(** The identifier read from a file name is the time it was written at. *)
Lemma checkpoint_id_name now :
  0 ≤ now < 10 ^ Z.of_nat Py.int_max_str_digits →
  checkpoint_id (checkpoint_name now) = inr now.
Proof.
  intros [Hpos Hlim]. unfold checkpoint_id, checkpoint_name.
  rewrite pretty_nonneg by done.
  pose proof (pretty_digits (Z.to_N now)) as Hd.
  change (Py.split "_" ("invoice_tracker_" +:+ pretty (Z.to_N now) +:+ ".pkl"))
    with ("invoice" :: "tracker" :: Py.split "_" (pretty (Z.to_N now) +:+ ".pkl")).
  rewrite split_no_sep.
  2:{ change (pretty (Z.to_N now) +:+ ".pkl")
        with (pretty (Z.to_N now) +:+ String "." "pkl").
      clear -Hd. induction (pretty (Z.to_N now)) as [|c s IH]; [done|].
      simpl in *. apply andb_true_iff in Hd as [Hc Hs]. rewrite IH by done.
      rewrite andb_true_r. clear -Hc. each_char c; done. }
  simpl lookup. cbv beta iota.
  change (pretty (Z.to_N now) +:+ ".pkl")
    with (pretty (Z.to_N now) +:+ String "." "pkl").
  rewrite split_until_sep.
  2:{ eapply all_chars_impl; [|exact Hd]. intros c Hc. clear -Hc. each_char c; done. }
  simpl lookup. cbv beta iota. rewrite int_of_str_pretty by lia. f_equal. lia.
Qed.

Lemma read_write_file name f dir :
  read_file name (write_file name f dir) = Some f.
Proof.
  induction dir as [|[n g] dir IH]; simpl.
  - by rewrite String.eqb_refl.
  - destruct (String.eqb n name) eqn:E; simpl; by rewrite E.
Qed.

Lemma write_file_names name f dir n :
  n ∈ (write_file name f dir).*1 ↔ n = name ∨ n ∈ dir.*1.
Proof.
  induction dir as [|[m g] dir IH]; simpl.
  - set_solver.
  - destruct (String.eqb m name) eqn:E; simpl.
    + apply String.eqb_eq in E as ->. set_solver.
    + rewrite !elem_of_cons, IH. tauto.
Qed.


(** [max] returns an item whose key is the greatest, if no key raises. *)
Lemma max_by_key_spec key items best bk r :
  key best = inr bk →
  max_by_key key best bk items = inr r →
  r ∈ best :: items ∧
  ∃ rk, key r = inr rk ∧ bk ≤ rk ∧
        ∀ f, f ∈ items → ∃ k, key f = inr k ∧ k ≤ rk.
Proof.
  revert best bk. induction items as [|f items IH]; intros best bk Hb; simpl.
  - intros [= <-]. split; [left|]. exists bk. split; [done|]. split; [lia|].
    intros f Hf. inversion Hf.
  - destruct (key f) as [e|k] eqn:Hk; [done|].
    destruct (bk <? k) eqn:Hlt; intros Hmax.
    + apply Z.ltb_lt in Hlt.
      destruct (IH f k Hk Hmax) as (Hin & rk & Hr & Hle & Hall).
      split; [set_solver|]. exists rk. split; [done|]. split; [lia|].
      intros g [->|Hg]%elem_of_cons; [by exists k|by apply Hall].
    + apply Z.ltb_ge in Hlt.
      destruct (IH best bk Hb Hmax) as (Hin & rk & Hr & Hle & Hall).
      split; [set_solver|]. exists rk. split; [done|]. split; [done|].
      intros g [->|Hg]%elem_of_cons; [exists k; split; [done|lia]|by apply Hall].
Qed.

Lemma max_by_key_total key items best bk :
  (∀ f, f ∈ items → ∃ k, key f = inr k) →
  ∃ r, max_by_key key best bk items = inr r.
Proof.
  revert best bk. induction items as [|f items IH]; intros best bk Hall; simpl.
  - by eexists.
  - destruct (Hall f) as [k ->]; [left|].
    destruct (bk <? k); apply IH; intros g Hg; apply Hall; by right.
Qed.

(** The core of the round trip, for a directory whose checkpoint files were
    written no later than [now]. *)
Lemma load_after_save now tr tr0 checkpoint_dir :
  0 ≤ now < 10 ^ Z.of_nat Py.int_max_str_digits →
  written_before now (default [] checkpoint_dir) →
  load_tracker_checkpoint (save_tracker_checkpoint now tr checkpoint_dir) tr0
  = inr (true, pickle_load tr).
Proof.
  intros Hnow Hdir. unfold save_tracker_checkpoint, load_tracker_checkpoint.
  set (dir := default [] checkpoint_dir) in *.
  set (nm := checkpoint_name now).
  set (dir' := write_file nm (Pickle tr) dir).
  assert (∀ f, f ∈ filter (λ f, is_checkpoint_file f = true) (dir'.*1) →
               ∃ t, 0 ≤ t ≤ now ∧ f = checkpoint_name t ∧ checkpoint_id f = inr t)
    as Hfiles.
  { intros f [Hcp Hin]%list_elem_of_filter.
    apply write_file_names in Hin as [->|Hin].
    - exists now. split; [lia|]. split; [done|]. by apply checkpoint_id_name.
    - destruct (Hdir f Hin Hcp) as (t & Ht & ->). exists t.
      split; [done|]. split; [done|]. apply checkpoint_id_name. lia. }
  assert (nm ∈ filter (λ f, is_checkpoint_file f = true) (dir'.*1)) as Hnm.
  { apply list_elem_of_filter. split; [apply is_checkpoint_file_name|].
    apply write_file_names. by left. }
  destruct (filter (λ f, is_checkpoint_file f = true) (dir'.*1))
    as [|f0 files]; [inversion Hnm|].
  destruct (Hfiles f0) as (t0 & Ht0 & Hf0 & Hid0); [left|].
  rewrite Hid0. simpl.
  destruct (max_by_key_total checkpoint_id files f0 t0) as [r Hr].
  { intros f Hf. destruct (Hfiles f) as (t & _ & _ & Hid); [by right|].
    by exists t. }
  rewrite Hr. simpl.
  destruct (max_by_key_spec _ _ _ _ _ Hid0 Hr) as (Hrin & rk & Hrk & Hle & Hall).
  destruct (Hfiles r Hrin) as (tr' & Htr' & Hrname & Hrid).
  assert (rk = tr') as -> by congruence.
  assert (now ≤ tr') as Hge.
  { apply elem_of_cons in Hnm as [Heq|Hin].
    - assert (checkpoint_id nm = inr t0) as Hn by (by rewrite Heq).
      unfold nm in Hn. rewrite checkpoint_id_name in Hn by done.
      injection Hn as ->. done.
    - destruct (Hall nm Hin) as (k & Hk & Hkle).
      unfold nm in Hk. rewrite checkpoint_id_name in Hk by done.
      injection Hk as <-. done. }
  assert (tr' = now) as -> by lia.
  rewrite Hrname. fold nm. unfold dir'. by rewrite read_write_file.
Qed.

Lemma elem_of_pickle_load saved k :
  k ∈ pickle_load saved ↔ k ∈ saved ∧ is_Some k.2.
Proof. unfold pickle_load. rewrite elem_of_filter. tauto. Qed.

Lemma pickle_load_all saved :
  pickle_load saved = saved ↔ ∀ k, k ∈ saved → is_Some k.2.
Proof.
  split.
  - intros Heq k Hk. rewrite <- Heq in Hk.
    by apply elem_of_pickle_load in Hk as [_ ?].
  - intros Hall. apply set_eq. intros k. rewrite elem_of_pickle_load.
    naive_solver.
Qed.




(** ** Callers that claim the same key *)

Lemma serial_schedule_cons i order :
  serial_schedule (i :: order) = [i; i] ++ serial_schedule order.
Proof. done. Qed.

(** A caller that runs its two steps in a row gets [False] if the key is
    tracked and claims it otherwise. *)
Lemma run_one_caller key tr pcs i :
  pcs !! i = Some AtTest →
  run_schedule key [i; i] (tr, pcs)
  = if decide (key ∈ tr) then (tr, <[i := Done false]> pcs)
    else ({[ key ]} ∪ tr, <[i := Done true]> pcs).
Proof.
  intros Hi. assert (i < length pcs)%nat as Hlen by (by eapply lookup_lt_Some).
  unfold run_schedule. simpl. unfold sched_step at 2. simpl. rewrite Hi. simpl.
  destruct (decide (key ∈ tr)); unfold sched_step; simpl;
    rewrite list_lookup_insert_eq by done; simpl;
    by rewrite list_insert_insert_eq.
Qed.

Lemma run_later_callers key tr pcs order :
  key ∈ tr → NoDup order →
  (∀ i, i ∈ order → pcs !! i = Some AtTest) →
  ∃ pcs', run_schedule key (serial_schedule order) (tr, pcs) = (tr, pcs') ∧
          (∀ i, i ∈ order → pcs' !! i = Some (Done false)) ∧
          (∀ j, j ∉ order → pcs' !! j = pcs !! j).
Proof.
  intros Hkey. revert pcs. induction order as [|i order IH]; intros pcs Hnd Hat.
  - exists pcs. split; [done|]. split; [|done]. intros i Hi. inversion Hi.
  - apply NoDup_cons in Hnd as [Hi Hnd].
    rewrite serial_schedule_cons. unfold run_schedule. rewrite foldl_app.
    fold (run_schedule key [i; i] (tr, pcs)).
    rewrite run_one_caller by (apply Hat; left). rewrite decide_True by done.
    destruct (IH (<[i := Done false]> pcs) Hnd) as (pcs' & Hrun & Hin & Hout).
    { intros j Hj. rewrite list_lookup_insert_ne by set_solver.
      apply Hat. by right. }
    exists pcs'. split; [exact Hrun|]. split.
    + intros j [->|Hj]%elem_of_cons; [|by apply Hin].
      rewrite Hout by done. apply list_lookup_insert_eq.
      eapply lookup_lt_Some, Hat. left.
    + intros j Hj. rewrite Hout by set_solver.
      apply list_lookup_insert_ne. set_solver.
Qed.

(** C1, as the code has it. When the callers claim a key that is not
    tracked one after the other, each running its test and its insertion
    with no step of another caller in between, the first caller gets [True]
    and every other caller gets [False]. *)
Theorem serial_callers_one_winner key tr first others n :
  key ∉ tr → NoDup (first :: others) →
  (∀ i, i ∈ first :: others → (i < n)%nat) →
  ∃ pcs,
    run_schedule key (serial_schedule (first :: others)) (tr, replicate n AtTest)
    = ({[ key ]} ∪ tr, pcs) ∧
    pcs !! first = Some (Done true) ∧
    ∀ i, i ∈ others → pcs !! i = Some (Done false).
Proof.
  intros Hkey [Hfirst Hnd]%NoDup_cons Hlt.
  rewrite serial_schedule_cons. unfold run_schedule. rewrite foldl_app.
  fold (run_schedule key [first; first] (tr, replicate n AtTest)).
  rewrite run_one_caller by (apply lookup_replicate_2, Hlt; left).
  rewrite decide_False by done.
  destruct (run_later_callers key ({[ key ]} ∪ tr)
              (<[first := Done true]> (replicate n AtTest)) others)
    as (pcs & Hrun & Hin & Hout); [set_solver|done| |].
  { intros i Hi. rewrite list_lookup_insert_ne by set_solver.
    apply lookup_replicate_2, Hlt. by right. }
  exists pcs. split; [exact Hrun|]. split; [|exact Hin].
  rewrite Hout by done. apply list_lookup_insert_eq.
  rewrite length_replicate. apply Hlt. left.
Qed.

Lemma serial_callers_one_winner_witness :
  ∃ pcs,
    run_schedule ("INV100", Some 2020) [1; 1; 0; 0; 2; 2]%nat
      (∅, [AtTest; AtTest; AtTest])
    = ({[ ("INV100", Some 2020) ]} ∪ ∅, pcs) ∧
    pcs !! 1%nat = Some (Done true) ∧
    ∀ i, i ∈ [0; 2]%nat → pcs !! i = Some (Done false).
Proof.
  apply (serial_callers_one_winner ("INV100", Some 2020) ∅ 1%nat [0; 2]%nat 3).
  - apply not_elem_of_empty.
  - apply (bool_decide_unpack _). vm_compute. exact I.
  - intros i Hi. apply (bool_decide_unpack _).
    repeat (apply elem_of_cons in Hi as [->|Hi]; [vm_compute; exact I|]).
    inversion Hi.
Defined.

(** C1, as stated, fails: two callers that both test before either inserts
    both find the key absent and both get [True]. *)
Lemma interleaved_callers_both_win :
  run_schedule ("INV100", Some 2020) [0; 1; 0; 1]%nat (∅, [AtTest; AtTest])
  = ({[ ("INV100", Some 2020) ]}, [Done true; Done true]).
Proof. vm_compute. reflexivity. Qed.

(** ** [parse_point] *)

Lemma strip_prefix_app p s : strip_prefix p (p +:+ s) = Some s.
Proof.
  induction p as [|a p IH]; [by destruct s|].
  change (String a p +:+ s) with (String a (p +:+ s)). simpl.
  by rewrite Ascii.eqb_refl.
Qed.

Lemma strip_prefix_sound p s r : strip_prefix p s = Some r → s = p +:+ r.
Proof.
  revert s. induction p as [|a p IH]; intros s.
  - destruct s; simpl; by intros [= <-].
  - destruct s as [|b s]; simpl; [done|].
    destruct (Ascii.eqb_spec a b) as [->|]; [|done].
    intros H. by rewrite (IH s H).
Qed.

Lemma span_coord_sound s run rest :
  span_coord s = (run, rest) →
  s = run +:+ rest ∧ Py.all_chars is_coord_char run = true.
Proof.
  revert run rest. induction s as [|c s IH]; intros run rest; simpl.
  - by intros [= <- <-].
  - destruct (is_coord_char c) eqn:Hc; [|by intros [= <- <-]].
    destruct (span_coord s) as [run' rest']. intros [= <- <-].
    destruct (IH run' rest' eq_refl) as [-> Hrun]. simpl. by rewrite Hc, Hrun.
Qed.

(** A run of coordinate characters followed by another character is read
    whole. *)
Lemma span_coord_run run c rest :
  Py.all_chars is_coord_char run = true → is_coord_char c = false →
  span_coord (run +:+ String c rest) = (run, String c rest).
Proof.
  intros Hrun Hc. induction run as [|a run IH].
  - simpl. by rewrite Hc.
  - simpl in Hrun. apply andb_true_iff in Hrun as [Ha Hrun].
    change (String a run +:+ String c rest)
      with (String a (run +:+ String c rest)).
    simpl. by rewrite Ha, (IH Hrun).
Qed.

Lemma match_point_at_sound s lon lat :
  match_point_at s = Some (lon, lat) →
  ∃ post, s = "POINT (" +:+ lon +:+ " " +:+ lat +:+ ")" +:+ post ∧
          lon ≠ "" ∧ lat ≠ "" ∧
          Py.all_chars is_coord_char lon = true ∧
          Py.all_chars is_coord_char lat = true.
Proof.
  unfold match_point_at.
  destruct (strip_prefix "POINT (" s) as [after|] eqn:Hpre; [|done].
  apply strip_prefix_sound in Hpre as ->.
  destruct (span_coord after) as [run1 rest1] eqn:H1.
  apply span_coord_sound in H1 as [-> Hrun1].
  destruct run1 as [|c lon']; [done|].
  destruct rest1 as [|sp after_lon]; [done|].
  each_char sp; try (simpl; done).
  destruct (span_coord after_lon) as [run2 rest2] eqn:H2.
  apply span_coord_sound in H2 as [-> Hrun2].
  destruct run2 as [|d lat']; [done|].
  destruct rest2 as [|par post]; [done|].
  each_char par; try (simpl; done).
  intros [= <- <-]. exists post. split_and!; try done.
Qed.

(** X1. A WKT point whose two coordinates are written with digits, signs
    and dots is turned into the EWKT text with the same two coordinates and
    SRID 4326, whatever follows the closing parenthesis. *)
Theorem parse_point_well_formed lon lat tail :
  lon ≠ "" → lat ≠ "" →
  Py.all_chars is_coord_char lon = true →
  Py.all_chars is_coord_char lat = true →
  parse_point (Some ("POINT (" +:+ lon +:+ " " +:+ lat +:+ ")" +:+ tail))
  = Some ("SRID=4326;POINT(" +:+ lon +:+ " " +:+ lat +:+ ")").
Proof.
  intros Hlon Hlat Hclon Hclat. unfold parse_point.
  assert (match_point_at ("POINT (" +:+ lon +:+ " " +:+ lat +:+ ")" +:+ tail)
          = Some (lon, lat)) as Hm.
  { unfold match_point_at. rewrite strip_prefix_app.
    change (" " +:+ lat +:+ ")" +:+ tail) with (String " " (lat +:+ ")" +:+ tail)).
    rewrite span_coord_run by done.
    destruct lon as [|c lon']; [done|].
    change (")" +:+ tail) with (String ")" tail).
    rewrite span_coord_run by done.
    by destruct lat as [|d lat']. }
  change ("POINT (" +:+ lon +:+ " " +:+ lat +:+ ")" +:+ tail)
    with (String "P" ("OINT (" +:+ lon +:+ " " +:+ lat +:+ ")" +:+ tail)) in *.
  change (search_point (String "P" ("OINT (" +:+ lon +:+ " " +:+ lat +:+ ")" +:+ tail)))
    with (match match_point_at
                   (String "P" ("OINT (" +:+ lon +:+ " " +:+ lat +:+ ")" +:+ tail)) with
          | Some groups => Some groups
          | None => search_point ("OINT (" +:+ lon +:+ " " +:+ lat +:+ ")" +:+ tail)
          end).
  by rewrite Hm.
Qed.

Lemma parse_point_well_formed_witness :
  parse_point (Some "POINT (-93.596754 41.554101)")
  = Some "SRID=4326;POINT(-93.596754 41.554101)".
Proof.
  apply (parse_point_well_formed "-93.596754" "41.554101" "");
    [discriminate|discriminate|reflexivity|reflexivity].
Defined.

Lemma search_point_sound s lon lat :
  search_point s = Some (lon, lat) →
  ∃ pre post, s = pre +:+ "POINT (" +:+ lon +:+ " " +:+ lat +:+ ")" +:+ post ∧
              lon ≠ "" ∧ lat ≠ "" ∧
              Py.all_chars is_coord_char lon = true ∧
              Py.all_chars is_coord_char lat = true.
Proof.
  induction s as [|c s IH]; [done|].
  - change (search_point (String c s))
      with (match match_point_at (String c s) with
            | Some groups => Some groups
            | None => search_point s
            end).
    destruct (match_point_at (String c s)) as [g|] eqn:Hm.
    + intros [= ->]. apply match_point_at_sound in Hm as (post & ? & ?).
      by exists "", post.
    + intros (pre & post & -> & ?)%IH. by exists (String c pre), post.
Qed.

(** X2. Whatever [parse_point] returns is built from two coordinates that
    stand in the input as [POINT (lon lat)]: two non-empty runs of digits,
    signs and dots. A missing cell gives [None]. *)
Theorem parse_point_sound s out :
  parse_point (Some s) = Some out →
  ∃ pre lon lat post,
    s = pre +:+ "POINT (" +:+ lon +:+ " " +:+ lat +:+ ")" +:+ post ∧
    out = "SRID=4326;POINT(" +:+ lon +:+ " " +:+ lat +:+ ")" ∧
    lon ≠ "" ∧ lat ≠ "" ∧
    Py.all_chars is_coord_char lon = true ∧
    Py.all_chars is_coord_char lat = true.
Proof.
  unfold parse_point.
  destruct (search_point s) as [[lon lat]|] eqn:Hs; [|done].
  intros [= <-].
  apply search_point_sound in Hs as (pre & post & -> & Hlon & Hlat & Hcl & Hcla).
  exists pre, lon, lat, post. by split_and!.
Qed.

Lemma parse_point_sound_witness :
  ∃ pre lon lat post,
    "Store at POINT (-93.6 42.0), Ames"
    = pre +:+ "POINT (" +:+ lon +:+ " " +:+ lat +:+ ")" +:+ post ∧
    "SRID=4326;POINT(-93.6 42.0)" = "SRID=4326;POINT(" +:+ lon +:+ " " +:+ lat +:+ ")" ∧
    lon ≠ "" ∧ lat ≠ "" ∧
    Py.all_chars is_coord_char lon = true ∧
    Py.all_chars is_coord_char lat = true.
Proof.
  apply (parse_point_sound "Store at POINT (-93.6 42.0), Ames"
           "SRID=4326;POINT(-93.6 42.0)").
  vm_compute. reflexivity.
Defined.

(** ** Frames, batches and [load_fact_records_batch] *)

Lemma drop_duplicates_from_spec `{Countable K} {A} (key : A → K) seen rows :
  drop_duplicates_from key seen rows `sublist_of` rows ∧
  NoDup (key <$> drop_duplicates_from key seen rows) ∧
  (∀ x, x ∈ drop_duplicates_from key seen rows → key x ∉ seen) ∧
  (∀ x, x ∈ rows →
        key x ∈ seen ∨ key x ∈ key <$> drop_duplicates_from key seen rows).
Proof.
  revert seen. induction rows as [|row rows IH]; intros seen; simpl.
  - split_and!; [done|constructor|intros x Hx; inversion Hx..].
  - destruct (decide (key row ∈ seen)) as [Hin|Hin].
    + destruct (IH seen) as (Hsub & Hnd & Hout & Hall).
      split_and!; [by apply sublist_cons|done|done|].
      intros x [->|Hx]%elem_of_cons; [by left|by apply Hall].
    + destruct (IH ({[ key row ]} ∪ seen)) as (Hsub & Hnd & Hout & Hall).
      split_and!.
      * by apply sublist_skip.
      * rewrite fmap_cons. apply NoDup_cons. split; [|done].
        intros (x & Hk & Hx)%list_elem_of_fmap.
        apply (Hout x Hx). apply elem_of_union. left.
        apply elem_of_singleton. congruence.
      * intros x [->|Hx]%elem_of_cons; [done|].
        specialize (Hout x Hx). set_solver.
      * intros x [->|Hx]%elem_of_cons.
        -- right. rewrite fmap_cons. left.
        -- destruct (Hall x Hx) as [[->%elem_of_singleton|?]%elem_of_union|?].
           ++ right. rewrite fmap_cons. left.
           ++ by left.
           ++ right. rewrite fmap_cons. by right.
Qed.

Lemma drop_duplicates_from_id `{Countable K} {A} (key : A → K) seen rows :
  NoDup (key <$> rows) → (∀ x, x ∈ rows → key x ∉ seen) →
  drop_duplicates_from key seen rows = rows.
Proof.
  revert seen. induction rows as [|row rows IH]; intros seen Hnd Hseen; [done|].
  simpl. rewrite fmap_cons in Hnd. apply NoDup_cons in Hnd as [Hrow Hnd].
  rewrite decide_False by (apply Hseen; left). f_equal.
  apply IH; [done|]. intros x Hx [Heq%elem_of_singleton|Hin]%elem_of_union.
  - apply Hrow. apply list_elem_of_fmap. by exists x.
  - apply (Hseen x); [by right|done].
Qed.

Lemma drop_duplicates_from_snoc `{Countable K} {A} (key : A → K) seen rows row :
  key row ∈ seen ∨ key row ∈ key <$> rows →
  drop_duplicates_from key seen (rows ++ [row])
  = drop_duplicates_from key seen rows.
Proof.
  revert seen. induction rows as [|r rows IH]; intros seen Hrow; simpl.
  - destruct Hrow as [Hin|Hin]; [by rewrite decide_True|inversion Hin].
  - destruct (decide (key r ∈ seen)) as [Hr|Hr].
    + apply IH. destruct Hrow as [?|Hin]; [by left|].
      rewrite fmap_cons in Hin. apply elem_of_cons in Hin as [->|?];
        [by left|by right].
    + f_equal. apply IH. destruct Hrow as [?|Hin]; [left; set_solver|].
      rewrite fmap_cons in Hin. apply elem_of_cons in Hin as [->|?];
        [left; set_solver|by right].
Qed.

(** X3. The rows that [load_fact_records_batch] copies are rows of the
    batch, in their order, with no NaN measure and with pairwise distinct
    (invoice, year) pairs; and the pair of every record of the batch without
    NaN is among them. *)
Theorem load_fact_records_batch_spec records :
  load_fact_records_batch records `sublist_of` records ∧
  NoDup (fact_key <$> load_fact_records_batch records) ∧
  Forall (λ f, existsb isna (numeric_cols f) = false)
         (load_fact_records_batch records) ∧
  Forall (λ f, existsb isna (numeric_cols f) = false →
               fact_key f ∈ fact_key <$> load_fact_records_batch records)
         records.
Proof.
  unfold load_fact_records_batch, drop_duplicates.
  set (kept := filter (λ f, existsb isna (numeric_cols f) = false) records).
  destruct (drop_duplicates_from_spec fact_key ∅ kept) as (Hsub & Hnd & _ & Hall).
  split_and!.
  - etrans; [exact Hsub|]. apply sublist_filter.
  - done.
  - apply Forall_forall. intros f Hf.
    assert (f ∈ kept) as Hk by (by eapply sublist_subseteq).
    by apply list_elem_of_filter in Hk as [? _].
  - apply Forall_forall. intros f Hf Hok.
    destruct (Hall f) as [Hin|Hin]; [|set_solver|done].
    by apply list_elem_of_filter.
Qed.

Lemma load_fact_records_batch_spec_witness :
  load_fact_records_batch [sample_fact 11 "INV100" 5; sample_fact 12 "INV100" 3]
  = [sample_fact 11 "INV100" 5] ∧
  NoDup (fact_key <$> load_fact_records_batch
                        [sample_fact 11 "INV100" 5; sample_fact 12 "INV100" 3]).
Proof.
  split; [vm_compute; reflexivity|].
  exact (proj1 (proj2 (load_fact_records_batch_spec
                         [sample_fact 11 "INV100" 5; sample_fact 12 "INV100" 3]))).
Defined.

Lemma slices_go_spec {A} fuel n (l : list A) :
  (0 < n)%nat → (length l ≤ fuel)%nat →
  concat (slices_go fuel n l) = l ∧
  Forall (λ b, b ≠ [] ∧ (length b ≤ n)%nat ∧ b `sublist_of` l) (slices_go fuel n l) ∧
  length (slices_go fuel n l) = ((length l + n - 1) / n)%nat.
Proof.
  intros Hn. revert l. induction fuel as [|fuel IH]; intros l Hlen.
  - destruct l; [|simpl in Hlen; lia]. simpl. split_and!; [done|constructor|].
    symmetry. apply Nat.div_small. lia.
  - destruct l as [|a l].
    { simpl. split_and!; [done|constructor|].
      symmetry. apply Nat.div_small. lia. }
    change (slices_go (S fuel) n (a :: l))
      with (take n (a :: l) :: slices_go fuel n (drop n (a :: l))).
    destruct (IH (drop n (a :: l))) as (Hcat & Hall & Hcount).
    { rewrite length_drop. simpl in *. lia. }
    split_and!.
    + simpl concat. rewrite Hcat. apply take_drop.
    + constructor.
      * split_and!; [destruct n; [lia|done]| |apply sublist_take].
        rewrite length_take. lia.
      * eapply Forall_impl; [exact Hall|]. intros b (? & ? & Hsub).
        split_and!; [done..|]. etrans; [exact Hsub|apply sublist_drop].
    + simpl length at 1. rewrite Hcount, length_drop. simpl length.
      destruct (decide (S (length l) ≤ n)%nat) as [Hle|Hgt].
      * replace (S (length l) - n)%nat with 0%nat by lia.
        rewrite (Nat.div_small (0 + n - 1) n) by lia.
        apply (Nat.div_unique _ _ 1 (length l)); lia.
      * replace (S (length l) + n - 1)%nat
          with ((S (length l) - n + n - 1) + 1 * n)%nat by lia.
        rewrite Nat.div_add by lia. lia.
Qed.

(** X4. The slices of a list by a positive step, as [main] cuts the records
    of a chunk into batches (and the product and vendor passes their
    records): put end to end they give the list back, none is empty or
    longer than the step, and there are [(len + n - 1) // n] of them. *)
Theorem slices_partition {A} n (l : list A) :
  (0 < n)%nat →
  concat (slices n l) = l ∧
  Forall (λ b, b ≠ [] ∧ (length b ≤ n)%nat) (slices n l) ∧
  length (slices n l) = ((length l + n - 1) / n)%nat.
Proof.
  intros Hn. destruct (slices_go_spec (length l) n l Hn) as (Hcat & Hall & Hcount);
    [done|].
  split_and!; [done| |done].
  eapply Forall_impl; [exact Hall|]. by intros b (? & ? & _).
Qed.

Lemma slices_partition_witness :
  concat (slices 2 [1; 2; 3; 4; 5]) = [1; 2; 3; 4; 5] ∧
  Forall (λ b, b ≠ [] ∧ (length b ≤ 2)%nat) (slices 2 [1; 2; 3; 4; 5]) ∧
  length (slices 2 [1; 2; 3; 4; 5]) = ((length [1; 2; 3; 4; 5] + 2 - 1) / 2)%nat.
Proof. apply (slices_partition 2 [1; 2; 3; 4; 5]). lia. Defined.

Lemma batch_size_positive : (0 < batch_size)%nat.
Proof. unfold batch_size. lia. Qed.

Section Batches.

Variable sort_values : list Row → list Row.

(** X5. Every batch cut from the records of a chunk goes through the
    checks of [load_fact_records_batch] unchanged: nothing that
    [process_chunk] produced is dropped before the [COPY], and no batch is
    empty. *)
Theorem chunk_batches_load_unchanged chunk cache tr :
  Forall (λ batch, batch ≠ [] ∧ load_fact_records_batch batch = batch)
    (fact_batches
       (fact_records (state_of (process_chunk sort_values chunk cache tr)))) ∧
  concat (fact_batches
            (fact_records (state_of (process_chunk sort_values chunk cache tr))))
  = fact_records (state_of (process_chunk sort_values chunk cache tr)).
Proof.
  set (records := fact_records (state_of (process_chunk sort_values chunk cache tr))).
  destruct (slices_go_spec (length records) batch_size records
              batch_size_positive) as (Hcat & Hall & _); [done|].
  split; [|exact Hcat].
  eapply Forall_impl; [exact Hall|]. intros batch (Hne & _ & Hsub).
  split; [done|].
  unfold load_fact_records_batch.
  assert (Forall (λ f, existsb isna (numeric_cols f) = false) batch) as Hok.
  { apply Forall_forall. intros f Hf.
    assert (f ∈ records) as Hrec by (by eapply sublist_subseteq).
    pose proof (process_chunk_records sort_values chunk cache tr) as Hpos.
    rewrite Forall_forall in Hpos.
    destruct (Hpos f Hrec) as (H1 & H2 & H3 & H4 & H5 & _).
    unfold numeric_cols. simpl.
    destruct (state_bottle_cost f), (state_bottle_retail f), (sale_dollars f),
      (volume_sold_liters f), (volume_sold_gallons f); done. }
  assert (filter (λ f, existsb isna (numeric_cols f) = false) batch = batch) as ->.
  { clear -Hok. induction Hok as [|f l Hf Hl IH]; [done|].
    rewrite filter_cons_True by done. by rewrite IH. }
  apply drop_duplicates_from_id; [|set_solver].
  eapply sublist_NoDup; [|by apply fmap_sublist].
  apply (process_chunk_new_keys sort_values chunk cache tr).
Qed.

End Batches.

(** ** The dimension caches *)

Lemma cache_fold_other `{Countable K} (rows : list (Z * K)) (m : gmap K Z) n :
  n ∉ rows.*2 →
  foldl (λ cache row, <[row.2 := row.1]> cache) m rows !! n = m !! n.
Proof.
  revert m. induction rows as [|[k n'] rows IH]; intros m Hn; [done|].
  simpl. rewrite IH by set_solver. apply lookup_insert_ne. set_solver.
Qed.

Lemma cache_fold_lookup `{Countable K} (rows : list (Z * K)) (m : gmap K Z) n k :
  foldl (λ cache row, <[row.2 := row.1]> cache) m rows !! n = Some k →
  (k, n) ∈ rows ∨ m !! n = Some k.
Proof.
  revert m. induction rows as [|[k' n'] rows IH]; intros m; simpl; [by right|].
  intros [Hin|Hm]%IH; [left; by right|].
  destruct (decide (n' = n)) as [->|Hne].
  - rewrite lookup_insert_eq in Hm. injection Hm as ->. left. left.
  - rewrite lookup_insert_ne in Hm by done. by right.
Qed.

Lemma cache_of_elem `{Countable K} (rows : list (Z * K)) n k :
  cache_of rows !! n = Some k → (k, n) ∈ rows.
Proof.
  intros [?|Hm]%cache_fold_lookup; [done|]. by rewrite lookup_empty in Hm.
Qed.

(** X6. Lookup in a cache loaded from a dimension table: a natural key
    resolves to the surrogate key of its last row in the table, so to the
    one of its only row when natural keys are distinct; it resolves to
    nothing else, and a natural key without row is not in the cache. *)
Theorem cache_of_lookup `{Countable K} (rows : list (Z * K)) n k :
  (cache_of rows !! n = Some k → (k, n) ∈ rows) ∧
  (∀ before after,
     rows = before ++ (k, n) :: after → n ∉ after.*2 →
     cache_of rows !! n = Some k) ∧
  (NoDup (rows.*2) → (k, n) ∈ rows → cache_of rows !! n = Some k) ∧
  (n ∉ rows.*2 → cache_of rows !! n = None).
Proof.
  assert (∀ before after,
            rows = before ++ (k, n) :: after → n ∉ after.*2 →
            cache_of rows !! n = Some k) as Hlast.
  { intros before after -> Hafter. unfold cache_of.
    rewrite foldl_app. simpl. rewrite cache_fold_other by done.
    apply lookup_insert_eq. }
  split_and!.
  - apply cache_of_elem.
  - exact Hlast.
  - intros Hnd (before & after & ->)%list_elem_of_split.
    apply (Hlast before after); [done|].
    rewrite fmap_app, fmap_cons in Hnd. apply NoDup_app in Hnd as (_ & _ & Hnd).
    by apply NoDup_cons in Hnd as [? _].
  - intros Hn. unfold cache_of. rewrite cache_fold_other by done.
    apply lookup_empty.
Qed.

Lemma cache_of_lookup_witness :
  cache_of [(7, 100); (8, 200); (9, 100)] !! 100 = Some 9 ∧
  cache_of [(7, 100); (8, 200)] !! 200 = Some 8 ∧
  cache_of [(7, 100); (8, 200)] !! 300 = None.
Proof.
  split_and!.
  - apply (proj1 (proj2 (cache_of_lookup [(7, 100); (8, 200); (9, 100)] 100 9))
             [(7, 100); (8, 200)] []).
    + reflexivity.
    + apply not_elem_of_nil.
  - apply (proj1 (proj2 (proj2 (cache_of_lookup [(7, 100); (8, 200)] 200 8)))).
    + apply (bool_decide_unpack _). vm_compute. exact I.
    + apply (bool_decide_unpack _). vm_compute. exact I.
  - apply (proj2 (proj2 (proj2 (cache_of_lookup [(7, 100); (8, 200)] 300 0)))).
    apply (bool_decide_unpack _). vm_compute. exact I.
Defined.

Lemma dom_cache_fold `{Countable K} (rows : list (Z * K)) (m : gmap K Z) :
  dom (foldl (λ cache row, <[row.2 := row.1]> cache) m rows)
  = list_to_set (rows.*2) ∪ dom m.
Proof.
  revert m. induction rows as [|[k n] rows IH]; intros m; simpl.
  - set_solver.
  - rewrite IH, dom_insert_L. set_solver.
Qed.

Lemma size_cache_of `{Countable K} (rows : list (Z * K)) :
  size (cache_of rows) = size (list_to_set (rows.*2) : gset K).
Proof.
  rewrite <- size_dom. unfold cache_of. rewrite dom_cache_fold.
  rewrite dom_empty_L. f_equal. set_solver.
Qed.

Lemma size_list_to_set_NoDup `{Countable K} (l : list K) :
  (size (list_to_set l : gset K) ≤ length l)%nat ∧
  (size (list_to_set l : gset K) = length l → NoDup l).
Proof.
  induction l as [|a l [IHle IHeq]].
  - split; [|constructor].
    change (list_to_set [] : gset K) with (∅ : gset K).
    rewrite size_empty. simpl. lia.
  - rewrite list_to_set_cons. simpl length.
    destruct (decide (a ∈ l)) as [Hin|Hnot].
    + assert ({[ a ]} ∪ list_to_set l = (list_to_set l : gset K)) as ->
        by set_solver.
      split; lia.
    + rewrite size_union by set_solver. rewrite size_singleton.
      split; [lia|]. intros Heq. constructor; [done|]. apply IHeq. lia.
Qed.

(** X7. Validation of a cache that was just loaded from the tables: the
    product check passes exactly when the item numbers of [dim_product] are
    pairwise distinct, and the whole validation passes when the dates and
    the date keys of [dim_date] are pairwise distinct as well. *)
Theorem population_passes_validation dim_date dim_product dim_store dim_vendor :
  (validate_product_cache dim_product
     (load_caches dim_date dim_product dim_store dim_vendor) = inr ()
   ↔ NoDup (dim_product.*2)) ∧
  (NoDup (dim_date.*1) → NoDup (dim_date.*2) → NoDup (dim_product.*2) →
   validate_caches dim_date dim_product
     (load_caches dim_date dim_product dim_store dim_vendor) = inr ()).
Proof.
  assert (validate_product_cache dim_product
            (load_caches dim_date dim_product dim_store dim_vendor) = inr ()
          ↔ NoDup (dim_product.*2)) as Hprod.
  { unfold validate_product_cache. simpl. rewrite size_cache_of.
    destruct (size_list_to_set_NoDup (dim_product.*2)) as [_ Hnd].
    rewrite length_fmap in Hnd.
    destruct (decide (size (list_to_set (dim_product.*2) : gset Z)
                      ≠ length dim_product)) as [Hne|Heq]; split; try done.
    - intros Hdistinct. destruct Hne.
      rewrite size_list_to_set by done. by rewrite length_fmap.
    - intros _. apply Hnd. lia. }
  split; [exact Hprod|].
  intros Hkeys Hdates Hitems. unfold validate_caches.
  assert (validate_date_keys dim_date
            (load_caches dim_date dim_product dim_store dim_vendor) = inr ()) as ->.
  { unfold validate_date_keys.
    destruct (sql_min (dim_date.*2)), (sql_max (dim_date.*2)); try done.
    simpl. rewrite py_dict_size, size_cache_of by done.
    rewrite size_list_to_set by done. rewrite length_fmap.
    by rewrite decide_False by (intros Hne; by apply Hne). }
  simpl. by apply Hprod.
Qed.

Lemma population_passes_validation_witness :
  validate_caches [(11, jan2); (12, jan3)] [(7, 100); (8, 200)]
    (load_caches [(11, jan2); (12, jan3)] [(7, 100); (8, 200)] [(1, 2633)] [(3, 260)])
  = inr ().
Proof.
  apply (population_passes_validation [(11, jan2); (12, jan3)]
           [(7, 100); (8, 200)] [(1, 2633)] [(3, 260)]);
    apply (bool_decide_unpack _); vm_compute; exact I.
Defined.

(** Every record that the loop appends is the record accepted for a row
    with its invoice identifier. *)
Lemma process_rows_origin_invoice cache rows st f :
  f ∈ fact_records (state_of (process_rows cache rows st)) →
  f ∈ fact_records st ∨
  ∃ row, row ∈ rows ∧
         Invoice_Item_Number row = Some (invoice_item_number f) ∧
         build_record cache row (invoice_item_number f) = Accept f.
Proof.
  revert st. induction rows as [|r rows IH]; intros st; simpl; [by left|].
  destruct (process_row cache st r) as [st1|e st1] eqn:Hstep; simpl.
  - intros [Hin|(row & ? & ? & ?)]%IH;
      [|right; exists row; split_and!; [by right|done..]].
    unfold process_row in Hstep.
    destruct (Invoice_Item_Number r) as [inv|] eqn:Hi; [|simplify_eq; by left].
    destruct (String.eqb inv ""); [simplify_eq; by left|].
    destruct (decide _); [simplify_eq; by left|].
    destruct (decide _); [simplify_eq; by left|].
    destruct (build_record cache r inv) as [g| | | | |] eqn:Hb;
      simplify_eq; simpl in *; try by left.
    apply elem_of_app in Hin as [Hin| ->%list_elem_of_singleton]; [by left|].
    right. exists r.
    pose proof (build_record_key _ _ _ _ Hb) as Hk. injection Hk as Heq _.
    rewrite Heq. by split_and!; [left|..].
  - intros Hin. left. unfold process_row in Hstep.
    repeat case_match; simplify_eq; simpl in *; done.
Qed.

Section References.

Variable sort_values : list Row → list Row.

(** X8. With the caches loaded from the dimension tables, every record that
    [process_chunk] produces refers to rows of the four tables: its
    surrogate keys are not 0 and stand in [dim_store], [dim_vendor],
    [dim_product] and [dim_date] beside the store, vendor and item number
    and the date of one row of the chunk, whose invoice identifier and year
    are the record's. *)
Theorem records_reference_dimension_rows chunk tr
    dim_date dim_product dim_store dim_vendor :
  Forall (λ f,
    ∃ row sn vn item d,
      row ∈ sort_values chunk ∧
      Invoice_Item_Number row = Some (invoice_item_number f) ∧
      safe_convert_to_int (Store_Number row) = Some sn ∧
      safe_convert_to_int (Vendor_Number row) = Some vn ∧
      safe_convert_to_int (Item_Number row) = Some item ∧
      to_date (Date row) = Some d ∧ year f = d_year d ∧
      (store_key f, sn) ∈ dim_store ∧ store_key f ≠ 0 ∧
      (vendor_key f, vn) ∈ dim_vendor ∧ vendor_key f ≠ 0 ∧
      (product_key f, item) ∈ dim_product ∧ product_key f ≠ 0 ∧
      (date_key f, d) ∈ dim_date ∧ date_key f ≠ 0)
    (fact_records (state_of
       (process_chunk sort_values chunk
          (load_caches dim_date dim_product dim_store dim_vendor) tr))).
Proof.
  apply Forall_forall. intros f Hf. unfold process_chunk in Hf.
  apply process_rows_origin_invoice in Hf as [Hf|(row & Hrow & Hinv & Hb)];
    [inversion Hf|].
  destruct (accepted_keys _ _ _ _ Hb)
    as (Hs & Hv & Hp & Hd & (sn & Hsn & Hsk) & (vn & Hvn & Hvk)
        & (item & Hitem & Hpk) & (d & Hdate & Hdk & Hyear)).
  simpl in Hsk, Hvk, Hpk, Hdk.
  exists row, sn, vn, item, d.
  split_and!; try done; by apply cache_of_elem.
Qed.

End References.

(** ** [collect_all_products] and [process_stores] *)

Lemma int_of_num_error v e :
  int_of_num v = inl e →
  e = OverflowError ∨ (e = ValueError ∧ caught_by_row_handler e = true).
Proof. destruct v; simpl; intros [= <-]; auto. Qed.

Lemma dict_set_keys {K V} `{EqDecision K} (k : K) (v : V) d :
  (dict_set k v d).*1 = if decide (k ∈ d.*1) then d.*1 else d.*1 ++ [k].
Proof.
  induction d as [|[k' v'] d IH].
  - destruct (decide (k ∈ ([] : list (K * V)).*1)) as [Hin|_]; [inversion Hin|done].
  - change (((k', v') :: d).*1) with (k' :: d.*1).
    change (dict_set k v ((k', v') :: d))
      with (if decide (k' = k) then (k', v) :: d else (k', v') :: dict_set k v d).
    destruct (decide (k' = k)) as [->|Hne].
    + destruct (decide (k ∈ k :: d.*1)) as [_|Hnot]; [done|].
      destruct Hnot. by left.
    + change (((k', v') :: dict_set k v d).*1) with (k' :: (dict_set k v d).*1).
      rewrite IH.
      destruct (decide (k ∈ d.*1)) as [Hin|Hnot];
        destruct (decide (k ∈ k' :: d.*1)) as [Hin'|Hnot']; try done.
      * destruct Hnot'. by right.
      * apply elem_of_cons in Hin' as [->|?]; done.
Qed.

Lemma dict_set_NoDup {K V} `{EqDecision K} (k : K) (v : V) d :
  NoDup (d.*1) → NoDup ((dict_set k v d).*1).
Proof.
  intros Hnd. rewrite dict_set_keys. case_decide; [done|].
  apply NoDup_app. split_and!; [done| |apply NoDup_singleton].
  intros x Hx ->%list_elem_of_singleton. done.
Qed.

Lemma dict_set_elem {K V} `{EqDecision K} (k : K) (v : V) d k' v' :
  NoDup (d.*1) →
  (k', v') ∈ dict_set k v d ↔ (k' = k ∧ v' = v) ∨ (k' ≠ k ∧ (k', v') ∈ d).
Proof.
  induction d as [|[k0 v0] d IH]; simpl; intros Hnd.
  - rewrite list_elem_of_singleton. split.
    + intros [= -> ->]. by left.
    + intros [[-> ->]|[_ Hin]]; [done|inversion Hin].
  - apply NoDup_cons in Hnd as [Hk0 Hnd].
    destruct (decide (k0 = k)) as [->|Hne].
    + rewrite !elem_of_cons. split.
      * intros [[= -> ->]|Hin]; [by left|]. right. split; [|by right].
        intros ->. apply Hk0. apply list_elem_of_fmap. by exists (k, v').
      * intros [[-> ->]|[Hk [[= -> ->]|Hin]]]; [by left|done|by right].
    + rewrite !elem_of_cons, IH by done. split.
      * intros [[= -> ->]|[[-> ->]|[? ?]]]; [right; split; [done|by left]|by left|].
        right. split; [done|by right].
      * intros [[-> ->]|[Hk [[= -> ->]|Hin]]]; [right; by left|by left|].
        right. right. by split.
Qed.

Section DimensionPassProperties.

Variable float_of_str : string → option num.

Lemma int_float_str_error s e :
  int_float_str float_of_str s = inl e →
  e = OverflowError ∨ (e = ValueError ∧ caught_by_row_handler e = true).
Proof.
  unfold int_float_str. destruct (float_of_str s); [apply int_of_num_error|].
  intros [= <-]. by right.
Qed.

Lemma collected_key_error row e :
  collected_key float_of_str row = Some (inl e) →
  e = OverflowError ∨ (e = ValueError ∧ caught_by_row_handler e = true).
Proof.
  unfold collected_key. destruct (P_Item_Number row) as [v|s].
  - destruct (notna v); [|done]. intros [= H]. by apply int_of_num_error in H.
  - intros [= H]. by apply int_float_str_error in H.
Qed.

Lemma last_collected_cons rows row k r :
  last_collected float_of_str (row :: rows) k r ↔
  last_collected float_of_str rows k r ∨
  (r = row ∧ collected_key float_of_str row = Some (inr k) ∧
   ∀ x, x ∈ rows → collected_key float_of_str x ≠ Some (inr k)).
Proof.
  unfold last_collected. split.
  - intros ([|b before] & after & Heq & Hk & Hafter); simpl in Heq.
    + injection Heq as -> ->. by right.
    + injection Heq as -> ->. left. by exists before, after.
  - intros [(before & after & -> & Hk & Hafter)|(-> & Hk & Hnone)].
    + by exists (row :: before), after.
    + by exists [], rows.
Qed.

Lemma collect_rows_spec rows d d' :
  NoDup (d.*1) →
  collect_rows float_of_str rows d = inr d' →
  NoDup (d'.*1) ∧
  ∀ k r, (k, r) ∈ d' ↔
         last_collected float_of_str rows k r ∨
         ((k, r) ∈ d ∧
          ∀ x, x ∈ rows → collected_key float_of_str x ≠ Some (inr k)).
Proof.
  revert d. induction rows as [|row rows IH]; intros d Hnd; simpl.
  - intros [= <-]. split; [done|]. intros k r. split.
    + intros Hin. right. split; [done|]. intros x Hx. inversion Hx.
    + intros [([|??] & ? & ? & _)|[? _]]; done.
  - assert (collect_rows float_of_str rows d = inr d' →
            (∀ k, collected_key float_of_str row ≠ Some (inr k)) →
            NoDup (d'.*1) ∧
            ∀ k r, (k, r) ∈ d' ↔
              last_collected float_of_str (row :: rows) k r ∨
              ((k, r) ∈ d ∧
               ∀ x, x ∈ row :: rows →
                    collected_key float_of_str x ≠ Some (inr k))) as Hskip.
    { intros Hrun Hkey. destruct (IH d Hnd Hrun) as [Hnd' Hiff].
      split; [done|]. intros k r. rewrite Hiff, last_collected_cons. split.
      - intros [Hl|[Hin Hnone]]; [left; by left|]. right. split; [done|].
        intros x [->|Hx]%elem_of_cons; [apply Hkey|by apply Hnone].
      - intros [[Hl|(-> & Hk & _)]|[Hin Hnone]]; [by left|by apply Hkey in Hk|].
        right. split; [done|]. intros x Hx. apply Hnone. by right. }
    destruct (collected_key float_of_str row) as [[e|k0]|] eqn:Hkey.
    + destruct (caught_by_row_handler e); [|done].
      intros Hrun. by apply Hskip.
    + intros Hrun.
      destruct (IH _ (dict_set_NoDup k0 row d Hnd) Hrun) as [Hnd' Hiff].
      split; [done|]. intros k r.
      rewrite Hiff, last_collected_cons, dict_set_elem by done. split.
      * intros [Hl|[[[-> ->]|[Hne Hin]] Hnone]].
        -- left. by left.
        -- left. by right.
        -- right. split; [done|].
           intros x [->|Hx]%elem_of_cons; [congruence|by apply Hnone].
      * intros [[Hl|(-> & Hk & Hnone)]|[Hin Hnone]].
        -- by left.
        -- right. split; [|done]. left. split; [congruence|done].
        -- right. split.
           ++ right. split; [|done]. intros ->. apply (Hnone row); [by left|done].
           ++ intros x Hx. apply Hnone. by right.
    + intros Hrun. by apply Hskip.
Qed.

Lemma collect_rows_error rows d e :
  collect_rows float_of_str rows d = inl e → e = OverflowError.
Proof.
  revert d. induction rows as [|row rows IH]; intros d; simpl; [done|].
  destruct (collected_key float_of_str row) as [[e'|k0]|] eqn:Hkey; [|by eauto..].
  apply collected_key_error in Hkey as [->|[-> _]]; simpl; [congruence|by eauto].
Qed.

Lemma dict_values_keys (d : list (Z * ProductRow)) :
  (∀ k r, (k, r) ∈ d → collected_key float_of_str r = Some (inr k)) →
  collected_key float_of_str <$> d.*2 = (λ k, Some (inr k)) <$> d.*1.
Proof.
  induction d as [|[k r] d IH]; simpl; intros Hd; [done|].
  rewrite (Hd k r) by left. f_equal. apply IH. intros k' r' Hin.
  apply Hd. by right.
Qed.

(** X9. [collect_all_products] keeps, for every item number some row converts
    to, exactly the last such row of the whole file: a row is returned if and
    only if no later row converts to the same number, so no two returned rows
    share an item number.  Rows without an item number or with one that
    [float] rejects are left out, and the only exception that leaves the
    function is the [OverflowError] of an infinite item number. *)
Theorem collect_all_products_last_wins (chunks : list (list ProductRow)) :
  match collect_all_products float_of_str chunks with
  | inr result =>
      (∀ row, row ∈ result ↔
              ∃ k, last_collected float_of_str (concat chunks) k row) ∧
      NoDup (collected_key float_of_str <$> result)
  | inl e => e = OverflowError
  end.
Proof.
  unfold collect_all_products.
  destruct (collect_rows float_of_str (concat chunks) []) as [e|d] eqn:Hd.
  { by apply collect_rows_error in Hd. }
  change ((λ d0 : list (Z * ProductRow), d0.*2) <$> inr d)
    with (inr (d.*2) : exn + list ProductRow).
  destruct (collect_rows_spec (concat chunks) [] d (NoDup_nil_2) Hd)
    as [Hnd Hiff].
  assert (∀ k r, (k, r) ∈ d ↔ last_collected float_of_str (concat chunks) k r)
    as Hiff'.
  { intros k r. rewrite Hiff. split; [|by left].
    intros [?|[Hin _]]; [done|inversion Hin]. }
  split.
  - intros row. rewrite list_elem_of_fmap. split.
    + intros ([k r] & -> & Hin). exists k. by apply Hiff'.
    + intros [k Hl]. exists (k, row). split; [done|]. by apply Hiff'.
  - rewrite dict_values_keys.
    + assert (Inj (=) (=) (λ k : Z, Some (inr k) : option (exn + Z))) as Hinj.
      { intros ?? Heq. by injection Heq. }
      by apply (NoDup_fmap_2 _).
    + intros k r Hin. apply Hiff' in Hin as (? & ? & _ & ? & _). done.
Qed.

Lemma store_record_spec row :
  match store_record float_of_str row with
  | inr (Some rec) => 0 < store_number rec
  | inr None => True
  | inl e => e = OverflowError
  end.
Proof.
  unfold store_record.
  destruct (match S_County_Number row with
            | Some s => _
            | None => _
            end) as [e|cn] eqn:Hcn.
  - destruct (S_County_Number row) as [s|]; [|done].
    destruct (int_float_str float_of_str s) as [e'|n] eqn:Hc; [|done].
    apply int_float_str_error in Hc as [->|[-> _]]; simpl in Hcn; [|done].
    by injection Hcn as <-.
  - change (inr cn ≫= ?f) with (f cn). cbv beta.
    destruct (int_float_str float_of_str _) as [e|m] eqn:Hs.
    + by apply int_float_str_error in Hs as [->|[-> _]].
    + destruct (0 <? m) eqn:Hpos; [|done]. simpl. lia.
Qed.

Lemma store_records_spec rows :
  match store_records float_of_str rows with
  | inr records =>
      Forall (λ rec, 0 < store_number rec) records ∧
      (length records ≤ length rows)%nat
  | inl e => e = OverflowError
  end.
Proof.
  induction rows as [|row rows IH]; [by split|].
  change (store_records float_of_str (row :: rows))
    with (store_record float_of_str row ≫= λ r,
          store_records float_of_str rows ≫= λ records,
          inr (match r with Some rec => rec :: records | None => records end)).
  pose proof (store_record_spec row) as Hrow.
  destruct (store_record float_of_str row) as [e|r]; [done|].
  change (inr r ≫= ?f) with (f r). cbv beta.
  destruct (store_records float_of_str rows) as [e|records]; [done|].
  change (inr records ≫= ?f) with (f records). cbv beta.
  destruct IH as [Hall Hlen].
  destruct r as [rec|]; (split; [|simpl; lia]); [by constructor|done].
Qed.

(** X10. Every store [process_stores] hands to the upsert has a store number
    above zero, and there is at most one store per row of the data frame: a
    row whose store number is zero, negative or not a number gives no store.
    The only exception that leaves the loop is the [OverflowError] of an
    infinite store or county number. *)
Theorem process_stores_spec (df : list StoreRow) :
  match process_stores float_of_str df with
  | inr records =>
      Forall (λ rec, 0 < store_number rec) records ∧
      (length records ≤ length df)%nat
  | inl e => e = OverflowError
  end.
Proof.
  unfold process_stores.
  pose proof (store_records_spec (drop_duplicates S_Store_Number df)) as Hspec.
  destruct (store_records float_of_str (drop_duplicates S_Store_Number df))
    as [e|records]; [done|].
  destruct Hspec as [Hall Hlen]. split; [done|]. etrans; [exact Hlen|].
  apply sublist_length.
  apply (drop_duplicates_from_spec S_Store_Number ∅ df).
Qed.

(** X11. Of the rows that carry the same [Store Number] cell only the first
    one counts: appending a row whose store number already occurs in the data
    frame changes nothing in what [process_stores] loads, whatever the other
    cells of that row are. *)
Theorem repeated_store_is_ignored (df : list StoreRow) (row : StoreRow) :
  S_Store_Number row ∈ S_Store_Number <$> df →
  process_stores float_of_str (df ++ [row]) = process_stores float_of_str df.
Proof.
  intros Hin. unfold process_stores, drop_duplicates.
  rewrite drop_duplicates_from_snoc; [done|by right].
Qed.

End DimensionPassProperties.

Lemma repeated_store_is_ignored_witness :
  S_Store_Number (sample_store "2633" "Other") ∈
    S_Store_Number <$> [sample_store "2633" "Hy-Vee"] ∧
  process_stores sample_float
    ([sample_store "2633" "Hy-Vee"] ++ [sample_store "2633" "Other"]) =
  process_stores sample_float [sample_store "2633" "Hy-Vee"].
Proof.
  assert (S_Store_Number (sample_store "2633" "Other") ∈
            S_Store_Number <$> [sample_store "2633" "Hy-Vee"]) as Hin.
  { apply (bool_decide_unpack _). vm_compute. exact I. }
  split; [exact Hin|].
  exact (repeated_store_is_ignored sample_float _ _ Hin).
Defined.

(** ** More on [safe_convert_to_int] *)

(** X12. White space around a natural key is ignored: [safe_convert_to_int]
    gives the same answer for a cell and for the cell with blanks, tabs or
    line ends before and after it. *)
Theorem safe_convert_to_int_ignores_white_space (ws1 ws2 s : string) :
  Py.all_chars Py.is_space ws1 = true →
  Py.all_chars Py.is_space ws2 = true →
  safe_convert_to_int (Some (ws1 +:+ s +:+ ws2)) = safe_convert_to_int (Some s).
Proof.
  intros H1 H2. unfold safe_convert_to_int.
  rewrite strip_spaces_app by done. unfold Py.strip.
  by rewrite rstrip_app_spaces.
Qed.

Lemma safe_convert_to_int_ignores_white_space_witness :
  safe_convert_to_int (Some ("  " +:+ "x100" +:+ " ")) = Some 100.
Proof.
  rewrite (safe_convert_to_int_ignores_white_space "  " " " "x100");
    reflexivity.
Defined.

(** X13. A sign is accepted: [safe_convert_to_int] turns ["-n"] into the
    negative number and ["+n"] into [n], also behind the prefix [x], so a
    natural key that is not positive is looked up in the caches like any
    other. *)
Theorem safe_convert_to_int_signed (n : N) :
  Z.of_N n < 10 ^ Z.of_nat Py.int_max_str_digits →
  safe_convert_to_int (Some ("-" +:+ pretty n)) = Some (- Z.of_N n) ∧
  safe_convert_to_int (Some ("+" +:+ pretty n)) = Some (Z.of_N n) ∧
  safe_convert_to_int (Some ("x-" +:+ pretty n)) = Some (- Z.of_N n).
Proof.
  intros Hn. pose proof (pretty_digits n) as Hd.
  assert (∀ c, c = "-"%char ∨ c = "+"%char →
               Py.lower (Py.strip (String c (pretty n))) = String c (pretty n))
    as Hclean.
  { intros c Hc. rewrite strip_head, rstrip_digits by (by destruct Hc as [->| ->]).
    simpl Py.lower. rewrite lower_digits by done.
    by destruct Hc as [->| ->]. }
  split_and!.
  - unfold safe_convert_to_int.
    change ("-" +:+ pretty n) with (String "-" (pretty n)).
    rewrite Hclean, startswith_other by auto.
    by rewrite int_of_str_signed by auto.
  - unfold safe_convert_to_int.
    change ("+" +:+ pretty n) with (String "+" (pretty n)).
    rewrite Hclean, startswith_other by auto.
    by rewrite int_of_str_signed by auto.
  - unfold safe_convert_to_int.
    change ("x-" +:+ pretty n) with (String "x" (String "-" (pretty n))).
    rewrite strip_head by done.
    rewrite rstrip_head, rstrip_digits by done.
    simpl Py.lower. rewrite lower_digits by done.
    change (Py.lower_char "x") with "x"%char.
    change (Py.lower_char "-") with "-"%char.
    rewrite startswith_x.
    by rewrite int_of_str_signed by auto.
Qed.

Lemma safe_convert_to_int_signed_witness :
  safe_convert_to_int (Some "-5") = Some (-5) ∧
  safe_convert_to_int (Some "+5") = Some 5 ∧
  safe_convert_to_int (Some "x-5") = Some (-5).
Proof.
  apply (safe_convert_to_int_signed 5). vm_compute. reflexivity.
Defined.

(** ** More on the product pass *)

Section ProductPassProperties.

Variable float_of_str : string → option num.

Lemma product_record_error row e :
  product_record float_of_str row = inl e →
  e = OverflowError ∨ (e = ValueError ∧ caught_by_row_handler e = true).
Proof.
  unfold product_record.
  destruct (match P_Item_Number row with
            | Number _ => _
            | Text _ => _
            end) as [e0|n0] eqn:Hitem.
  { intros [= <-]. destruct (P_Item_Number row) as [v|[|c t]]; simpl in Hitem.
    - by apply int_of_num_error in Hitem.
    - destruct (float_of_str ""); [by apply int_of_num_error in Hitem|].
      injection Hitem as <-. by right.
    - destruct (Ascii.eqb c "x").
      + destruct (Py.int_of_str t); [done|]. injection Hitem as <-. by right.
      + simpl in Hitem.
        destruct (float_of_str (String c t)); [by apply int_of_num_error in Hitem|].
        injection Hitem as <-. by right. }
  change (inr n0 ≫= ?f) with (f n0). cbv beta.
  destruct (let v := fillna (Fin 0) (P_Category row) in
            if notna v then int_of_num v else inr 0) as [e1|n1] eqn:Hcat.
  { intros [= <-]. cbv zeta in Hcat.
    destruct (notna (fillna (Fin 0) (P_Category row))); [|done].
    by apply int_of_num_error in Hcat. }
  change (inr n1 ≫= ?f) with (f n1). cbv beta.
  destruct (let v := fillna (Fin 1) (P_Pack row) in
            if notna v then int_of_num v else inr 1) as [e2|n2] eqn:Hpack.
  { intros [= <-]. cbv zeta in Hpack.
    destruct (notna (fillna (Fin 1) (P_Pack row))); [|done].
    by apply int_of_num_error in Hpack. }
  change (inr n2 ≫= ?f) with (f n2). cbv beta.
  destruct (int_of_num (fix_bottle_volume (P_Bottle_Volume_ml row)))
    as [e3|n3] eqn:Hvol; [|done].
  intros [= <-]. by apply int_of_num_error in Hvol.
Qed.

Lemma product_record_defaults row rec :
  product_record float_of_str row = inr rec →
  (isna (P_Category row) = true → category_number rec = 0) ∧
  (isna (P_Pack row) = true → pack rec = 1) ∧
  (P_Category_Name row = None → category_name rec = "Uncategorized") ∧
  item_description rec = P_Item_Description row.
Proof.
  unfold product_record.
  destruct (match P_Item_Number row with
            | Number _ => _
            | Text _ => _
            end) as [e0|n0]; [done|].
  change (inr n0 ≫= ?f) with (f n0). cbv beta.
  destruct (let v := fillna (Fin 0) (P_Category row) in
            if notna v then int_of_num v else inr 0) as [e1|n1] eqn:Hcat; [done|].
  change (inr n1 ≫= ?f) with (f n1). cbv beta.
  destruct (let v := fillna (Fin 1) (P_Pack row) in
            if notna v then int_of_num v else inr 1) as [e2|n2] eqn:Hpack; [done|].
  change (inr n2 ≫= ?f) with (f n2). cbv beta.
  destruct (int_of_num (fix_bottle_volume (P_Bottle_Volume_ml row)))
    as [e3|n3]; [done|].
  change (inr n3 ≫= ?f) with (f n3). cbv beta.
  intros [= <-]. simpl. split_and!; [| |by intros ->|done].
  - intros Hna. unfold fillna in Hcat. rewrite Hna in Hcat.
    simpl in Hcat. by injection Hcat as <-.
  - intros Hna. unfold fillna in Hpack. rewrite Hna in Hpack.
    simpl in Hpack. by injection Hpack as <-.
Qed.

(** X14. What [process_all_products] hands to the upsert: at most one record
    per row, each made from a row of the data frame, with category [0] and
    pack [1] where the cell is missing, the name [Uncategorized] where the
    category name is missing, and a bottle volume that is never negative and
    is [750] where the cell is missing, zero or negative.  The only exception
    that leaves the loop is the [OverflowError] of an infinite cell. *)
Theorem product_pass_defaults (df : list ProductRow) :
  match process_all_products float_of_str df with
  | inr records =>
      (length records ≤ length df)%nat ∧
      Forall (λ rec, ∃ row, row ∈ df ∧
                (isna (P_Category row) = true → category_number rec = 0) ∧
                (isna (P_Pack row) = true → pack rec = 1) ∧
                (P_Category_Name row = None →
                 category_name rec = "Uncategorized") ∧
                item_description rec = P_Item_Description row ∧
                0 ≤ bottle_volume_ml rec ∧
                (isna (P_Bottle_Volume_ml row)
                 || le_zero (P_Bottle_Volume_ml row) = true →
                 bottle_volume_ml rec = 750))
             records
  | inl e => e = OverflowError
  end.
Proof.
  induction df as [|row df IH]; [by split|].
  change (process_all_products float_of_str (row :: df))
    with (match product_record float_of_str row with
          | inr rec => cons rec <$> process_all_products float_of_str df
          | inl e =>
              if caught_by_row_handler e
              then process_all_products float_of_str df else inl e
          end).
  assert (match process_all_products float_of_str df with
          | inr records =>
              (length records ≤ length (row :: df))%nat ∧
              Forall (λ rec, ∃ row0, row0 ∈ row :: df ∧
                (isna (P_Category row0) = true → category_number rec = 0) ∧
                (isna (P_Pack row0) = true → pack rec = 1) ∧
                (P_Category_Name row0 = None →
                 category_name rec = "Uncategorized") ∧
                item_description rec = P_Item_Description row0 ∧
                0 ≤ bottle_volume_ml rec ∧
                (isna (P_Bottle_Volume_ml row0)
                 || le_zero (P_Bottle_Volume_ml row0) = true →
                 bottle_volume_ml rec = 750))
             records
          | inl e => e = OverflowError
          end) as Hskip.
  { destruct (process_all_products float_of_str df) as [e|records]; [done|].
    destruct IH as [Hlen Hall]. split; [simpl; lia|].
    eapply Forall_impl; [exact Hall|]. intros rec (row0 & Hin & Hrest).
    exists row0. split; [by right|done]. }
  destruct (product_record float_of_str row) as [e|rec] eqn:Hrec.
  - apply product_record_error in Hrec as [->|[-> _]]; [done|exact Hskip].
  - destruct (process_all_products float_of_str df) as [e|records]; [done|].
    change (cons rec <$> inr records)
      with (inr (rec :: records) : exn + list ProductRecord).
    destruct Hskip as [Hlen Hall]. split; [simpl in *; lia|].
    constructor; [|done]. exists row. split; [by left|].
    destruct (product_record_defaults row rec Hrec) as (? & ? & ? & ?).
    destruct (product_record_volume float_of_str row rec Hrec) as [? ?].
    done.
Qed.

End ProductPassProperties.

Lemma product_pass_defaults_witness :
  ∃ rec, process_all_products sample_float [sample_product NaN] = inr [rec] ∧
         bottle_volume_ml rec = 750.
Proof.
  assert (process_all_products sample_float [sample_product NaN]
          = inr [mkProduct 101 "Vodka" 1031100 "VODKA" 12 750]) as Hrun.
  { vm_compute. reflexivity. }
  pose proof (product_pass_defaults sample_float [sample_product NaN]) as Hspec.
  rewrite Hrun in Hspec. destruct Hspec as [_ Hall].
  apply Forall_cons in Hall
    as [(row & Hin & _ & _ & _ & _ & _ & Hvol) _].
  apply list_elem_of_singleton in Hin as ->.
  eexists. split; [exact Hrun|]. apply Hvol. reflexivity.
Defined.

(** ** More on [process_chunk] *)

Lemma process_row_raised cache st row e st' :
  process_row cache st row = Raised e st' →
  e = OverflowError ∧ Bottles_Sold row = PosInf ∧
  ∃ k, row_key row = Some k ∧ (k ∉ tracker st) ∧ k ∈ tracker st' ∧
       fact_records st' = fact_records st.
Proof.
  unfold process_row, row_key.
  destruct (Invoice_Item_Number row) as [inv|]; [|done].
  destruct (String.eqb inv ""); [done|].
  destruct (decide ((inv, to_year (Date row)) ∈ chunk_seen_invoices st)); [done|].
  destruct (decide ((inv, to_year (Date row)) ∈ tracker st)) as [|Hnew]; [done|].
  destruct (build_record cache row inv) eqn:Hb; try done.
  intros [= <- <-]. apply build_record_escapes in Hb as [Hinf ->].
  split_and!; [done..|]. exists (inv, to_year (Date row)).
  split_and!; [done|done| |done]. simpl. set_solver.
Qed.

Lemma process_rows_raised cache rows st e st' :
  process_rows cache rows st = Raised e st' →
  e = OverflowError ∧
  ∃ row k, row ∈ rows ∧ Bottles_Sold row = PosInf ∧
           row_key row = Some k ∧ (k ∉ tracker st) ∧ k ∈ tracker st' ∧
           ∀ f, f ∈ fact_records st' → fact_key f = k → f ∈ fact_records st.
Proof.
  revert st. induction rows as [|row rows IH]; intros st; simpl; [done|].
  destruct (process_row cache st row) as [st1|e1 st1] eqn:Hrow.
  - intros Hrun. destruct (IH st1 Hrun) as (-> & r & k & Hin & Hinf & Hk & Hnew & Hcl & Hrec).
    split; [done|]. exists r, k.
    pose proof (process_row_grows cache st row) as Hg. rewrite Hrow in Hg.
    simpl in Hg. destruct Hg as (Htr & _ & _ & _ & _ & _ & new & Hnewrec & _ & Hkeys).
    split_and!; [by right|done|done| |done|].
    + intros Hold. apply Hnew. by apply Htr.
    + intros f Hf Hfk. specialize (Hrec f Hf Hfk). rewrite Hnewrec in Hrec.
      apply elem_of_app in Hrec as [?|Hfn]; [done|].
      destruct (Hkeys f Hfn) as [_ Hin1]. rewrite Hfk in Hin1. done.
  - intros [= <- <-].
    apply process_row_raised in Hrow as (-> & Hinf & k & Hk & Hnew & Hcl & Hrec).
    split; [done|]. exists row, k.
    split_and!; [by left|done..|]. intros f Hf _. by rewrite <- Hrec.
Qed.

Lemma process_row_tracker_upper cache st row k :
  k ∈ tracker (state_of (process_row cache st row)) →
  k ∈ tracker st ∨ row_key row = Some k.
Proof.
  unfold process_row, row_key.
  destruct (Invoice_Item_Number row) as [inv|]; [|by left].
  destruct (String.eqb inv ""); [by left|].
  destruct (decide ((inv, to_year (Date row)) ∈ chunk_seen_invoices st)); [by left|].
  destruct (decide ((inv, to_year (Date row)) ∈ tracker st)); [by left|].
  destruct (build_record cache row inv); simpl;
    (intros [->%elem_of_singleton|?]%elem_of_union; [by right|by left]).
Qed.

Lemma process_rows_tracker_upper cache rows st k :
  k ∈ tracker (state_of (process_rows cache rows st)) →
  k ∈ tracker st ∨ ∃ row, row ∈ rows ∧ row_key row = Some k.
Proof.
  revert st. induction rows as [|row rows IH]; intros st; simpl; [by left|].
  pose proof (process_row_tracker_upper cache st row k) as Hrow.
  destruct (process_row cache st row) as [st1|e1 st1]; simpl in *.
  - intros [Hin|(r & Hr & Hk)]%IH.
    + destruct (Hrow Hin) as [?|?]; [by left|]. right. exists row. by split; [left|].
    + right. exists r. by split; [right|].
  - intros Hin. destruct (Hrow Hin) as [?|?]; [by left|].
    right. exists row. by split; [left|].
Qed.

Section ChunkOutcomes.

Variable sort_values : list Row → list Row.

(** X15. The only exception that leaves [process_chunk] is [OverflowError],
    and it comes from a row of the chunk whose [Bottles Sold] is [inf] and
    whose key was not tracked before.  The key is tracked by then, although
    the call returns no record, and the records gathered so far hold none
    for it. *)
Theorem process_chunk_raises chunk cache tr e st :
  process_chunk sort_values chunk cache tr = Raised e st →
  e = OverflowError ∧
  ∃ row k, row ∈ sort_values chunk ∧ Bottles_Sold row = PosInf ∧
           row_key row = Some k ∧ (k ∉ tr) ∧ k ∈ tracker st ∧
           Forall (λ f, fact_key f ≠ k) (fact_records st).
Proof.
  unfold process_chunk. intros Hrun.
  apply process_rows_raised in Hrun
    as (-> & row & k & Hin & Hinf & Hk & Hnew & Hcl & Hrec).
  split; [done|]. exists row, k. split_and!; [done..|].
  apply Forall_forall. intros f Hf Hfk.
  specialize (Hrec f Hf Hfk). inversion Hrec.
Qed.

Hypothesis sort_values_perm : ∀ chunk, sort_values chunk ≡ₚ chunk.

(** X16. When [process_chunk] returns, the tracker holds the keys it held
    before and the keys of the rows of the chunk that have an invoice
    identifier, and nothing else. *)
Theorem tracker_after_chunk chunk cache tr st :
  process_chunk sort_values chunk cache tr = Next st →
  ∀ k, k ∈ tracker st ↔
       k ∈ tr ∨ ∃ row, row ∈ chunk ∧ row_key row = Some k.
Proof.
  unfold process_chunk. intros Hrun k. split.
  - intros Hin.
    pose proof (process_rows_tracker_upper cache (sort_values chunk)
                  (initial_state tr) k) as Hup.
    rewrite Hrun in Hup. destruct (Hup Hin) as [?|(row & Hrow & Hk)]; [by left|].
    right. exists row. split; [|done]. by rewrite <- (sort_values_perm chunk).
  - intros [Hin|(row & Hrow & Hk)].
    + pose proof (process_rows_grows cache (sort_values chunk) (initial_state tr))
        as Hg.
      rewrite Hrun in Hg. destruct Hg as [Htr _]. by apply Htr.
    + apply (process_rows_claims cache (sort_values chunk) (initial_state tr)
               st row k); [done|done| |done].
      by rewrite (sort_values_perm chunk).
Qed.

End ChunkOutcomes.

Lemma process_chunk_raises_witness :
  ∃ st, process_chunk sort_by_date
          [sample_row jan2 "INV100" 5; infinite_row jan3 "INV200"]
          sample_cache ∅ = Raised OverflowError st ∧
        ("INV200", Some 2020) ∈ tracker st.
Proof.
  destruct (process_chunk sort_by_date
              [sample_row jan2 "INV100" 5; infinite_row jan3 "INV200"]
              sample_cache ∅) as [st|e st] eqn:Hrun.
  { vm_compute in Hrun. discriminate. }
  destruct (process_chunk_raises sort_by_date _ _ _ _ _ Hrun)
    as (-> & row & k & Hin & Hinf & Hk & _ & Hcl & _).
  exists st. split; [reflexivity|].
  apply elem_of_cons in Hin as [->|Hin]; [discriminate|].
  apply list_elem_of_singleton in Hin as ->.
  injection Hk as <-. exact Hcl.
Defined.

Lemma tracker_after_chunk_witness :
  ∃ st, process_chunk sort_by_date [sample_row jan2 "INV100" (-5)] sample_cache ∅
        = Next st ∧
        ∀ k, k ∈ tracker st ↔
             k ∈ (∅ : gset InvoiceKey) ∨
             ∃ row, row ∈ [sample_row jan2 "INV100" (-5)] ∧ row_key row = Some k.
Proof.
  eexists. split; [vm_compute; reflexivity|].
  apply (tracker_after_chunk sort_by_date sort_by_date_perm
           [sample_row jan2 "INV100" (-5)] sample_cache ∅).
  vm_compute; reflexivity.
Defined.

(** X17. The records of a key depend neither on the order of the rows in the
    chunk nor on how the sort breaks ties: when one row of the key is
    strictly earlier than the others and no row has infinitely many bottles,
    two runs over the same rows, in any order and with any two sorts on the
    [Date] column, give the same records for the key. *)
Theorem row_order_is_irrelevant
    (sort1 sort2 : list Row → list Row) chunk chunk' cache tr k r :
  (∀ c, sort1 c ≡ₚ c) →
  (∀ c, StronglySorted (λ a b, stamp_leb (Date a) (Date b) = true) (sort1 c)) →
  (∀ c, sort2 c ≡ₚ c) →
  (∀ c, StronglySorted (λ a b, stamp_leb (Date a) (Date b) = true) (sort2 c)) →
  chunk ≡ₚ chunk' →
  (∀ row, row ∈ chunk → Bottles_Sold row ≠ PosInf) →
  r ∈ chunk → row_key r = Some k →
  (∀ r', r' ∈ chunk → row_key r' = Some k →
         r' = r ∨ stamp_leb (Date r') (Date r) = false) →
  ∃ st st',
    process_chunk sort1 chunk cache tr = Next st ∧
    process_chunk sort2 chunk' cache tr = Next st' ∧
    filter (λ f, fact_key f = k) (fact_records st)
    = filter (λ f, fact_key f = k) (fact_records st').
Proof.
  intros Hp1 Hs1 Hp2 Hs2 Hperm Hfin Hr Hk Hearly.
  destruct (earliest_row_decides_key sort1 Hp1 Hs1 chunk cache tr k r)
    as (st & Hrun & Hrec); [done..|].
  destruct (earliest_row_decides_key sort2 Hp2 Hs2 chunk' cache tr k r)
    as (st' & Hrun' & Hrec').
  - intros row Hrow. apply Hfin. by rewrite Hperm.
  - by rewrite <- Hperm.
  - done.
  - intros r' Hr' Hk'. apply Hearly; [|done]. by rewrite Hperm.
  - exists st, st'. split_and!; [done..|]. by rewrite Hrec, Hrec'.
Qed.

Lemma row_order_is_irrelevant_witness :
  let r1 := sample_row jan2 "INV100" 5 in
  let r2 := sample_row jan3 "INV100" 3 in
  ∃ st st',
    process_chunk sort_by_date [r2; r1] sample_cache ∅ = Next st ∧
    process_chunk sort_by_date [r1; r2] sample_cache ∅ = Next st' ∧
    filter (λ f, fact_key f = ("INV100", Some 2020)) (fact_records st)
    = filter (λ f, fact_key f = ("INV100", Some 2020)) (fact_records st').
Proof.
  apply (row_order_is_irrelevant sort_by_date sort_by_date
           [sample_row jan3 "INV100" 3; sample_row jan2 "INV100" 5]
           [sample_row jan2 "INV100" 5; sample_row jan3 "INV100" 3]
           sample_cache ∅ ("INV100", Some 2020) (sample_row jan2 "INV100" 5)).
  - exact sort_by_date_perm.
  - exact sort_by_date_sorted.
  - exact sort_by_date_perm.
  - exact sort_by_date_sorted.
  - apply perm_swap.
  - intros row Hrow.
    apply elem_of_cons in Hrow as [->|Hrow]; [discriminate|].
    apply list_elem_of_singleton in Hrow as ->. discriminate.
  - right. left.
  - reflexivity.
  - intros r' Hr' _.
    apply elem_of_cons in Hr' as [->|Hr']; [right; vm_compute; reflexivity|].
    apply list_elem_of_singleton in Hr' as ->. by left.
Defined.

(** ** More on the checkpoints *)

Lemma startswith_sound p s : Py.startswith p s = true → ∃ t, s = p +:+ t.
Proof.
  unfold Py.startswith. revert s. induction p as [|a p IH]; intros s.
  - intros _. by exists s.
  - destruct s as [|b s]; [done|].
    change (String.prefix (String a p) (String b s))
      with (if ascii_dec a b then String.prefix p s else false).
    destruct (ascii_dec a b) as [->|]; [|done].
    intros [t ->]%IH. by exists t.
Qed.

Lemma split_nonempty sep s : ∃ p ps, Py.split sep s = p :: ps.
Proof.
  induction s as [|c s IH]; simpl; [by eauto|].
  destruct (Ascii.eqb c sep); [by eauto|].
  destruct IH as (p & ps & ->). by eauto.
Qed.

Lemma checkpoint_id_error f e :
  is_checkpoint_file f = true → checkpoint_id f = inl e → e = ValueError.
Proof.
  unfold is_checkpoint_file. intros [Hs _]%andb_true_iff.
  apply startswith_sound in Hs as [t ->]. unfold checkpoint_id.
  change (Py.split "_" ("invoice_tracker_" +:+ t))
    with ("invoice" :: "tracker" :: Py.split "_" t).
  destruct (split_nonempty "_" t) as (p & ps & ->). simpl lookup. cbv beta iota.
  destruct (split_nonempty "." p) as (q & qs & ->). simpl lookup. cbv beta iota.
  destruct (Py.int_of_str q); [done|]. by intros [= <-].
Qed.

Lemma max_by_key_error key items best bk f :
  (∀ g e, g ∈ items → key g = inl e → e = ValueError) →
  f ∈ items → (∀ n, key f ≠ inr n) →
  max_by_key key best bk items = inl ValueError.
Proof.
  revert best bk. induction items as [|g items IH]; intros best bk Herr Hin Hbad.
  { inversion Hin. }
  simpl. destruct (key g) as [e|k] eqn:Hg.
  - f_equal. apply (Herr g e); [by left|done].
  - apply elem_of_cons in Hin as [->|Hin]; [by destruct (Hbad k)|].
    assert (∀ g0 e, g0 ∈ items → key g0 = inl e → e = ValueError) as Herr'.
    { intros g0 e Hg0. apply Herr. by right. }
    destruct (bk <? k); by apply IH.
Qed.

(** X18. The identifier of every checkpoint file is read before any file is
    opened, outside the [try]: one file of the directory that is named like a
    checkpoint and whose part after the second underscore is no integer makes
    [load_tracker_checkpoint] raise [ValueError], whatever else the directory
    holds. *)
Theorem foreign_checkpoint_name_raises dir tr0 f :
  f ∈ dir.*1 → is_checkpoint_file f = true →
  (∀ n, checkpoint_id f ≠ inr n) →
  load_tracker_checkpoint (Some dir) tr0 = inl ValueError.
Proof.
  intros Hin Hcp Hbad. unfold load_tracker_checkpoint.
  assert (f ∈ filter (λ f, is_checkpoint_file f = true) (dir.*1)) as Hf.
  { by apply list_elem_of_filter. }
  assert (∀ g e, g ∈ filter (λ f, is_checkpoint_file f = true) (dir.*1) →
                 checkpoint_id g = inl e → e = ValueError) as Herr.
  { intros g e [Hg _]%list_elem_of_filter. by apply checkpoint_id_error. }
  destruct (filter (λ f, is_checkpoint_file f = true) (dir.*1))
    as [|f0 files]; [inversion Hf|].
  destruct (checkpoint_id f0) as [e|k0] eqn:H0; simpl.
  - f_equal. apply (Herr f0 e); [by left|done].
  - apply elem_of_cons in Hf as [->|Hf]; [by destruct (Hbad k0)|].
    rewrite (max_by_key_error checkpoint_id files f0 k0 f); [done| |done|done].
    intros g e Hg. apply Herr. by right.
Qed.

Lemma foreign_checkpoint_name_raises_witness :
  load_tracker_checkpoint
    (Some [("invoice_tracker_1700000000.pkl", Pickle ∅);
           ("invoice_tracker_final.pkl", Pickle ∅)]) ∅
  = inl ValueError.
Proof.
  apply (foreign_checkpoint_name_raises _ _ "invoice_tracker_final.pkl").
  - right. left.
  - vm_compute. reflexivity.
  - intros n. vm_compute. discriminate.
Defined.

Lemma load_newest now g tr0 dir :
  0 ≤ now < 10 ^ Z.of_nat Py.int_max_str_digits →
  written_before now dir →
  load_tracker_checkpoint (Some (write_file (checkpoint_name now) g dir)) tr0
  = inr (match g with
         | Pickle saved => (true, pickle_load saved)
         | Unreadable => (false, tr0)
         end).
Proof.
  intros Hnow Hdir. unfold load_tracker_checkpoint.
  set (nm := checkpoint_name now).
  set (dir' := write_file nm g dir).
  assert (∀ f, f ∈ filter (λ f, is_checkpoint_file f = true) (dir'.*1) →
               ∃ t, 0 ≤ t ≤ now ∧ f = checkpoint_name t ∧ checkpoint_id f = inr t)
    as Hfiles.
  { intros f [Hcp Hin]%list_elem_of_filter.
    apply write_file_names in Hin as [->|Hin].
    - exists now. split; [lia|]. split; [done|]. by apply checkpoint_id_name.
    - destruct (Hdir f Hin Hcp) as (t & Ht & ->). exists t.
      split; [done|]. split; [done|]. apply checkpoint_id_name. lia. }
  assert (nm ∈ filter (λ f, is_checkpoint_file f = true) (dir'.*1)) as Hnm.
  { apply list_elem_of_filter. split; [apply is_checkpoint_file_name|].
    apply write_file_names. by left. }
  destruct (filter (λ f, is_checkpoint_file f = true) (dir'.*1))
    as [|f0 files]; [inversion Hnm|].
  destruct (Hfiles f0) as (t0 & Ht0 & Hf0 & Hid0); [left|].
  rewrite Hid0. simpl.
  destruct (max_by_key_total checkpoint_id files f0 t0) as [r Hr].
  { intros f Hf. destruct (Hfiles f) as (t & _ & _ & Hid); [by right|].
    by exists t. }
  rewrite Hr. simpl.
  destruct (max_by_key_spec _ _ _ _ _ Hid0 Hr) as (Hrin & rk & Hrk & Hle & Hall).
  destruct (Hfiles r Hrin) as (tr' & Htr' & Hrname & Hrid).
  assert (rk = tr') as -> by congruence.
  assert (now ≤ tr') as Hge.
  { apply elem_of_cons in Hnm as [Heq|Hin].
    - assert (checkpoint_id nm = inr t0) as Hn by (by rewrite Heq).
      unfold nm in Hn. rewrite checkpoint_id_name in Hn by done.
      injection Hn as ->. done.
    - destruct (Hall nm Hin) as (k & Hk & Hkle).
      unfold nm in Hk. rewrite checkpoint_id_name in Hk by done.
      injection Hk as <-. done. }
  assert (tr' = now) as -> by lia.
  rewrite Hrname. fold nm. unfold dir'. rewrite read_write_file.
  by destruct g.
Qed.

(** X19. There is no fall-back to an older checkpoint: when the file with the
    greatest identifier cannot be unpickled, [load_tracker_checkpoint]
    returns [False] and leaves the tracker as it was, although the directory
    may hold older checkpoints that can be read, and [main] then seeds the
    tracker from the fact table. *)
Theorem unreadable_newest_checkpoint now dir fact_sales tr0 :
  0 ≤ now < 10 ^ Z.of_nat Py.int_max_str_digits →
  written_before now dir →
  load_tracker_checkpoint
    (Some (write_file (checkpoint_name now) Unreadable dir)) tr0
  = inr (false, tr0) ∧
  seed_tracker (Some (write_file (checkpoint_name now) Unreadable dir))
    fact_sales tr0
  = inr (check_existing_invoices fact_sales tr0).
Proof.
  intros Hnow Hdir. unfold seed_tracker.
  by rewrite (load_newest now Unreadable tr0 dir Hnow Hdir).
Qed.

Lemma unreadable_newest_checkpoint_witness :
  let older : gset InvoiceKey := {[ ("INV100", Some 2020) ]} in
  load_tracker_checkpoint
    (Some (write_file (checkpoint_name 1700000300) Unreadable
             [("invoice_tracker_1700000000.pkl", Pickle older)])) ∅
  = inr (false, ∅).
Proof.
  refine (proj1 (unreadable_newest_checkpoint 1700000300
                   [("invoice_tracker_1700000000.pkl",
                     Pickle {[ ("INV100", Some 2020) ]})] [] ∅ _ _)).
  - split; [lia|]. vm_compute. reflexivity.
  - intros name Hin Hcp. simpl in Hin.
    apply list_elem_of_singleton in Hin as ->.
    exists 1700000000. split; [lia|]. vm_compute. reflexivity.
Defined.

(** X20. When a checkpoint loads, the fact table is not read: after a
    checkpoint written at [now], [main] starts from exactly the saved
    tracker, so an invoice that is in [fact_sales] and not in the checkpoint
    is not tracked. *)
Theorem seed_after_save now tr checkpoint_dir fact_sales tr0 :
  (∀ k, k ∈ tr → is_Some k.2) →
  0 ≤ now < 10 ^ Z.of_nat Py.int_max_str_digits →
  written_before now (default [] checkpoint_dir) →
  seed_tracker (save_tracker_checkpoint now tr checkpoint_dir) fact_sales tr0
  = inr tr.
Proof.
  intros Hyears Hnow Hdir. unfold seed_tracker.
  rewrite (load_after_save now tr tr0 checkpoint_dir Hnow Hdir).
  simpl. f_equal. by apply pickle_load_all.
Qed.

Lemma seed_after_save_witness :
  let tr : gset InvoiceKey := {[ ("INV100", Some 2020) ]} in
  seed_tracker (save_tracker_checkpoint 1700000300 tr None)
    [("INV200", 2021)] ∅ = inr tr ∧
  ("INV200", Some 2021) ∉ tr.
Proof.
  split.
  - apply (seed_after_save 1700000300 {[ ("INV100", Some 2020) ]} None).
    + intros k ->%elem_of_singleton. by eexists.
    + split; [lia|]. vm_compute. reflexivity.
    + intros name Hin. inversion Hin.
  - apply (bool_decide_unpack _). vm_compute. exact I.
Defined.

Lemma length_append (a b : string) :
  String.length (a +:+ b) = (String.length a + String.length b)%nat.
Proof. induction a as [|c a IH]; simpl; [done|]. by rewrite IH. Qed.

Lemma append_inj_r (s1 s2 p : string) : s1 +:+ p = s2 +:+ p → s1 = s2.
Proof.
  revert s2. induction s1 as [|a s1 IH]; intros [|b s2] Heq; [done|..].
  - apply (f_equal String.length) in Heq.
    rewrite !length_append in Heq. simpl in Heq. lia.
  - apply (f_equal String.length) in Heq.
    rewrite !length_append in Heq. simpl in Heq. lia.
  - change (String a (s1 +:+ p) = String b (s2 +:+ p)) in Heq.
    injection Heq as -> Heq. f_equal. by apply IH.
Qed.

Lemma checkpoint_name_inj t1 t2 :
  checkpoint_name t1 = checkpoint_name t2 → t1 = t2.
Proof.
  unfold checkpoint_name. intros Heq.
  apply (inj (String.append "invoice_tracker_")) in Heq.
  apply append_inj_r in Heq. by apply (inj pretty) in Heq.
Qed.

Lemma read_write_file_other name f dir n :
  read_file n (write_file name f dir)
  = if decide (n = name) then Some f else read_file n dir.
Proof.
  induction dir as [|[m g] dir IH]; simpl.
  - destruct (String.eqb_spec name n); case_decide; congruence.
  - destruct (String.eqb_spec m name) as [->|Hne]; simpl.
    + destruct (String.eqb_spec name n); case_decide; congruence.
    + rewrite IH. destruct (String.eqb_spec m n); case_decide; congruence.
Qed.

(** X21. Checkpoints pile up: a save writes the file named after its second
    and touches no other file, two saves in the same second share one file,
    which then holds the later tracker, and two saves in different seconds
    never do.  Nothing in the code removes a checkpoint. *)
Theorem checkpoints_accumulate t1 t2 tr1 tr2 checkpoint_dir :
  (checkpoint_name t1 = checkpoint_name t2 ↔ t1 = t2) ∧
  ∀ name,
    read_file name
      (default [] (save_tracker_checkpoint t2 tr2
                     (save_tracker_checkpoint t1 tr1 checkpoint_dir)))
    = if decide (name = checkpoint_name t2) then Some (Pickle tr2)
      else if decide (name = checkpoint_name t1) then Some (Pickle tr1)
      else read_file name (default [] checkpoint_dir).
Proof.
  split.
  - split; [apply checkpoint_name_inj|by intros ->].
  - intros name. unfold save_tracker_checkpoint. simpl.
    by rewrite !read_write_file_other.
Qed.

(** ** More on [check_existing_invoices] *)

(** X22. [check_existing_invoices] adds to the tracker one key for each
    (invoice, year) pair of [fact_sales] and nothing else, and removes
    nothing; the order of the rows does not matter, and a second run over
    the same table changes nothing. *)
Theorem check_existing_invoices_union (fact_sales : list (string * Z))
    (tr : gset InvoiceKey) :
  check_existing_invoices fact_sales tr
  = tr ∪ list_to_set ((λ p, (p.1, Some p.2)) <$> fact_sales) ∧
  check_existing_invoices fact_sales (check_existing_invoices fact_sales tr)
  = check_existing_invoices fact_sales tr.
Proof.
  assert (∀ t : gset InvoiceKey,
            check_existing_invoices fact_sales t
            = t ∪ list_to_set ((λ p, (p.1, Some p.2)) <$> fact_sales)) as Hunion.
  { intros t. apply set_eq. intros k.
    rewrite check_existing_invoices_spec, elem_of_union, elem_of_list_to_set,
      list_elem_of_fmap.
    split; (intros [Hin|Hin]; [by left|right]).
    - destruct Hin as (inv & y & Hin & ->). by exists (inv, y).
    - destruct Hin as ([inv y] & -> & Hin). by exists inv, y. }
  split; [apply Hunion|]. rewrite !Hunion. set_solver.
Qed.

(** ** Running the fact loop again *)

Lemma process_row_tracked cache st row :
  (∀ k, row_key row = Some k → k ∈ tracker st) →
  ∃ st', process_row cache st row = Next st' ∧
         tracker st' = tracker st ∧ fact_records st' = fact_records st.
Proof.
  unfold process_row, row_key. intros Hk.
  destruct (Invoice_Item_Number row) as [inv|]; [|by exists st].
  destruct (String.eqb inv ""); [by exists st|].
  destruct (decide ((inv, to_year (Date row)) ∈ chunk_seen_invoices st));
    [by exists st|].
  destruct (decide ((inv, to_year (Date row)) ∈ tracker st)) as [|Hnot].
  - by exists (count_duplicate st).
  - destruct Hnot. by apply Hk.
Qed.

Lemma process_rows_tracked cache rows st :
  (∀ row k, row ∈ rows → row_key row = Some k → k ∈ tracker st) →
  ∃ st', process_rows cache rows st = Next st' ∧
         tracker st' = tracker st ∧ fact_records st' = fact_records st.
Proof.
  revert st. induction rows as [|row rows IH]; intros st Hk; simpl.
  { by exists st. }
  destruct (process_row_tracked cache st row) as (st1 & -> & Htr & Hrec).
  { intros k. apply Hk. by left. }
  destruct (IH st1) as (st' & Hrun & Htr' & Hrec').
  { intros r k Hr. rewrite Htr. apply Hk. by right. }
  exists st'. split; [done|]. split; congruence.
Qed.

Section Rerun.

Variable sort_values : list Row → list Row.

Hypothesis sort_values_perm : ∀ chunk, sort_values chunk ≡ₚ chunk.

Lemma process_chunks_tracked chunks cache tr loaded :
  (∀ chunk row k, chunk ∈ chunks → row ∈ chunk → row_key row = Some k → k ∈ tr) →
  process_chunks sort_values chunks cache tr loaded = (inr (), tr, loaded).
Proof.
  induction chunks as [|chunk chunks IH]; intros Hk; simpl; [done|].
  unfold process_chunk.
  destruct (process_rows_tracked cache (sort_values chunk) (initial_state tr))
    as (st & -> & Htr & Hrec).
  { intros row k Hrow. apply (Hk chunk); [by left|].
    by rewrite <- (sort_values_perm chunk). }
  simpl in Htr, Hrec. rewrite Htr, Hrec, app_nil_r. apply IH.
  intros c row k Hc. apply Hk. by right.
Qed.

Lemma process_chunks_claims chunks cache tr loaded tr' loaded' :
  process_chunks sort_values chunks cache tr loaded = (inr (), tr', loaded') →
  tr ⊆ tr' ∧
  ∀ chunk row k, chunk ∈ chunks → row ∈ chunk → row_key row = Some k → k ∈ tr'.
Proof.
  revert tr loaded. induction chunks as [|chunk chunks IH]; intros tr loaded; simpl.
  { intros [= <- _]. split; [done|]. intros c row k Hc. inversion Hc. }
  unfold process_chunk.
  destruct (process_rows cache (sort_values chunk) (initial_state tr))
    as [st|e st] eqn:Hrun; [|done].
  intros [Hsub Hrest]%IH.
  pose proof (process_rows_grows cache (sort_values chunk) (initial_state tr))
    as Hg.
  rewrite Hrun in Hg. destruct Hg as [Htr _]. simpl in Htr.
  split; [set_solver|].
  intros c row k [->|Hc]%elem_of_cons Hrow Hk; [|by eapply Hrest].
  apply Hsub.
  apply (process_rows_claims cache (sort_values chunk) (initial_state tr)
           st row k); [done|done| |done].
  by rewrite (sort_values_perm chunk).
Qed.

(** X23. A second run of the fact loop over the same chunks, started from
    the tracker the first run left (the one its last checkpoint holds),
    produces no record and leaves the tracker as it is, whatever the caches
    hold by then: a row that was rejected the first time, for a store,
    vendor or product that was missing, is not tried again. *)
Theorem rerun_loads_nothing chunks cache cache' tr tr' loaded :
  process_chunks sort_values chunks cache tr [] = (inr (), tr', loaded) →
  process_chunks sort_values chunks cache' tr' [] = (inr (), tr', []).
Proof.
  intros [_ Hclaims]%process_chunks_claims.
  by apply process_chunks_tracked.
Qed.

End Rerun.

Lemma rerun_loads_nothing_witness :
  let chunks := [[sample_row jan2 "INV100" 5]] in
  let empty := mkCache ∅ ∅ ∅ ∅ in
  let tr' : gset InvoiceKey := {[ ("INV100", Some 2020) ]} in
  process_chunks sort_by_date chunks empty ∅ [] = (inr (), tr', []) ∧
  process_chunks sort_by_date chunks sample_cache tr' [] = (inr (), tr', []).
Proof.
  assert (process_chunks sort_by_date [[sample_row jan2 "INV100" 5]]
            (mkCache ∅ ∅ ∅ ∅) ∅ []
          = (inr (), {[ ("INV100", Some 2020) ]}, [])) as Hfirst.
  { vm_compute. reflexivity. }
  split; [exact Hfirst|].
  exact (rerun_loads_nothing sort_by_date sort_by_date_perm
           [[sample_row jan2 "INV100" 5]] (mkCache ∅ ∅ ∅ ∅) sample_cache
           ∅ {[ ("INV100", Some 2020) ]} [] Hfirst).
Defined.
